(** * VFD motor start-up simulation: shallow embedding and verified properties

    The three scripts [vfd_simulation_v2.py], [vfd_simulation_v3.py] and
    [vfd_simulation_v4.py] are embedded as pure functions over the real
    numbers.  Python and NumPy floats are read as exact reals ([R]); the
    module-level configuration constants of the scripts are gathered in
    the record [Config], whose value [default_config] carries the numbers
    written in the sources.

    The rotor-speed trajectory itself is produced in the scripts by
    [scipy.integrate.odeint], which is not part of the repository: a run is
    modelled as a solution of the differential equation whose right-hand
    side is the embedded derivative function, exact wherever that
    function is continuous and, where it jumps, with a derivative between
    its nearby values (a solution in Filippov's sense).

    Division is total on [R] ([x / 0 = 0]) where Python raises
    [ZeroDivisionError]; the scripts divide by configuration constants, by
    a synchronous speed that a guard has found positive, and by a clamped
    speed ratio of at least 0.1, so on a well-formed configuration
    ([well_formed]) no divisor vanishes and the two agree. *)

From Stdlib Require Import Reals Lra Lia List String Bool Sorted.
Import ListNotations.

Open Scope R_scope.

(** ** Comparisons and NumPy helpers *)

Definition Rltb (x y : R) : bool := if Rlt_dec x y then true else false.
Definition Rleb (x y : R) : bool := if Rle_dec x y then true else false.
Definition Reqb (x y : R) : bool := if Req_dec_T x y then true else false.

(** [np.clip(x, lo, hi)] is [minimum(hi, maximum(x, lo))]. *)
Definition np_clip (x lo hi : R) : R := Rmin (Rmax x lo) hi.

(** [np.linspace(a, b, n)]: [n] evenly spaced points from [a] to [b]. *)
Definition linspace (a b : R) (n : nat) : list R :=
  map (fun i => a + INR i * ((b - a) / INR (n - 1))) (seq 0 n).

(** [np.trapz(y, x)]: composite trapezoidal rule. *)
Fixpoint trapz (y x : list R) : R :=
  match y, x with
  | y0 :: ((y1 :: _) as ys), x0 :: ((x1 :: _) as xs) =>
      (x1 - x0) * (y1 + y0) / 2 + trapz ys xs
  | _, _ => 0
  end.

Definition sum_list (l : list R) : R := fold_right Rplus 0 l.

(** [np.mean]: the mean of an empty selection is NaN, rendered [None]. *)
Definition np_mean (l : list R) : option R :=
  match l with
  | [] => None
  | _ => Some (sum_list l / INR (List.length l))
  end.

(** ** Configuration parameters (the module-level constants of the scripts) *)

Record Config : Type := mkConfig {
  POWER_HP : R;
  VOLTAGE : R;
  BASE_FREQ : R;
  POLES : R;
  EFFICIENCY : R;
  POWER_FACTOR : R;
  INERTIA : R;
  DAMPING : R;
  LOAD_TORQUE_FACTOR : R;
  RAMP_TIME : R;                    (* VFD_RAMP_TIME in v4 *)
  SOFT_START_RAMP_TIME : R;
  V_BOOST : R;
  SOFT_START_INITIAL_VOLTAGE : R;
  TIME_POINTS : nat;
  LOAD_TYPE : string
}.

Definition default_config : Config := {|
  POWER_HP := 800;
  VOLTAGE := 460;
  BASE_FREQ := 60;
  POLES := 4;
  EFFICIENCY := 0.95;
  POWER_FACTOR := 0.88;
  INERTIA := 150;
  DAMPING := 2.0;
  LOAD_TORQUE_FACTOR := 0.75;
  RAMP_TIME := 30;
  SOFT_START_RAMP_TIME := 20;
  V_BOOST := 0.15;
  SOFT_START_INITIAL_VOLTAGE := 0.3;
  TIME_POINTS := 1000;
  LOAD_TYPE := "constant_torque"
|}.

Section Derived.
Variable cfg : Config.

Definition POWER_KW : R := POWER_HP cfg * 0.7457.
Definition SYNC_SPEED_RPM : R := 120 * BASE_FREQ cfg / POLES cfg.
Definition SYNC_SPEED_RAD : R := SYNC_SPEED_RPM * (2 * PI / 60).
Definition RATED_TORQUE : R :=
  (POWER_KW * 1000) / (SYNC_SPEED_RAD * (1 - 0.03)).
Definition FLA : R :=
  (POWER_KW * 1000) /
  (sqrt 3 * VOLTAGE cfg * POWER_FACTOR cfg * EFFICIENCY cfg).
Definition LOAD_TORQUE : R := RATED_TORQUE * LOAD_TORQUE_FACTOR cfg.
End Derived.

(** ** Load torque model ([get_load_torque], identical in v3 and v4) *)

Definition get_load_torque (speed_ratio base_torque : R) (load_type : string) : R :=
  let speed_ratio := Rmax 0 (Rmin speed_ratio 1.0) in
  if String.eqb load_type "constant_torque" then
    base_torque * (0.3 + 0.7 * speed_ratio)
  else if String.eqb load_type "fan_pump" then
    base_torque * speed_ratio ^ 2
  else if String.eqb load_type "constant_power" then
    if Rltb speed_ratio 0.1 then base_torque * 0.1 / 0.1
    else base_torque * 1.0 / speed_ratio
  else
    base_torque * (0.3 + 0.7 * speed_ratio).

(** ** The rational torque-slip characteristic
    [torque_ratio = (a * slip) / (slip**2 + b * slip + c)] with the
    constants written at every use in the three scripts. *)

Definition a_coef : R := 2.5.
Definition b_coef : R := 0.15.
Definition c_coef : R := 0.08.

Definition torque_ratio (slip : R) : R :=
  (a_coef * slip) / (slip ^ 2 + b_coef * slip + c_coef).

(** Synchronous speed in rad/s at a set-point frequency. *)
Definition sync_speed_rad_at (cfg : Config) (freq : R) : R :=
  (120 * freq / POLES cfg) * (2 * PI / 60).

(** [omega_rad / SYNC_SPEED_RAD if SYNC_SPEED_RAD > 0 else 0] *)
Definition speed_ratio_of (cfg : Config) (omega_rad : R) : R :=
  if Rltb 0 (SYNC_SPEED_RAD cfg) then omega_rad / SYNC_SPEED_RAD cfg else 0.

(** ** vfd_simulation_v2.py *)
Module V2.
Section WithConfig.
Variable cfg : Config.

Definition freq_func (t : R) : R :=
  if Rleb t (RAMP_TIME cfg) then BASE_FREQ cfg * (t / RAMP_TIME cfg)
  else BASE_FREQ cfg.

Definition motor_dynamics (omega_rad t : R) (freq_func : R -> R)
    (load_torque : R) : R :=
  let freq := freq_func t in
  if Rltb freq 1.0 then
    let sync_speed_rad := sync_speed_rad_at cfg freq in
    if Rltb sync_speed_rad 0.1 then 0
    else
      let slip := (sync_speed_rad - omega_rad) / sync_speed_rad in
      let slip := np_clip slip 0 1.0 in
      let torque_em := RATED_TORQUE cfg * 2.5 * slip * (1 + V_BOOST cfg * 5) in
      (torque_em - load_torque * 0.3 - DAMPING cfg * omega_rad) / INERTIA cfg
  else
    let sync_speed_rad := sync_speed_rad_at cfg freq in
    let slip := (sync_speed_rad - omega_rad) / sync_speed_rad in
    let slip := np_clip slip 0 1.0 in
    let torque_em := RATED_TORQUE cfg * torque_ratio slip in
    let freq_ratio := freq / BASE_FREQ cfg in
    let torque_em := torque_em * freq_ratio in
    let torque_em :=
      if Rltb freq (BASE_FREQ cfg * 0.15) then
        torque_em * (1 + V_BOOST cfg * (1 - freq / (BASE_FREQ cfg * 0.15)))
      else torque_em in
    let speed_ratio := speed_ratio_of cfg omega_rad in
    let effective_load := load_torque * (0.3 + 0.7 * speed_ratio) in
    (torque_em - effective_load - DAMPING cfg * omega_rad) / INERTIA cfg.

(** One pass of the post-processing loop: the values stored at index
    [i] of [slip_array], [torque_array] and [current_array]. *)
Record Row : Type := mkRow {
  slip_pct : R;
  torque : R;
  current : R
}.

Definition metrics_row (t omega_rad : R) : Row :=
  let freq := freq_func t in
  if Rleb 0.5 freq then
    let sync_speed_rad := sync_speed_rad_at cfg freq in
    let slip :=
      if Rltb 0 sync_speed_rad
      then (sync_speed_rad - omega_rad) / sync_speed_rad else 1.0 in
    let slip := np_clip slip 0 1.0 in
    let torque_em :=
      if Rltb freq 1.0 then
        RATED_TORQUE cfg * 2.5 * slip * (1 + V_BOOST cfg * 5)
      else
        let torque_em :=
          RATED_TORQUE cfg * torque_ratio slip * (freq / BASE_FREQ cfg) in
        if Rltb freq (BASE_FREQ cfg * 0.15) then
          torque_em * (1 + V_BOOST cfg * (1 - freq / (BASE_FREQ cfg * 0.15)))
        else torque_em in
    let torque_component := FLA cfg * (torque_em / RATED_TORQUE cfg) in
    let magnetizing_component := FLA cfg * 0.3 in
    {| slip_pct := slip * 100;
       torque := torque_em;
       current := sqrt (torque_component ^ 2 + magnetizing_component ^ 2) |}
  else
    {| slip_pct := 100; torque := 0; current := 0 |}.
End WithConfig.
End V2.


(** ** vfd_simulation_v3.py *)
Module V3.
Section WithConfig.
Variable cfg : Config.

Definition time : list R := linspace 0 (RAMP_TIME cfg) (TIME_POINTS cfg).

Definition freq_func (t : R) : R :=
  if Rleb t (RAMP_TIME cfg) then BASE_FREQ cfg * (t / RAMP_TIME cfg)
  else BASE_FREQ cfg.

Definition voltage_func (freq : R) : R :=
  let base_voltage := VOLTAGE cfg * (freq / BASE_FREQ cfg) in
  if Rltb freq (BASE_FREQ cfg * 0.1) then
    let boost :=
      VOLTAGE cfg * V_BOOST cfg * (1 - freq / (BASE_FREQ cfg * 0.1)) in
    base_voltage + boost
  else base_voltage.

(** The electromagnetic torque computed inside [motor_dynamics] on the
    two paths that reach the equation of motion. *)
Definition startup_torque (slip : R) : R :=
  RATED_TORQUE cfg * 2.5 * slip * (1 + V_BOOST cfg * 5).

Definition normal_torque (freq slip : R) : R :=
  let torque_em := RATED_TORQUE cfg * torque_ratio slip in
  let freq_ratio := freq / BASE_FREQ cfg in
  let torque_em := torque_em * freq_ratio in
  if Rltb freq (BASE_FREQ cfg * 0.15) then
    let boost_factor :=
      1 + V_BOOST cfg * (1 - freq / (BASE_FREQ cfg * 0.15)) in
    torque_em * boost_factor
  else torque_em.

(** [motor_dynamics(state, t, freq_func, base_load_torque, load_type)];
    the state is the one-element list [[omega_rad]] and the result the
    one-element list [[d_omega_dt]]. *)
Definition motor_dynamics (omega_rad t : R) (freq_func : R -> R)
    (base_load_torque : R) (load_type : string) : R :=
  let freq := freq_func t in
  if Rltb freq 1.0 then
    let sync_speed_rad := sync_speed_rad_at cfg freq in
    if Rltb sync_speed_rad 0.1 then 0
    else
      let slip := (sync_speed_rad - omega_rad) / sync_speed_rad in
      let slip := np_clip slip 0 1.0 in
      let torque_em := startup_torque slip in
      let speed_ratio := speed_ratio_of cfg omega_rad in
      let effective_load :=
        get_load_torque speed_ratio base_load_torque load_type in
      (torque_em - effective_load - DAMPING cfg * omega_rad) / INERTIA cfg
  else
    let sync_speed_rad := sync_speed_rad_at cfg freq in
    let slip := (sync_speed_rad - omega_rad) / sync_speed_rad in
    let slip := np_clip slip 0 1.0 in
    let torque_em := normal_torque freq slip in
    let speed_ratio := speed_ratio_of cfg omega_rad in
    let effective_load :=
      get_load_torque speed_ratio base_load_torque load_type in
    (torque_em - effective_load - DAMPING cfg * omega_rad) / INERTIA cfg.

(** *** Direct-on-line approximation ([simulate_dol_start]) *)

Record DolRow : Type := mkDolRow {
  dol_omega : R;
  dol_current : R;
  dol_torque : R
}.

Definition dol_row (t : R) : DolRow :=
  if Reqb t 0 then
    {| dol_omega := 0;
       dol_current := FLA cfg * 6.5;
       dol_torque := RATED_TORQUE cfg * 2.5 |}
  else
    let tau := 2.0 in
    let speed_ratio := 1 - exp (- t / tau) in
    let slip_ratio := 1 - speed_ratio * 0.97 in
    {| dol_omega := SYNC_SPEED_RPM cfg * 0.97 * speed_ratio;
       dol_current := FLA cfg * (1 + 5.5 * slip_ratio);
       dol_torque := RATED_TORQUE cfg * (2.5 * slip_ratio + 1.0) |}.

Definition dol_time : list R := linspace 0 5 500.

Definition simulate_dol_start : list R * list DolRow :=
  (dol_time, map dol_row dol_time).

(** *** Post-processing loop: one row per trajectory sample *)

Record Row : Type := mkRow {
  slip_pct : R;
  torque : R;
  current : R;
  load_torque : R;
  power_output : R;
  power_input : R;
  efficiency : R
}.

Definition metrics_row (t omega_rad : R) : Row :=
  let freq := freq_func t in
  if Rleb 0.5 freq then
    let sync_speed_rad := sync_speed_rad_at cfg freq in
    let slip :=
      if Rltb 0 sync_speed_rad
      then (sync_speed_rad - omega_rad) / sync_speed_rad else 1.0 in
    let slip := np_clip slip 0 1.0 in
    let torque_em :=
      if Rltb freq 1.0 then startup_torque slip
      else
        let torque_em :=
          RATED_TORQUE cfg * torque_ratio slip * (freq / BASE_FREQ cfg) in
        if Rltb freq (BASE_FREQ cfg * 0.15) then
          torque_em * (1 + V_BOOST cfg * (1 - freq / (BASE_FREQ cfg * 0.15)))
        else torque_em in
    let speed_ratio := speed_ratio_of cfg omega_rad in
    let load := get_load_torque speed_ratio (LOAD_TORQUE cfg) (LOAD_TYPE cfg) in
    let torque_component := FLA cfg * (torque_em / RATED_TORQUE cfg) in
    let magnetizing_component := FLA cfg * 0.3 in
    let i_now := sqrt (torque_component ^ 2 + magnetizing_component ^ 2) in
    let p_out := (omega_rad * load) / 1000 in
    let p_in := (sqrt 3 * VOLTAGE cfg * i_now * POWER_FACTOR cfg) / 1000 in
    {| slip_pct := slip * 100;
       torque := torque_em;
       current := i_now;
       load_torque := load;
       power_output := p_out;
       power_input := p_in;
       efficiency := if Rltb 0 p_in then (p_out / p_in) * 100 else 0 |}
  else
    {| slip_pct := 100;
       torque := 0;
       current := 0;
       load_torque := 0;
       power_output := 0;
       power_input := 0;
       efficiency := 0 |}.

(** The post-processing loop as it is written: [for i, t in
    enumerate(time)], every array sized by [time].  An active sample
    (frequency at least 0.5 Hz) reads [omega_rad[i]], which raises
    [IndexError] when the trajectory is too short; an inactive sample
    stores its constants without reading the trajectory.  [None] stands
    for the raised error. *)
Definition loop_row (omega_rad : list R) (i : nat) (t : R) : option Row :=
  if Rleb 0.5 (freq_func t) then
    match nth_error omega_rad i with
    | Some w => Some (metrics_row t w)
    | None => None
    end
  else
    Some {| slip_pct := 100; torque := 0; current := 0; load_torque := 0;
            power_output := 0; power_input := 0; efficiency := 0 |}.

Fixpoint metrics_from (i : nat) (time omega_rad : list R)
    : option (list Row) :=
  match time with
  | [] => Some []
  | t :: rest =>
      match loop_row omega_rad i t with
      | None => None
      | Some row =>
          match metrics_from (S i) rest omega_rad with
          | None => None
          | Some rows => Some (row :: rows)
          end
      end
  end.

Definition metrics_loop (time omega_rad : list R) : option (list Row) :=
  metrics_from 0 time omega_rad.

(** The rows of the loop for a trajectory with one speed per time point,
    which is what [odeint] returns for the grid [time]: the two lists are
    walked together.  (For lists of different length this pairing stops
    at the shorter one, where the loop above raises or ignores the
    surplus; the properties below that depend on the number of rows
    assume equal lengths.) *)
Definition metrics (time omega_rad : list R) : list Row :=
  map (fun p => metrics_row (fst p) (snd p)) (combine time omega_rad).

Definition power_input_array (time omega_rad : list R) : list R :=
  map power_input (metrics time omega_rad).

Definition efficiency_array (time omega_rad : list R) : list R :=
  map efficiency (metrics time omega_rad).

Definition vfd_energy_kj (time omega_rad : list R) : R :=
  trapz (power_input_array time omega_rad) time.

(** [np.mean(efficiency_array[efficiency_array > 0])] *)
Definition avg_efficiency (time omega_rad : list R) : option R :=
  np_mean (filter (fun e => Rltb 0 e) (efficiency_array time omega_rad)).

End WithConfig.
End V3.

(** ** vfd_simulation_v4.py *)
Module V4.
Section WithConfig.
Variable cfg : Config.

Definition vfd_freq_func (t ramp_time : R) : R :=
  if Rleb t ramp_time then BASE_FREQ cfg * (t / ramp_time)
  else BASE_FREQ cfg.

Definition vfd_voltage_func (freq : R) : R :=
  let base_voltage := VOLTAGE cfg * (freq / BASE_FREQ cfg) in
  if Rltb freq (BASE_FREQ cfg * 0.1) then
    let boost :=
      VOLTAGE cfg * V_BOOST cfg * (1 - freq / (BASE_FREQ cfg * 0.1)) in
    base_voltage + boost
  else base_voltage.

Definition soft_start_voltage_func (t ramp_time : R) : R :=
  if Rleb t ramp_time then
    let voltage_ratio :=
      SOFT_START_INITIAL_VOLTAGE cfg +
      (1 - SOFT_START_INITIAL_VOLTAGE cfg) * (t / ramp_time) in
    VOLTAGE cfg * voltage_ratio
  else VOLTAGE cfg.

Definition vfd_motor_dynamics (omega_rad t base_load_torque : R)
    (load_type : string) (ramp_time : R) : R :=
  let freq := vfd_freq_func t ramp_time in
  if Rltb freq 1.0 then
    let sync_speed_rad := sync_speed_rad_at cfg freq in
    if Rltb sync_speed_rad 0.1 then 0
    else
      let slip := (sync_speed_rad - omega_rad) / sync_speed_rad in
      let slip := np_clip slip 0 1.0 in
      let torque_em :=
        RATED_TORQUE cfg * 2.5 * slip * (1 + V_BOOST cfg * 5) in
      let speed_ratio := speed_ratio_of cfg omega_rad in
      let effective_load :=
        get_load_torque speed_ratio base_load_torque load_type in
      (torque_em - effective_load - DAMPING cfg * omega_rad) / INERTIA cfg
  else
    let sync_speed_rad := sync_speed_rad_at cfg freq in
    let slip := (sync_speed_rad - omega_rad) / sync_speed_rad in
    let slip := np_clip slip 0 1.0 in
    let torque_em := RATED_TORQUE cfg * torque_ratio slip in
    let freq_ratio := freq / BASE_FREQ cfg in
    let torque_em := torque_em * freq_ratio in
    let torque_em :=
      if Rltb freq (BASE_FREQ cfg * 0.15) then
        torque_em * (1 + V_BOOST cfg * (1 - freq / (BASE_FREQ cfg * 0.15)))
      else torque_em in
    let speed_ratio := speed_ratio_of cfg omega_rad in
    let effective_load :=
      get_load_torque speed_ratio base_load_torque load_type in
    (torque_em - effective_load - DAMPING cfg * omega_rad) / INERTIA cfg.

(** The electromagnetic torque computed inside
    [soft_start_motor_dynamics] (the value of [torque_em]). *)
Definition soft_start_torque_em (omega_rad t ramp_time : R) : R :=
  let voltage := soft_start_voltage_func t ramp_time in
  let voltage_ratio := voltage / VOLTAGE cfg in
  let sync_speed_rad := SYNC_SPEED_RAD cfg in
  let slip := (sync_speed_rad - omega_rad) / sync_speed_rad in
  let slip := np_clip slip 0 1.0 in
  RATED_TORQUE cfg * torque_ratio slip * (voltage_ratio ^ 2).

Definition soft_start_motor_dynamics (omega_rad t base_load_torque : R)
    (load_type : string) (ramp_time : R) : R :=
  let torque_em := soft_start_torque_em omega_rad t ramp_time in
  let speed_ratio := speed_ratio_of cfg omega_rad in
  let effective_load :=
    get_load_torque speed_ratio base_load_torque load_type in
  (torque_em - effective_load - DAMPING cfg * omega_rad) / INERTIA cfg.

(** *** [calculate_metrics]: one row per sample; every array starts as
    [np.zeros], so an index skipped by [continue] keeps zeros. *)

Record Row : Type := mkRow {
  current : R;
  torque : R;
  slip : R;
  load_torque_array : R;
  power_in : R;
  power_out : R;
  efficiency : R;
  voltage_array : R
}.

Definition zero_row : Row :=
  {| current := 0; torque := 0; slip := 0; load_torque_array := 0;
     power_in := 0; power_out := 0; efficiency := 0; voltage_array := 0 |}.

Definition active_row (t omega_rad : R) (method : string) (ramp_time : R)
    (sync_speed_rad freq voltage : R) : Row :=
  let s :=
    if Rltb 0 sync_speed_rad
    then (sync_speed_rad - omega_rad) / sync_speed_rad else 1.0 in
  let s := np_clip s 0 1.0 in
  let torque_i :=
    if String.eqb method "vfd" then
      let freq_ratio := freq / BASE_FREQ cfg in
      let tq := RATED_TORQUE cfg * torque_ratio s * freq_ratio in
      if Rltb freq (BASE_FREQ cfg * 0.15) then
        tq * (1 + V_BOOST cfg * (1 - freq / (BASE_FREQ cfg * 0.15)))
      else tq
    else
      let voltage_ratio := voltage / VOLTAGE cfg in
      RATED_TORQUE cfg * torque_ratio s * (voltage_ratio ^ 2) in
  let speed_ratio := speed_ratio_of cfg omega_rad in
  let load := get_load_torque speed_ratio (LOAD_TORQUE cfg) (LOAD_TYPE cfg) in
  let torque_component := FLA cfg * (torque_i / RATED_TORQUE cfg) in
  let magnetizing_component := FLA cfg * 0.3 in
  let i_now := sqrt (torque_component ^ 2 + magnetizing_component ^ 2) in
  let i_now :=
    if String.eqb method "soft_starter" && Rltb t ramp_time then
      let voltage_ratio := voltage / VOLTAGE cfg in
      if Rltb 0.3 voltage_ratio then i_now * (1.2 / voltage_ratio)
      else i_now
    else i_now in
  let p_out := (omega_rad * load) / 1000 in
  let p_in := (sqrt 3 * voltage * i_now * POWER_FACTOR cfg) / 1000 in
  {| current := i_now;
     torque := torque_i;
     slip := s * 100;
     load_torque_array := load;
     power_in := p_in;
     power_out := p_out;
     efficiency := if Rltb 0 p_in then (p_out / p_in) * 100 else 0;
     voltage_array := voltage |}.

Definition metrics_row (t omega_rad : R) (method : string) (ramp_time : R)
    : Row :=
  if String.eqb method "vfd" then
    let freq := vfd_freq_func t ramp_time in
    if Rltb freq 0.5 then zero_row
    else
      active_row t omega_rad method ramp_time
        (sync_speed_rad_at cfg freq) freq (vfd_voltage_func freq)
  else
    active_row t omega_rad method ramp_time
      (SYNC_SPEED_RAD cfg) (BASE_FREQ cfg)
      (soft_start_voltage_func t ramp_time).

(** The rows of [calculate_metrics(time, omega_rad, method, ramp_time)]
    for a trajectory with one speed per time point, as [odeint] returns
    it for the grid [time]; the properties below that depend on the
    number of rows assume equal lengths. *)
Definition calculate_metrics (time omega_rad : list R) (method : string)
    (ramp_time : R) : list Row :=
  map (fun p => metrics_row (fst p) (snd p) method ramp_time)
      (combine time omega_rad).

End WithConfig.
End V4.


(** ** Well-formed configurations

    The sign conditions under which the scripts are meant to be edited:
    positive ratings, inertia and ramp times, non-negative damping, load
    factor and boost, and an initial soft-start voltage fraction in
    [[0,1]]. *)

Record well_formed (cfg : Config) : Prop := mkWellFormed {
  wf_power : 0 < POWER_HP cfg;
  wf_voltage : 0 < VOLTAGE cfg;
  wf_base_freq : 0 < BASE_FREQ cfg;
  wf_poles : 0 < POLES cfg;
  wf_efficiency : 0 < EFFICIENCY cfg;
  wf_power_factor : 0 < POWER_FACTOR cfg;
  wf_inertia : 0 < INERTIA cfg;
  wf_damping : 0 <= DAMPING cfg;
  wf_load_factor : 0 <= LOAD_TORQUE_FACTOR cfg;
  wf_ramp_time : 0 < RAMP_TIME cfg;
  wf_soft_start_ramp_time : 0 < SOFT_START_RAMP_TIME cfg;
  wf_boost : 0 <= V_BOOST cfg;
  wf_initial_voltage : 0 <= SOFT_START_INITIAL_VOLTAGE cfg <= 1
}.

(** ** Simulation runs

    [odeint(f, [0], time, args)] is not part of the repository; it
    returns the samples on [time] of a solution of [omega' = f(omega, t)]
    that starts at [omega = 0].  The derivative functions are
    discontinuous.  They switch regime at finitely many times (the
    0.1 rad/s guard and the 1 Hz boundary of the VFD ramp), where their
    value jumps; and the constant-power load torque jumps from the base
    torque to ten times the base torque at a speed ratio of 0.1, so the
    derivative also jumps in the speed.

    An exact run over the horizon [T] is a function [omega] with
    [omega 0 = 0] that is continuous on [[0,T]] and whose derivative, at
    every time inside the horizon but finitely many switching times, is
    the value of the script's derivative function there. *)

Definition is_run (dyn : R -> R -> R) (T : R) (omega : R -> R) : Prop :=
  omega 0 = 0 /\
  (forall t, 0 <= t <= T -> continuity_pt omega t) /\
  exists switches : list R,
    forall t, 0 < t < T -> ~ In t switches ->
      derivable_pt_lim omega t (dyn (omega t) t).

(** Where the derivative jumps in the speed and points at the jump from
    both sides, no exact run continues: the trajectory stays on the jump
    (the integrator's steps chatter across it).  Such a trajectory is a
    solution in the sense of Filippov: its derivative lies between the
    values that the derivative function takes arbitrarily near the
    current state.  [near_values dyn w t d] says that [d] lies between the
    lower and the upper limit of [dyn] at [(w, t)]. *)
Definition near_values (dyn : R -> R -> R) (w t d : R) : Prop :=
  forall eps, 0 < eps ->
    (exists w' t',
       Rabs (w' - w) < eps /\ Rabs (t' - t) < eps /\ dyn w' t' <= d + eps) /\
    (exists w' t',
       Rabs (w' - w) < eps /\ Rabs (t' - t) < eps /\ d - eps <= dyn w' t').

(** A run in general: as an exact run, but the derivative [domega t] of
    the trajectory need only lie between the nearby values of the
    derivative function.  Every exact run is such a run, and where the
    derivative function is continuous the two notions agree. *)
Definition is_sliding_run (dyn : R -> R -> R) (T : R) (omega : R -> R)
    : Prop :=
  omega 0 = 0 /\
  (forall t, 0 <= t <= T -> continuity_pt omega t) /\
  exists (switches : list R) (domega : R -> R),
    forall t, 0 < t < T -> ~ In t switches ->
      derivable_pt_lim omega t (domega t) /\
      near_values dyn (omega t) t (domega t).

(** The v3 call [odeint(motor_dynamics, initial_state, time,
    args=(freq_func, LOAD_TORQUE, LOAD_TYPE))]. *)
Definition vfd_dynamics (cfg : Config) (omega_rad t : R) : R :=
  V3.motor_dynamics cfg omega_rad t (V3.freq_func cfg)
    (LOAD_TORQUE cfg) (LOAD_TYPE cfg).

(** The v4 call [odeint(soft_start_motor_dynamics, [0], ss_time,
    args=(LOAD_TORQUE, LOAD_TYPE, SOFT_START_RAMP_TIME))]. *)
Definition soft_start_dynamics (cfg : Config) (omega_rad t : R) : R :=
  V4.soft_start_motor_dynamics cfg omega_rad t
    (LOAD_TORQUE cfg) (LOAD_TYPE cfg) (SOFT_START_RAMP_TIME cfg).

(** The runs of the two starting methods over their ramp times. *)
Inductive simulation_run (cfg : Config) : R -> (R -> R) -> Prop :=
| vfd_run (omega : R -> R) :
    is_sliding_run (vfd_dynamics cfg) (RAMP_TIME cfg) omega ->
    simulation_run cfg (RAMP_TIME cfg) omega
| soft_start_run (omega : R -> R) :
    is_sliding_run (soft_start_dynamics cfg) (SOFT_START_RAMP_TIME cfg)
      omega ->
    simulation_run cfg (SOFT_START_RAMP_TIME cfg) omega.

(** A slow drive on which the VFD equation of motion can be solved in
    closed form: a two-pole motor with a base frequency of 0.5 Hz ramped
    over [10 * PI] seconds, no boost and no damping, and an inertia of 25
    times the rated torque.  The set-point synchronous speed is then
    [t / 10] rad/s, the 0.1 rad/s guard ends at [t = 1], the whole ramp
    stays below 1 Hz (linear start-up torque), and the equation of motion
    reads [omega' = 0.1 * slip - load / (25 * RATED_TORQUE)]. *)
Definition slow_ramp_config (load_type : string) (load_factor : R) : Config := {|
  POWER_HP := 800;
  VOLTAGE := 460;
  BASE_FREQ := 0.5;
  POLES := 2;
  EFFICIENCY := 0.95;
  POWER_FACTOR := 0.88;
  INERTIA := 25 * (800 * 0.7457 * 1000 / (PI * (1 - 0.03)));
  DAMPING := 0;
  LOAD_TORQUE_FACTOR := load_factor;
  RAMP_TIME := 10 * PI;
  SOFT_START_RAMP_TIME := 20;
  V_BOOST := 0;
  SOFT_START_INITIAL_VOLTAGE := 0.3;
  TIME_POINTS := 1000;
  LOAD_TYPE := load_type
|}.

(** The slow drive with an unloaded fan. *)
Definition fan_ramp_config : Config := slow_ramp_config "fan_pump" 0.

(** Its VFD run: at rest until the guard ends at [t = 1], then
    [omega = 0.05 * (t - 1/t)]. *)
Definition fan_ramp_omega (t : R) : R :=
  0.05 * (Rmax t 1 - / Rmax t 1).

(** The slow drive with a constant-power load, the load factor chosen so
    that the trajectory meets the jump of the load torque (speed ratio
    0.1) at [t = 10]. *)
Definition sliding_config : Config :=
  slow_ramp_config "constant_power" (2.5 - 5 * PI / 9.9).

(** Its VFD run: at rest until [t = 1], then [omega = PI/99 * (t - 1/t)]
    up to [t = 10], where the speed ratio reaches 0.1 and the load torque
    jumps tenfold; from there the trajectory stays on the jump, at
    [omega = 0.1 * PI]. *)
Definition sliding_omega (t : R) : R :=
  PI / 99 * (np_clip t 1 10 - / np_clip t 1 10).

(** A seized load: the scripts' configuration with the load torque factor
    raised from 0.75 to 7, so that the breakaway load torque exceeds the
    locked-rotor torque at full voltage. *)
Definition stall_config : Config := {|
  POWER_HP := 800;
  VOLTAGE := 460;
  BASE_FREQ := 60;
  POLES := 4;
  EFFICIENCY := 0.95;
  POWER_FACTOR := 0.88;
  INERTIA := 150;
  DAMPING := 2.0;
  LOAD_TORQUE_FACTOR := 7;
  RAMP_TIME := 30;
  SOFT_START_RAMP_TIME := 20;
  V_BOOST := 0.15;
  SOFT_START_INITIAL_VOLTAGE := 0.3;
  TIME_POINTS := 1000;
  LOAD_TYPE := "constant_torque"
|}.

(** For a rotor at or below standstill under a constant-torque load the
    slip is clamped to 1 and the speed ratio to 0, and the soft-start
    equation of motion is linear in the speed:
    [omega' = standstill_forcing cfg t - DAMPING / INERTIA * omega]. *)
Definition standstill_forcing (cfg : Config) (t : R) : R :=
  (RATED_TORQUE cfg * torque_ratio 1
   * (SOFT_START_INITIAL_VOLTAGE cfg
      + (1 - SOFT_START_INITIAL_VOLTAGE cfg) * (t / SOFT_START_RAMP_TIME cfg)) ^ 2
   - LOAD_TORQUE cfg * 0.3) / INERTIA cfg.

(** A bound on how fast the soft-start derivative can grow with the speed
    above standstill: the torque-slip ratio gains at most [3] per unit of
    slip lost, and the slip lost is at most [omega / SYNC_SPEED_RAD]. *)
Definition standstill_growth_rate (cfg : Config) : R :=
  3 * RATED_TORQUE cfg / (INERTIA cfg * SYNC_SPEED_RAD cfg).

(** For [stall_config] the forcing is the quadratic
    [stall_p2 * t^2 + stall_p1 * t + stall_p0] and the decay rate is
    [2/150 = 1/75]; [stalled_omega] is the solution from [omega 0 = 0]. *)
Definition stall_p2 : R :=
  RATED_TORQUE stall_config * torque_ratio 1 * (0.035 * 0.035) / 150.
Definition stall_p1 : R :=
  RATED_TORQUE stall_config * torque_ratio 1 * (2 * 0.3 * 0.035) / 150.
Definition stall_p0 : R :=
  (RATED_TORQUE stall_config * torque_ratio 1 * (0.3 * 0.3)
   - LOAD_TORQUE stall_config * 0.3) / 150.
Definition stall_alpha : R := 75 * stall_p2.
Definition stall_beta : R := 75 * (stall_p1 - 2 * stall_alpha).
Definition stall_gamma : R := 75 * (stall_p0 - stall_beta).

Definition stalled_omega (t : R) : R :=
  stall_alpha * t ^ 2 + stall_beta * t + stall_gamma
  - stall_gamma * exp (- t / 75).

(** ** The average efficiency as the specification words it

    The mean of the per-sample efficiency over the samples whose input
    power is strictly positive; to be compared with [V3.avg_efficiency],
    which selects the samples whose efficiency is strictly positive. *)
Definition avg_efficiency_spec (cfg : Config) (time omega_rad : list R)
    : option R :=
  np_mean
    (map V3.efficiency
       (filter (fun row => Rltb 0 (V3.power_input row))
          (V3.metrics cfg time omega_rad))).


(** ** Further configurations used below *)


(** The scripts' configuration sampled at three points, [t = 0, 15, 30]. *)
Definition three_point_config : Config := {|
  POWER_HP := 800;
  VOLTAGE := 460;
  BASE_FREQ := 60;
  POLES := 4;
  EFFICIENCY := 0.95;
  POWER_FACTOR := 0.88;
  INERTIA := 150;
  DAMPING := 2.0;
  LOAD_TORQUE_FACTOR := 0.75;
  RAMP_TIME := 30;
  SOFT_START_RAMP_TIME := 20;
  V_BOOST := 0.15;
  SOFT_START_INITIAL_VOLTAGE := 0.3;
  TIME_POINTS := 3;
  LOAD_TYPE := "constant_torque"
|}.

(** The input power of a v3 sample written with the fixed line voltage:
    the value that [vfd_energy_kj] integrates. *)
Definition line_voltage_power (cfg : Config) (row : V3.Row) : R :=
  sqrt 3 * VOLTAGE cfg * V3.current row * POWER_FACTOR cfg / 1000.


(** ** Barrier functions for the invariance arguments *)

(** The squared excess of [x] over the level [c]: zero up to [c],
    continuously differentiable everywhere. *)
Definition excess_sqr (c x : R) : R := Rmax (x - c) 0 ^ 2.

(** The trajectory weighted by an exponential integrating factor. *)
Definition weighted (k : R) (omega : R -> R) (t : R) : R :=
  exp (k * t) * omega t.


(** ** Summary quantities computed after the loops *)

(** [np.max]: an empty array raises [ValueError], rendered [None]. *)
Definition np_max (l : list R) : option R :=
  match l with
  | [] => None
  | x :: xs => Some (fold_left Rmax xs x)
  end.

(** *** vfd_simulation_v3.py, lines 204-205 and 268-289 *)
Module V3_summary.
Section WithConfig.
Variable cfg : Config.

(** [omega_rpm = omega_rad * (60 / (2 * np.pi))] *)
Definition omega_rpm (omega_rad : R) : R := omega_rad * (60 / (2 * PI)).

Definition current_array (time omega_rad : list R) : list R :=
  map V3.current (V3.metrics cfg time omega_rad).

Definition dol_current : list R :=
  map V3.dol_current (snd (V3.simulate_dol_start cfg)).

Definition vfd_energy_kwh (time omega_rad : list R) : R :=
  V3.vfd_energy_kj cfg time omega_rad / 3600.

(** [dol_power = (np.sqrt(3) * VOLTAGE * dol_current * POWER_FACTOR) / 1000] *)
Definition dol_power : list R :=
  map (fun i => (sqrt 3 * VOLTAGE cfg * i * POWER_FACTOR cfg) / 1000)
      dol_current.

Definition dol_energy_kj : R :=
  trapz dol_power (fst (V3.simulate_dol_start cfg)).

Definition dol_energy_kwh : R := dol_energy_kj / 3600.

Definition vfd_peak_current (time omega_rad : list R) : option R :=
  np_max (current_array time omega_rad).

Definition dol_peak_current : option R := np_max dol_current.

End WithConfig.
End V3_summary.

(** *** vfd_simulation_v4.py, lines 188-199 and 279-316 *)
Module V4_summary.
Section WithConfig.
Variable cfg : Config.

Definition vfd_time : list R := linspace 0 (RAMP_TIME cfg) (TIME_POINTS cfg).

Definition ss_time : list R :=
  linspace 0 (SOFT_START_RAMP_TIME cfg) (TIME_POINTS cfg).

Definition vfd_pin (vfd_omega_rad : list R) : list R :=
  map V4.power_in
      (V4.calculate_metrics cfg vfd_time vfd_omega_rad "vfd" (RAMP_TIME cfg)).

Definition ss_pin (ss_omega_rad : list R) : list R :=
  map V4.power_in
      (V4.calculate_metrics cfg ss_time ss_omega_rad "soft_starter"
         (SOFT_START_RAMP_TIME cfg)).

Definition vfd_energy_kj (vfd_omega_rad : list R) : R :=
  trapz (vfd_pin vfd_omega_rad) vfd_time.

Definition ss_energy_kj (ss_omega_rad : list R) : R :=
  trapz (ss_pin ss_omega_rad) ss_time.












End WithConfig.
End V4_summary.

(** The largest torque, in units of rated torque, that the v3 metrics
    loop can report: the start-up formula at slip 1, or the peak of the
    rational curve (below 3.5) at full boost. *)
Definition torque_ratio_cap (cfg : Config) : R :=
  Rmax (2.5 * (1 + V_BOOST cfg * 5)) (3.5 * (1 + V_BOOST cfg)).


(** The current of a sample before the soft-starter inflation:
    [np.sqrt(torque_component**2 + magnetizing_component**2)] for a
    reported torque. *)
Definition uninflated_current (cfg : Config) (torque : R) : R :=
  sqrt ((FLA cfg * (torque / RATED_TORQUE cfg)) ^ 2 + (FLA cfg * 0.3) ^ 2).

(** The rated input power [POWER_KW / EFFICIENCY], in kW. *)
Definition rated_input_power (cfg : Config) : R :=
  POWER_KW cfg / EFFICIENCY cfg.


(** * Properties *)

(** Decimal literals of [R] are rationals [Q2R (n # d)]; [decimals]
    exposes them as quotients of integers for [field]. *)
Ltac decimals := cbv [Q2R QArith_base.Qnum QArith_base.Qden] in *.

(** ** Reading the comparisons *)

Lemma Rltb_true (x y : R) : x < y -> Rltb x y = true.
Proof. intros H; unfold Rltb; destruct (Rlt_dec x y); [reflexivity | contradiction]. Qed.

Lemma Rltb_false (x y : R) : y <= x -> Rltb x y = false.
Proof. intros H; unfold Rltb; destruct (Rlt_dec x y); [lra | reflexivity]. Qed.

Lemma Rleb_true (x y : R) : x <= y -> Rleb x y = true.
Proof. intros H; unfold Rleb; destruct (Rle_dec x y); [reflexivity | contradiction]. Qed.

Lemma Rleb_false (x y : R) : y < x -> Rleb x y = false.
Proof. intros H; unfold Rleb; destruct (Rle_dec x y); [lra | reflexivity]. Qed.

Lemma Reqb_true (x : R) : Reqb x x = true.
Proof. unfold Reqb; destruct (Req_dec_T x x); [reflexivity | contradiction]. Qed.

Lemma Reqb_false (x y : R) : x <> y -> Reqb x y = false.
Proof. intros H; unfold Reqb; destruct (Req_dec_T x y); [contradiction | reflexivity]. Qed.

Lemma Rltb_spec (x y : R) : {x < y /\ Rltb x y = true} + {y <= x /\ Rltb x y = false}.
Proof.
  destruct (Rlt_dec x y) as [H | H].
  - left; split; [exact H | now apply Rltb_true].
  - right; split; [lra | apply Rltb_false; lra].
Qed.

Lemma Rleb_spec (x y : R) : {x <= y /\ Rleb x y = true} + {y < x /\ Rleb x y = false}.
Proof.
  destruct (Rle_dec x y) as [H | H].
  - left; split; [exact H | now apply Rleb_true].
  - right; split; [lra | apply Rleb_false; lra].
Qed.

Lemma np_clip_bounds (x : R) : 0 <= np_clip x 0 1 <= 1.
Proof.
  unfold np_clip, Rmin, Rmax.
  destruct (Rle_dec x 0); destruct (Rle_dec _ 1); lra.
Qed.

Lemma np_clip_low (x : R) : x <= 0 -> np_clip x 0 1 = 0.
Proof.
  intros H; unfold np_clip, Rmin, Rmax.
  destruct (Rle_dec x 0); destruct (Rle_dec _ 1); lra.
Qed.

Lemma np_clip_high (x : R) : 1 <= x -> np_clip x 0 1 = 1.
Proof.
  intros H; unfold np_clip, Rmin, Rmax.
  destruct (Rle_dec x 0); destruct (Rle_dec _ 1); lra.
Qed.

Lemma clamp01_bounds (x : R) : 0 <= Rmax 0 (Rmin x 1) <= 1.
Proof.
  unfold Rmin, Rmax.
  destruct (Rle_dec x 1); destruct (Rle_dec 0 _); lra.
Qed.

Lemma clamp01_low (x : R) : x <= 0 -> Rmax 0 (Rmin x 1) = 0.
Proof.
  intros H; unfold Rmin, Rmax.
  destruct (Rle_dec x 1); destruct (Rle_dec 0 _); lra.
Qed.

(** ** Load torque model *)

Lemma get_load_torque_nonneg (r base : R) (load_type : string) :
  0 <= base -> 0 <= get_load_torque r base load_type.
Proof.
  intros Hb. unfold get_load_torque.
  pose proof (clamp01_bounds r) as Hr.
  replace 1.0 with 1 by lra.
  set (q := Rmax 0 (Rmin r 1)) in *.
  destruct (String.eqb load_type "constant_torque"); [nra |].
  destruct (String.eqb load_type "fan_pump"); [nra |].
  destruct (String.eqb load_type "constant_power"); [| nra].
  destruct (Rltb_spec q 0.1) as [[Hq ->] | [Hq ->]]; [lra |].
  unfold Rdiv. apply Rmult_le_pos; [lra |].
  left; apply Rinv_0_lt_compat; lra.
Qed.

Lemma get_load_torque_fan_pump_standstill (r base : R) :
  r <= 0 -> get_load_torque r base "fan_pump" = 0.
Proof.
  intros Hr. unfold get_load_torque. simpl.
  replace 1.0 with 1 by lra.
  rewrite (clamp01_low r Hr). ring.
Qed.

(** C7.  For every load type (the three named ones and the fallback),
    every real speed ratio and every non-negative base torque, the load
    torque is non-negative; it is at most the base torque for every type
    other than constant power, at most ten times the base torque for
    constant power, and exactly the base torque for constant power when
    the clamped speed ratio is below 0.1. *)
Theorem C7_load_torque_bounds (speed_ratio base_torque : R) (load_type : string) :
  0 <= base_torque ->
  0 <= get_load_torque speed_ratio base_torque load_type /\
  (load_type <> "constant_power"%string ->
     get_load_torque speed_ratio base_torque load_type <= base_torque) /\
  (load_type = "constant_power"%string ->
     get_load_torque speed_ratio base_torque load_type <= 10 * base_torque /\
     (Rmax 0 (Rmin speed_ratio 1) < 0.1 ->
        get_load_torque speed_ratio base_torque load_type = base_torque)).
Proof.
  intros Hb. split; [now apply get_load_torque_nonneg |].
  unfold get_load_torque.
  pose proof (clamp01_bounds speed_ratio) as Hr.
  replace 1.0 with 1 by lra.
  set (q := Rmax 0 (Rmin speed_ratio 1)) in *.
  split.
  - intros Hne.
    assert (Hq2 : 0 <= q ^ 2 <= 1) by nra.
    destruct (String.eqb load_type "constant_torque"); [nra |].
    destruct (String.eqb load_type "fan_pump"); [nra |].
    destruct (String.eqb_spec load_type "constant_power") as [E | _];
      [contradiction | nra].
  - intros ->. simpl.
    destruct (Rltb_spec q 0.1) as [[Hq ->] | [Hq ->]].
    + split; [| intros _]; lra.
    + split; [| intros Hlt; lra].
      assert (Hinv : / q <= 10).
      { replace 10 with (/ 0.1) by lra.
        apply Rinv_le_contravar; lra. }
      unfold Rdiv. nra.
Qed.

Lemma C7_load_torque_bounds_witness :
  0 <= get_load_torque 0.05 100 "constant_power" /\
  ("constant_power"%string <> "constant_power"%string ->
     get_load_torque 0.05 100 "constant_power" <= 100) /\
  ("constant_power"%string = "constant_power"%string ->
     get_load_torque 0.05 100 "constant_power" <= 10 * 100 /\
     (Rmax 0 (Rmin 0.05 1) < 0.1 ->
        get_load_torque 0.05 100 "constant_power" = 100)).
Proof. apply (C7_load_torque_bounds 0.05 100 "constant_power"). lra. Defined.

(** ** The torque-slip characteristic *)

Lemma torque_ratio_den_pos (s : R) : 0 <= s -> 0 < s ^ 2 + b_coef * s + c_coef.
Proof. intros Hs; unfold b_coef, c_coef; nra. Qed.

Lemma sqrt_c_coef_sqr : sqrt c_coef * sqrt c_coef = c_coef.
Proof. apply sqrt_sqrt; unfold c_coef; lra. Qed.

Lemma sqrt_c_coef_bounds : 0.2828 < sqrt c_coef < 0.2829.
Proof.
  split.
  - rewrite <- (sqrt_square 0.2828) by lra.
    apply sqrt_lt_1_alt; unfold c_coef; lra.
  - rewrite <- (sqrt_square 0.2829) by lra.
    apply sqrt_lt_1_alt; unfold c_coef; lra.
Qed.

(** The characteristic at its stationary point [sqrt c]. *)
Lemma torque_ratio_at_peak :
  torque_ratio (sqrt c_coef) = a_coef / (2 * sqrt c_coef + b_coef).
Proof.
  pose proof sqrt_c_coef_bounds as Hr.
  pose proof sqrt_c_coef_sqr as Hsq.
  unfold torque_ratio.
  set (r := sqrt c_coef) in *.
  replace (r ^ 2 + b_coef * r + c_coef)
    with (r * (2 * r + b_coef)) by (rewrite <- Hsq; ring).
  unfold a_coef, b_coef in *. field. lra.
Qed.

(** [sqrt c] maximises the characteristic over all non-negative slips. *)
Lemma torque_ratio_max (s : R) :
  0 <= s -> torque_ratio s <= torque_ratio (sqrt c_coef).
Proof.
  intros Hs. rewrite torque_ratio_at_peak.
  pose proof sqrt_c_coef_bounds as Hr.
  pose proof sqrt_c_coef_sqr as Hsq.
  pose proof (torque_ratio_den_pos s Hs) as Hd.
  unfold torque_ratio.
  set (r := sqrt c_coef) in *.
  assert (Hm : 0 < 2 * r + b_coef) by (unfold b_coef; lra).
  apply (Rmult_le_reg_r ((s ^ 2 + b_coef * s + c_coef) * (2 * r + b_coef))).
  { apply Rmult_lt_0_compat; assumption. }
  replace (a_coef * s / (s ^ 2 + b_coef * s + c_coef) *
           ((s ^ 2 + b_coef * s + c_coef) * (2 * r + b_coef)))
    with (a_coef * (s * (2 * r + b_coef))) by (field; lra).
  replace (a_coef / (2 * r + b_coef) *
           ((s ^ 2 + b_coef * s + c_coef) * (2 * r + b_coef)))
    with (a_coef * (s ^ 2 + b_coef * s + c_coef)) by (field; lra).
  apply Rmult_le_compat_l; [unfold a_coef; lra |].
  rewrite <- Hsq.
  pose proof (pow2_ge_0 (s - r)) as Hsq2.
  replace ((s - r) ^ 2) with (s ^ 2 + r * r - 2 * s * r) in Hsq2 by ring.
  lra.
Qed.

Lemma torque_ratio_peak_value : 3.49 < torque_ratio (sqrt c_coef) < 3.5.
Proof.
  rewrite torque_ratio_at_peak.
  pose proof sqrt_c_coef_bounds as Hr.
  unfold a_coef, b_coef. set (r := sqrt c_coef) in *.
  assert (Hm : 0 < 2 * r + 0.15) by lra.
  split.
  - apply (Rmult_lt_reg_r (2 * r + 0.15)); [exact Hm |].
    replace (2.5 / (2 * r + 0.15) * (2 * r + 0.15)) with 2.5 by (field; lra).
    lra.
  - apply (Rmult_lt_reg_r (2 * r + 0.15)); [exact Hm |].
    replace (2.5 / (2 * r + 0.15) * (2 * r + 0.15)) with 2.5 by (field; lra).
    lra.
Qed.

(** C2.  The characteristic [(a*s)/(s^2 + b*s + c)] with [a = 2.5],
    [b = 0.15], [c = 0.08] is maximal over [0,1] at [s = sqrt 0.08], which
    lies between 0.2828 and 0.2829, and it is non-zero at [s = 1]; but
    the maximum lies between 3.49 and 3.5 (already at [s = 0.28] the
    value is [0.7 / 0.2004 > 3.49]), not near the 2.5 that the scripts
    document for [a] as the peak torque multiplier. *)
Theorem C2_torque_ratio_peak_is_about_3_49 :
  torque_ratio 0.28 = 0.7 / 0.2004 /\
  3.49 < torque_ratio 0.28 /\
  (forall s, 0 <= s <= 1 -> torque_ratio s <= torque_ratio (sqrt c_coef)) /\
  0.2828 < sqrt c_coef < 0.2829 /\
  3.49 < torque_ratio (sqrt c_coef) < 3.5 /\
  torque_ratio 1 = 2.5 / 1.23 /\
  torque_ratio 1 <> 0.
Proof.
  assert (H028 : torque_ratio 0.28 = 0.7 / 0.2004).
  { unfold torque_ratio, a_coef, b_coef, c_coef.
    replace (0.28 ^ 2 + 0.15 * 0.28 + 0.08) with 0.2004 by lra.
    replace (2.5 * 0.28) with 0.7 by lra. reflexivity. }
  assert (H1 : torque_ratio 1 = 2.5 / 1.23).
  { unfold torque_ratio, a_coef, b_coef, c_coef.
    replace (1 ^ 2 + 0.15 * 1 + 0.08) with 1.23 by lra.
    replace (2.5 * 1) with 2.5 by lra. reflexivity. }
  split; [exact H028 |].
  split; [rewrite H028; lra |].
  split; [intros s [Hs _]; now apply torque_ratio_max |].
  split; [exact sqrt_c_coef_bounds |].
  split; [exact torque_ratio_peak_value |].
  split; [exact H1 | rewrite H1; lra].
Qed.

(** ** Derived motor constants *)

Lemma default_config_well_formed : well_formed default_config.
Proof. constructor; simpl; lra. Qed.

Lemma stall_config_well_formed : well_formed stall_config.
Proof. constructor; simpl; lra. Qed.

Lemma sqrt3_pos : 0 < sqrt 3.
Proof. apply sqrt_lt_R0; lra. Qed.

Lemma sync_speed_rad_at_pos (cfg : Config) (freq : R) :
  well_formed cfg -> 0 < freq -> 0 < sync_speed_rad_at cfg freq.
Proof.
  intros W Hf. unfold sync_speed_rad_at.
  pose proof PI_RGT_0. pose proof (wf_poles cfg W).
  apply Rmult_lt_0_compat; [| lra].
  apply Rdiv_lt_0_compat; [lra | assumption].
Qed.

Lemma sync_speed_rad_at_base (cfg : Config) :
  sync_speed_rad_at cfg (BASE_FREQ cfg) = SYNC_SPEED_RAD cfg.
Proof. reflexivity. Qed.

Lemma SYNC_SPEED_RAD_pos (cfg : Config) :
  well_formed cfg -> 0 < SYNC_SPEED_RAD cfg.
Proof.
  intros W. rewrite <- sync_speed_rad_at_base.
  apply sync_speed_rad_at_pos; [exact W | exact (wf_base_freq cfg W)].
Qed.

Lemma RATED_TORQUE_pos (cfg : Config) :
  well_formed cfg -> 0 < RATED_TORQUE cfg.
Proof.
  intros W. unfold RATED_TORQUE, POWER_KW.
  pose proof (SYNC_SPEED_RAD_pos cfg W). pose proof (wf_power cfg W).
  apply Rdiv_lt_0_compat; nra.
Qed.

Lemma FLA_pos (cfg : Config) : well_formed cfg -> 0 < FLA cfg.
Proof.
  intros W. unfold FLA, POWER_KW.
  pose proof sqrt3_pos. pose proof (wf_power cfg W).
  pose proof (wf_voltage cfg W). pose proof (wf_power_factor cfg W).
  pose proof (wf_efficiency cfg W).
  apply Rdiv_lt_0_compat; [nra |].
  repeat apply Rmult_lt_0_compat; assumption.
Qed.

Lemma LOAD_TORQUE_nonneg (cfg : Config) :
  well_formed cfg -> 0 <= LOAD_TORQUE cfg.
Proof.
  intros W. unfold LOAD_TORQUE.
  pose proof (RATED_TORQUE_pos cfg W). pose proof (wf_load_factor cfg W).
  nra.
Qed.

Lemma speed_ratio_of_eq (cfg : Config) (omega_rad : R) :
  well_formed cfg ->
  speed_ratio_of cfg omega_rad = omega_rad / SYNC_SPEED_RAD cfg.
Proof.
  intros W. unfold speed_ratio_of.
  now rewrite (Rltb_true _ _ (SYNC_SPEED_RAD_pos cfg W)).
Qed.

(** ** The v3 current model *)

Lemma sqrt_sum_sqr_ge (x m : R) : 0 <= m -> m <= sqrt (x ^ 2 + m ^ 2).
Proof.
  intros Hm.
  rewrite <- (sqrt_pow2 m Hm) at 1.
  apply sqrt_le_1_alt. nra.
Qed.

Lemma V3_freq_func_zero (cfg : Config) :
  well_formed cfg -> V3.freq_func cfg 0 = 0.
Proof.
  intros W. unfold V3.freq_func.
  pose proof (wf_ramp_time cfg W).
  rewrite Rleb_true by lra. unfold Rdiv. ring.
Qed.

Lemma V3_inactive_row (cfg : Config) (t omega_rad : R) :
  V3.freq_func cfg t < 0.5 ->
  V3.metrics_row cfg t omega_rad =
  V3.mkRow 100 0 0 0 0 0 0.
Proof.
  intros H. unfold V3.metrics_row.
  now rewrite Rleb_false by exact H.
Qed.

Lemma linspace_head (a b : R) (n : nat) :
  hd_error (linspace a b (S n)) = Some a.
Proof.
  unfold linspace. simpl. f_equal. ring.
Qed.

Lemma V3_active_row_current_floor (cfg : Config) (t omega_rad : R) :
  well_formed cfg ->
  0.5 <= V3.freq_func cfg t ->
  0.3 * FLA cfg <= V3.current (V3.metrics_row cfg t omega_rad).
Proof.
  intros W Hf. pose proof (FLA_pos cfg W) as HF.
  unfold V3.metrics_row. rewrite (Rleb_true _ _ Hf). simpl.
  replace (0.3 * FLA cfg) with (FLA cfg * 0.3) by ring.
  apply sqrt_sum_sqr_ge. lra.
Qed.

(** C3, as amended.  At every sample whose set-point frequency is at
    least 0.5 Hz the v3 metrics report
    [current = sqrt(torqueComponent^2 + magnetizingComponent^2)] with
    [torqueComponent = FLA*(torque/ratedTorque)] and
    [magnetizingComponent = 0.3*FLA], hence a current of at least
    [0.3*FLA]; at every sample whose frequency is below 0.5 Hz the
    reported current is 0. *)
Theorem C3_current_model_above_activation_threshold
    (cfg : Config) (t omega_rad : R) :
  well_formed cfg ->
  (0.5 <= V3.freq_func cfg t ->
     V3.current (V3.metrics_row cfg t omega_rad) =
       sqrt ((FLA cfg *
              (V3.torque (V3.metrics_row cfg t omega_rad) / RATED_TORQUE cfg)) ^ 2
             + (FLA cfg * 0.3) ^ 2) /\
     0.3 * FLA cfg <= V3.current (V3.metrics_row cfg t omega_rad)) /\
  (V3.freq_func cfg t < 0.5 ->
     V3.current (V3.metrics_row cfg t omega_rad) = 0).
Proof.
  intros W. pose proof (FLA_pos cfg W) as HF. split.
  - intros Hf. unfold V3.metrics_row.
    rewrite (Rleb_true _ _ Hf). simpl.
    split; [reflexivity |].
    replace (0.3 * FLA cfg) with (FLA cfg * 0.3) by ring.
    apply sqrt_sum_sqr_ge. lra.
  - intros Hf. now rewrite (V3_inactive_row cfg t omega_rad Hf).
Qed.

Lemma C3_current_model_above_activation_threshold_witness :
  (0.5 <= V3.freq_func default_config 0 ->
     V3.current (V3.metrics_row default_config 0 0) =
       sqrt ((FLA default_config *
              (V3.torque (V3.metrics_row default_config 0 0)
               / RATED_TORQUE default_config)) ^ 2
             + (FLA default_config * 0.3) ^ 2) /\
     0.3 * FLA default_config <= V3.current (V3.metrics_row default_config 0 0)) /\
  (V3.freq_func default_config 0 < 0.5 ->
     V3.current (V3.metrics_row default_config 0 0) = 0).
Proof.
  apply (C3_current_model_above_activation_threshold default_config 0 0).
  constructor; simpl; lra.
Defined.

(** C3, the claim as stated fails: the first sample of the v3 time grid
    is [t = 0], where the set-point frequency is 0 Hz, and the current
    reported there is 0, which is below [0.3*FLA]. *)
Lemma C3_first_sample_current_below_magnetizing_floor :
  hd_error (V3.time default_config) = Some 0 /\
  V3.current (V3.metrics_row default_config 0 0) = 0 /\
  ~ (0.3 * FLA default_config <= V3.current (V3.metrics_row default_config 0 0)).
Proof.
  pose proof (FLA_pos _ default_config_well_formed) as HF.
  assert (Hf : V3.freq_func default_config 0 < 0.5).
  { rewrite (V3_freq_func_zero _ default_config_well_formed). lra. }
  split.
  - unfold V3.time. change (TIME_POINTS default_config) with (S 999).
    apply linspace_head.
  - rewrite (V3_inactive_row default_config 0 0 Hf). simpl. split; [reflexivity | lra].
Qed.

(** ** Samples below the 0.5 Hz activation threshold *)

Lemma V2_inactive_row (cfg : Config) (t omega_rad : R) :
  V2.freq_func cfg t < 0.5 ->
  V2.metrics_row cfg t omega_rad = V2.mkRow 100 0 0.
Proof.
  intros H. unfold V2.metrics_row.
  now rewrite Rleb_false by exact H.
Qed.

Lemma V4_inactive_row (cfg : Config) (t omega_rad ramp_time : R) :
  V4.vfd_freq_func cfg t ramp_time < 0.5 ->
  V4.metrics_row cfg t omega_rad "vfd" ramp_time = V4.zero_row.
Proof.
  intros H. unfold V4.metrics_row. simpl.
  now rewrite Rltb_true by exact H.
Qed.

(** C4.  For a sample of a frequency-controlled run whose set-point
    frequency is below 0.5 Hz, the v2 and v3 post-processing loops report
    slip 100 % and zero torque, current and (v3) load torque, as the claim
    says; the v4 [calculate_metrics] skips the sample with [continue], so
    its torque, current and load torque are zero as well but its slip
    entry keeps the initial 0 instead of 100. *)
Theorem C4_v4_reports_zero_slip_below_activation_threshold
    (cfg : Config) (t omega_rad : R) :
  well_formed cfg ->
  V3.freq_func cfg t < 0.5 ->
  (V3.slip_pct (V3.metrics_row cfg t omega_rad) = 100 /\
   V3.torque (V3.metrics_row cfg t omega_rad) = 0 /\
   V3.current (V3.metrics_row cfg t omega_rad) = 0 /\
   V3.load_torque (V3.metrics_row cfg t omega_rad) = 0) /\
  (V2.slip_pct (V2.metrics_row cfg t omega_rad) = 100 /\
   V2.torque (V2.metrics_row cfg t omega_rad) = 0 /\
   V2.current (V2.metrics_row cfg t omega_rad) = 0) /\
  (V4.slip (V4.metrics_row cfg t omega_rad "vfd" (RAMP_TIME cfg)) = 0 /\
   V4.slip (V4.metrics_row cfg t omega_rad "vfd" (RAMP_TIME cfg)) <> 100 /\
   V4.torque (V4.metrics_row cfg t omega_rad "vfd" (RAMP_TIME cfg)) = 0 /\
   V4.current (V4.metrics_row cfg t omega_rad "vfd" (RAMP_TIME cfg)) = 0 /\
   V4.load_torque_array
     (V4.metrics_row cfg t omega_rad "vfd" (RAMP_TIME cfg)) = 0).
Proof.
  intros _ H.
  rewrite (V3_inactive_row cfg t omega_rad H).
  rewrite (V2_inactive_row cfg t omega_rad H).
  rewrite (V4_inactive_row cfg t omega_rad (RAMP_TIME cfg) H).
  simpl. repeat split; try reflexivity. lra.
Qed.

Lemma C4_v4_reports_zero_slip_below_activation_threshold_witness :
  V4.slip (V4.metrics_row default_config 0 0 "vfd" 30) = 0 /\
  V3.slip_pct (V3.metrics_row default_config 0 0) = 100.
Proof.
  assert (Hf : V3.freq_func default_config 0 < 0.5).
  { unfold V3.freq_func; simpl. rewrite Rleb_true by lra. lra. }
  assert (W : well_formed default_config) by (constructor; simpl; lra).
  destruct (C4_v4_reports_zero_slip_below_activation_threshold
              default_config 0 0 W Hf) as [[H3 _] [_ [H4 _]]].
  split; [exact H4 | exact H3].
Defined.

(** ** Direct-on-line approximation *)

Lemma dol_row_start (cfg : Config) :
  V3.dol_row cfg 0 =
  V3.mkDolRow 0 (FLA cfg * 6.5) (RATED_TORQUE cfg * 2.5).
Proof. unfold V3.dol_row. now rewrite Reqb_true. Qed.

Lemma dol_row_running (cfg : Config) (t : R) :
  0 < t ->
  V3.dol_row cfg t =
  V3.mkDolRow
    (SYNC_SPEED_RPM cfg * 0.97 * (1 - exp (- t / 2)))
    (FLA cfg * (1 + 5.5 * (1 - (1 - exp (- t / 2)) * 0.97)))
    (RATED_TORQUE cfg * (2.5 * (1 - (1 - exp (- t / 2)) * 0.97) + 1)).
Proof.
  intros Ht. unfold V3.dol_row.
  rewrite Reqb_false by lra.
  replace 2.0 with 2 by lra. replace 1.0 with 1 by lra. reflexivity.
Qed.

Lemma exp_neg_half_lower (t : R) : 0 < t -> 1 - t / 2 < exp (- t / 2).
Proof.
  intros Ht.
  assert (Hne : - t / 2 <> 0) by lra.
  pose proof (exp_ineq1 (- t / 2) Hne). lra.
Qed.

Lemma exp_neg_half_upper (t : R) : 0 < t -> exp (- t / 2) < 1.
Proof.
  intros Ht. rewrite <- exp_0. apply exp_increasing. lra.
Qed.

(** Just after closing the contactor the DOL torque formula is above
    three times rated torque, and the DOL current is below its inrush
    value. *)
Lemma dol_torque_near_start (cfg : Config) (t : R) :
  0 < RATED_TORQUE cfg -> 0 < t <= 0.2 ->
  3 * RATED_TORQUE cfg < V3.dol_torque (V3.dol_row cfg t).
Proof.
  intros HR [Ht0 Ht1].
  rewrite (dol_row_running cfg t Ht0). simpl.
  pose proof (exp_neg_half_lower t Ht0) as He.
  assert (Hs : 0.9 < 1 - (1 - exp (- t / 2)) * 0.97) by lra.
  nra.
Qed.

(** For [t > 0] the DOL torque formula lies below, and within
    [1.2125 * ratedTorque * t] of, [3.5 * ratedTorque]. *)
Lemma dol_torque_limit_from_above (cfg : Config) (t : R) :
  0 < RATED_TORQUE cfg -> 0 < t ->
  3.5 * RATED_TORQUE cfg - 1.2125 * RATED_TORQUE cfg * t
    < V3.dol_torque (V3.dol_row cfg t)
    < 3.5 * RATED_TORQUE cfg.
Proof.
  intros HR Ht.
  rewrite (dol_row_running cfg t Ht). simpl.
  pose proof (exp_neg_half_lower t Ht) as Hlo.
  pose proof (exp_neg_half_upper t Ht) as Hhi.
  set (E := exp (- t / 2)) in *.
  split; nra.
Qed.

(** C5.  At [t = 0] the DOL approximation reports speed 0, current
    [6.5*FLA] and torque [2.5*ratedTorque]; for [t > 0] the speed is
    [0.97*syncSpeed*(1 - exp(-t/2))], the current is
    [FLA*(1 + 5.5*slipRatio)], which decays from [6.5*FLA] to [FLA], and
    the torque is [ratedTorque*(2.5*slipRatio + 1)].  This torque formula
    starts from [3.5*ratedTorque], not from the locked-rotor value
    [2.5*ratedTorque] stored at [t = 0]: for [t > 0] it stays within
    [1.2125*ratedTorque*t] below [3.5*ratedTorque], and at the first
    later sample of the grid, [t = 5/499], the reported torque exceeds
    [3*ratedTorque]. *)
Theorem C5_dol_torque_jumps_above_locked_rotor_value :
  V3.dol_row default_config 0 =
    V3.mkDolRow 0 (FLA default_config * 6.5) (RATED_TORQUE default_config * 2.5) /\
  (forall t, 0 < t ->
     V3.dol_row default_config t =
     V3.mkDolRow
       (SYNC_SPEED_RPM default_config * 0.97 * (1 - exp (- t / 2)))
       (FLA default_config * (1 + 5.5 * (1 - (1 - exp (- t / 2)) * 0.97)))
       (RATED_TORQUE default_config
        * (2.5 * (1 - (1 - exp (- t / 2)) * 0.97) + 1))) /\
  0 < RATED_TORQUE default_config /\
  V3.dol_torque (V3.dol_row default_config 0) = 2.5 * RATED_TORQUE default_config /\
  3 * RATED_TORQUE default_config
    < V3.dol_torque (V3.dol_row default_config (5 / 499)) /\
  (forall t, 0 < t ->
     3.5 * RATED_TORQUE default_config
     - 1.2125 * RATED_TORQUE default_config * t
       < V3.dol_torque (V3.dol_row default_config t)
       < 3.5 * RATED_TORQUE default_config) /\
  V3.dol_current (V3.dol_row default_config (5 / 499))
    < 6.5 * FLA default_config.
Proof.
  pose proof (RATED_TORQUE_pos _ default_config_well_formed) as HR.
  pose proof (FLA_pos _ default_config_well_formed) as HF.
  split; [apply dol_row_start |].
  split; [intros t Ht; now apply dol_row_running |].
  split; [exact HR |].
  split; [rewrite dol_row_start; simpl; ring |].
  split; [apply dol_torque_near_start; [exact HR | lra] |].
  split; [intros t Ht; now apply dol_torque_limit_from_above |].
  rewrite dol_row_running by lra. simpl.
  assert (Ht : 0 < 5 / 499) by lra.
  pose proof (exp_neg_half_upper _ Ht) as He.
  nra.
Qed.

(** ** The degenerate-frequency guard of [motor_dynamics] *)

Lemma V3_motor_dynamics_degenerate
    (cfg : Config) (omega_rad t : R) (freq_func : R -> R)
    (base_load_torque : R) (load_type : string) :
  freq_func t < 1 ->
  sync_speed_rad_at cfg (freq_func t) < 0.1 ->
  V3.motor_dynamics cfg omega_rad t freq_func base_load_torque load_type = 0.
Proof.
  intros Hf Hs. unfold V3.motor_dynamics.
  replace 1.0 with 1 by lra.
  now rewrite (Rltb_true _ _ Hf), (Rltb_true _ _ Hs).
Qed.

Lemma V2_motor_dynamics_degenerate
    (cfg : Config) (omega_rad t : R) (freq_func : R -> R) (load_torque : R) :
  freq_func t < 1 ->
  sync_speed_rad_at cfg (freq_func t) < 0.1 ->
  V2.motor_dynamics cfg omega_rad t freq_func load_torque = 0.
Proof.
  intros Hf Hs. unfold V2.motor_dynamics.
  replace 1.0 with 1 by lra.
  now rewrite (Rltb_true _ _ Hf), (Rltb_true _ _ Hs).
Qed.

(** C6, as amended.  Whenever the set-point frequency is below 1 Hz and
    the synchronous speed at that frequency is below 0.1 rad/s, the v3
    and v2 derivative functions return 0 unconditionally: neither the
    load torque nor the damping term enters. *)
Theorem C6_degenerate_sync_speed_gives_zero_derivative
    (cfg : Config) (omega_rad t : R) (freq_func : R -> R)
    (base_load_torque : R) (load_type : string) :
  well_formed cfg ->
  freq_func t < 1 ->
  sync_speed_rad_at cfg (freq_func t) < 0.1 ->
  V3.motor_dynamics cfg omega_rad t freq_func base_load_torque load_type = 0 /\
  V2.motor_dynamics cfg omega_rad t freq_func base_load_torque = 0.
Proof.
  intros _ Hf Hs. split.
  - now apply V3_motor_dynamics_degenerate.
  - now apply V2_motor_dynamics_degenerate.
Qed.

Lemma sync_speed_rad_at_zero (cfg : Config) : sync_speed_rad_at cfg 0 = 0.
Proof. unfold sync_speed_rad_at, Rdiv. ring. Qed.

Lemma C6_degenerate_sync_speed_gives_zero_derivative_witness :
  V3.motor_dynamics default_config 0 0 (V3.freq_func default_config)
    (LOAD_TORQUE default_config) "constant_torque" = 0 /\
  V2.motor_dynamics default_config 0 0 (V3.freq_func default_config)
    (LOAD_TORQUE default_config) = 0.
Proof.
  apply (C6_degenerate_sync_speed_gives_zero_derivative default_config 0 0
           (V3.freq_func default_config) (LOAD_TORQUE default_config)
           "constant_torque").
  - constructor; simpl; lra.
  - rewrite (V3_freq_func_zero _ default_config_well_formed). lra.
  - rewrite (V3_freq_func_zero _ default_config_well_formed).
    rewrite sync_speed_rad_at_zero. lra.
Defined.

(** C6, the claim as stated fails: at [t = 0] and [omega = 0] of the v3
    run the synchronous speed is 0, the derivative function returns 0,
    and [(0 - loadTorque - damping*omega)/inertia] is strictly negative
    because the constant-torque load has a 30 % breakaway torque. *)
Lemma C6_derivative_is_zero_not_load_driven :
  sync_speed_rad_at default_config (V3.freq_func default_config 0) < 0.1 /\
  vfd_dynamics default_config 0 0 = 0 /\
  (0 - get_load_torque (speed_ratio_of default_config 0)
         (LOAD_TORQUE default_config) (LOAD_TYPE default_config)
     - DAMPING default_config * 0) / INERTIA default_config < 0 /\
  vfd_dynamics default_config 0 0 <>
  (0 - get_load_torque (speed_ratio_of default_config 0)
         (LOAD_TORQUE default_config) (LOAD_TYPE default_config)
     - DAMPING default_config * 0) / INERTIA default_config.
Proof.
  pose proof default_config_well_formed as W.
  pose proof (RATED_TORQUE_pos _ W) as HR.
  assert (Hs : sync_speed_rad_at default_config (V3.freq_func default_config 0) < 0.1).
  { rewrite (V3_freq_func_zero _ W), sync_speed_rad_at_zero. lra. }
  assert (Hd : vfd_dynamics default_config 0 0 = 0).
  { unfold vfd_dynamics.
    apply V3_motor_dynamics_degenerate; [| exact Hs].
    rewrite (V3_freq_func_zero _ W). lra. }
  assert (Hl : get_load_torque (speed_ratio_of default_config 0)
                 (LOAD_TORQUE default_config) (LOAD_TYPE default_config)
               = LOAD_TORQUE default_config * 0.3).
  { rewrite (speed_ratio_of_eq _ _ W). unfold get_load_torque. simpl.
    replace (0 / SYNC_SPEED_RAD default_config) with 0 by (unfold Rdiv; ring).
    replace 1.0 with 1 by lra.
    rewrite (clamp01_low 0) by lra. ring. }
  assert (Hneg : (0 - get_load_torque (speed_ratio_of default_config 0)
         (LOAD_TORQUE default_config) (LOAD_TYPE default_config)
     - DAMPING default_config * 0) / INERTIA default_config < 0).
  { rewrite Hl. unfold LOAD_TORQUE. simpl. lra. }
  split; [exact Hs |]. split; [exact Hd |]. split; [exact Hneg |].
  rewrite Hd. lra.
Qed.

(** ** Soft starter at full initial voltage *)




(** ** Input power and start-up energy in v3 *)

Lemma V3_active_row_power_input (cfg : Config) (t omega_rad : R) :
  0.5 <= V3.freq_func cfg t ->
  V3.power_input (V3.metrics_row cfg t omega_rad) =
  line_voltage_power cfg (V3.metrics_row cfg t omega_rad).
Proof.
  intros Hf. unfold line_voltage_power, V3.metrics_row.
  rewrite (Rleb_true _ _ Hf). reflexivity.
Qed.

Lemma V3_row_power_input (cfg : Config) (t omega_rad : R) :
  V3.power_input (V3.metrics_row cfg t omega_rad) =
  line_voltage_power cfg (V3.metrics_row cfg t omega_rad).
Proof.
  destruct (Rle_dec 0.5 (V3.freq_func cfg t)) as [Hf | Hf].
  - now apply V3_active_row_power_input.
  - rewrite V3_inactive_row by lra.
    unfold line_voltage_power; simpl. unfold Rdiv; ring.
Qed.

Lemma V3_voltage_func_below_line (cfg : Config) (freq : R) :
  well_formed cfg -> V_BOOST cfg <= 1 ->
  0 < freq < BASE_FREQ cfg ->
  V3.voltage_func cfg freq < VOLTAGE cfg.
Proof.
  intros W Hb [Hf0 Hf1].
  pose proof (wf_voltage cfg W) as HV. pose proof (wf_base_freq cfg W) as HB.
  pose proof (wf_boost cfg W) as Hb0.
  unfold V3.voltage_func.
  assert (Hx : 0 < freq / BASE_FREQ cfg < 1).
  { split; [apply Rdiv_lt_0_compat; lra |].
    apply (Rmult_lt_reg_r (BASE_FREQ cfg)); [exact HB |].
    replace (freq / BASE_FREQ cfg * BASE_FREQ cfg) with freq by (field; lra).
    lra. }
  replace (BASE_FREQ cfg * 0.1) with (BASE_FREQ cfg / 10) in * by lra.
  replace (freq / (BASE_FREQ cfg / 10)) with (10 * (freq / BASE_FREQ cfg))
    by (field; lra).
  set (x := freq / BASE_FREQ cfg) in *.
  destruct (Rltb_spec freq (BASE_FREQ cfg / 10)) as [[Hlow ->] | [Hhigh ->]].
  - assert (Hx10 : 10 * x < 1).
    { apply (Rmult_lt_reg_r (BASE_FREQ cfg)); [exact HB |].
      unfold x.
      replace (10 * (freq / BASE_FREQ cfg) * BASE_FREQ cfg) with (10 * freq)
        by (field; lra).
      lra. }
    assert (Hy : V_BOOST cfg * (1 - 10 * x) <= 1 - 10 * x) by nra.
    nra.
  - nra.
Qed.

Lemma V3_freq_func_mid_ramp : V3.freq_func default_config 15 = 30.
Proof. unfold V3.freq_func; simpl. rewrite Rleb_true by lra. lra. Qed.

(** ** Average efficiency *)

Lemma filter_map_swap {A B : Type} (f : A -> B) (p : B -> bool) (l : list A) :
  filter p (map f l) = map f (filter (fun x => p (f x)) l).
Proof.
  induction l as [| x l IH]; simpl; [reflexivity |].
  destruct (p (f x)); simpl; now rewrite IH.
Qed.

Lemma V3_active_row_power_input_pos (cfg : Config) (t omega_rad : R) :
  well_formed cfg ->
  0.5 <= V3.freq_func cfg t ->
  0 < V3.power_input (V3.metrics_row cfg t omega_rad).
Proof.
  intros W Hf.
  rewrite (V3_active_row_power_input cfg t omega_rad Hf).
  pose proof (V3_active_row_current_floor cfg t omega_rad W Hf) as Hi.
  pose proof (FLA_pos cfg W). pose proof sqrt3_pos.
  pose proof (wf_power_factor cfg W). pose proof (wf_voltage cfg W).
  unfold line_voltage_power.
  apply Rdiv_lt_0_compat; [| lra].
  repeat apply Rmult_lt_0_compat; lra.
Qed.

Lemma V3_active_row_efficiency (cfg : Config) (t omega_rad : R) :
  well_formed cfg ->
  0.5 <= V3.freq_func cfg t ->
  V3.efficiency (V3.metrics_row cfg t omega_rad) =
  V3.power_output (V3.metrics_row cfg t omega_rad)
  / V3.power_input (V3.metrics_row cfg t omega_rad) * 100.
Proof.
  intros W Hf.
  pose proof (V3_active_row_power_input_pos cfg t omega_rad W Hf) as Hp.
  revert Hp. unfold V3.metrics_row. rewrite (Rleb_true _ _ Hf). simpl.
  intros Hp. now rewrite (Rltb_true _ _ Hp).
Qed.

(** A sample has strictly positive efficiency exactly when both its
    input power and its output power are strictly positive. *)
Lemma V3_row_efficiency_selected (cfg : Config) (t omega_rad : R) :
  well_formed cfg ->
  Rltb 0 (V3.efficiency (V3.metrics_row cfg t omega_rad)) =
  Rltb 0 (V3.power_input (V3.metrics_row cfg t omega_rad)) &&
  Rltb 0 (V3.power_output (V3.metrics_row cfg t omega_rad)).
Proof.
  intros W.
  destruct (Rle_dec 0.5 (V3.freq_func cfg t)) as [Hf | Hf].
  - pose proof (V3_active_row_power_input_pos cfg t omega_rad W Hf) as Hp.
    rewrite (V3_active_row_efficiency cfg t omega_rad W Hf).
    rewrite (Rltb_true _ _ Hp). simpl.
    set (p_in := V3.power_input _) in *. set (p_out := V3.power_output _).
    assert (Hinv : 0 < / p_in) by now apply Rinv_0_lt_compat.
    destruct (Rltb_spec 0 p_out) as [[Ho ->] | [Ho ->]].
    + apply Rltb_true. unfold Rdiv. nra.
    + apply Rltb_false. unfold Rdiv. nra.
  - rewrite V3_inactive_row by lra. simpl.
    now rewrite Rltb_false by lra.
Qed.

(** C8, as amended.  The average-efficiency summary is the mean of the
    per-sample efficiency over the samples whose efficiency is strictly
    positive, that is, over the samples whose input power and output power
    are both strictly positive; a sample with positive input power and
    non-positive output power is left out of the average. *)
Theorem C8_average_efficiency_over_positive_efficiency_samples
    (cfg : Config) (time omega_traj : list R) :
  well_formed cfg ->
  V3.avg_efficiency cfg time omega_traj =
  np_mean
    (map V3.efficiency
       (filter (fun row => Rltb 0 (V3.power_input row) &&
                           Rltb 0 (V3.power_output row))
          (V3.metrics cfg time omega_traj))).
Proof.
  intros W.
  unfold V3.avg_efficiency, V3.efficiency_array.
  rewrite filter_map_swap. do 2 f_equal.
  apply filter_ext_in. intros row Hin.
  unfold V3.metrics in Hin. apply in_map_iff in Hin.
  destruct Hin as [[t w] [<- _]]. simpl.
  now apply V3_row_efficiency_selected.
Qed.

Lemma C8_average_efficiency_over_positive_efficiency_samples_witness :
  V3.avg_efficiency default_config [0; 15; 30] [0; 0; 100] =
  np_mean
    (map V3.efficiency
       (filter (fun row => Rltb 0 (V3.power_input row) &&
                           Rltb 0 (V3.power_output row))
          (V3.metrics default_config [0; 15; 30] [0; 0; 100]))).
Proof.
  apply (C8_average_efficiency_over_positive_efficiency_samples
           default_config [0; 15; 30] [0; 0; 100]).
  constructor; simpl; lra.
Defined.

Lemma three_point_config_well_formed : well_formed three_point_config.
Proof. constructor; simpl; lra. Qed.

Lemma three_point_time : V3.time three_point_config = [0; 15; 30].
Proof.
  unfold V3.time, linspace. simpl.
  repeat (f_equal; try lra).
Qed.

(** C8, the claim as stated fails.  On the three-point grid
    [t = 0, 15, 30] with rotor speeds [0, 0, 100] rad/s, the middle
    sample draws positive input power at zero efficiency (the rotor is at
    standstill): the script averages the last sample alone, while the
    mean over the samples with positive input power also counts the
    middle one. *)
Lemma C8_standstill_sample_dropped_from_average :
  0 < V3.power_input (V3.metrics_row three_point_config 15 0) /\
  V3.efficiency (V3.metrics_row three_point_config 15 0) = 0 /\
  V3.avg_efficiency three_point_config (V3.time three_point_config) [0; 0; 100]
  <> avg_efficiency_spec three_point_config (V3.time three_point_config)
       [0; 0; 100].
Proof.
  pose proof three_point_config_well_formed as W.
  assert (Hf0 : V3.freq_func three_point_config 0 < 0.5).
  { rewrite (V3_freq_func_zero _ W). lra. }
  assert (Hf1 : 0.5 <= V3.freq_func three_point_config 15).
  { unfold V3.freq_func; simpl. rewrite Rleb_true by lra. lra. }
  assert (Hf2 : 0.5 <= V3.freq_func three_point_config 30).
  { unfold V3.freq_func; simpl. rewrite Rleb_true by lra. lra. }
  pose proof (V3_active_row_power_input_pos _ 15 0 W Hf1) as Hp1.
  pose proof (V3_active_row_power_input_pos _ 30 100 W Hf2) as Hp2.
  assert (He1 : V3.efficiency (V3.metrics_row three_point_config 15 0) = 0).
  { rewrite (V3_active_row_efficiency _ 15 0 W Hf1).
    replace (V3.power_output (V3.metrics_row three_point_config 15 0)) with 0.
    - unfold Rdiv; ring.
    - unfold V3.metrics_row. rewrite (Rleb_true _ _ Hf1). simpl.
      unfold Rdiv; ring. }
  assert (He2 : 0 < V3.efficiency (V3.metrics_row three_point_config 30 100)).
  { assert (Ho : 0 < V3.power_output (V3.metrics_row three_point_config 30 100)).
    { unfold V3.metrics_row. rewrite (Rleb_true _ _ Hf2). simpl.
      pose proof (RATED_TORQUE_pos _ W) as HR.
      pose proof (clamp01_bounds (speed_ratio_of three_point_config 100)) as Hc.
      unfold get_load_torque. simpl.
      replace 1.0 with 1 by lra.
      set (q := Rmax 0 (Rmin (speed_ratio_of three_point_config 100) 1)) in *.
      unfold LOAD_TORQUE. simpl.
      set (R0 := RATED_TORQUE three_point_config) in *.
      nra. }
    apply (Rltb_true 0) in Ho. apply (Rltb_true 0) in Hp2.
    pose proof (V3_row_efficiency_selected three_point_config 30 100 W) as Hs.
    rewrite Ho, Hp2 in Hs. simpl in Hs.
    destruct (Rltb_spec 0 (V3.efficiency (V3.metrics_row three_point_config 30 100)))
      as [[Hlt _] | [_ Hfalse]]; [exact Hlt | congruence]. }
  split; [exact Hp1 |]. split; [exact He1 |].
  rewrite three_point_time.
  unfold V3.avg_efficiency, avg_efficiency_spec, V3.efficiency_array, V3.metrics.
  cbn [combine map fst snd].
  rewrite (V3_inactive_row three_point_config 0 0 Hf0).
  set (r1 := V3.metrics_row three_point_config 15 0) in *.
  set (r2 := V3.metrics_row three_point_config 30 100) in *.
  cbn [filter V3.efficiency V3.power_input].
  rewrite He1.
  rewrite (Rltb_false 0 0) by lra.
  rewrite (Rltb_true _ _ He2), (Rltb_true _ _ Hp1), (Rltb_true _ _ Hp2).
  cbn [map np_mean sum_list fold_right List.length INR].
  rewrite He1.
  intros Heq. injection Heq as Heq.
  lra.
Qed.

(** ** Differential inequalities *)

Lemma deriv_lim_continuity (f : R -> R) (x l : R) :
  derivable_pt_lim f x l -> continuity_pt f x.
Proof.
  intros H. apply derivable_continuous_pt. exists l. exact H.
Qed.

(** Mean value theorem for a function continuous on [[a,b]] and
    differentiable inside. *)
Lemma MVT_open (f df : R -> R) (a b : R) :
  a < b ->
  (forall t, a <= t <= b -> continuity_pt f t) ->
  (forall t, a < t < b -> derivable_pt_lim f t (df t)) ->
  exists c, a < c < b /\ f b - f a = df c * (b - a).
Proof.
  intros Hab Hc Hd.
  destruct (MVT f id a b
              (fun c P => exist _ (df c) (Hd c P))
              (fun c _ => derivable_pt_id c) Hab Hc)
    as [c [P Hc']].
  { intros c _. apply derivable_continuous_pt, derivable_pt_id. }
  exists c. split; [exact P |].
  rewrite derive_pt_id in Hc'. simpl in Hc'. unfold id in Hc'. lra.
Qed.

(** A continuous function whose derivative is non-positive at all but
    finitely many points of [(a,b)] does not increase from [a] to [b]. *)
Lemma piecewise_nonincreasing (f df : R -> R) (F : list R) :
  forall a b, a <= b ->
  (forall t, a <= t <= b -> continuity_pt f t) ->
  (forall t, a < t < b -> ~ In t F -> derivable_pt_lim f t (df t)) ->
  (forall t, a < t < b -> ~ In t F -> df t <= 0) ->
  f b <= f a.
Proof.
  induction F as [| p F IH]; intros a b Hab Hc Hd Hle.
  - destruct (Rle_lt_or_eq_dec a b Hab) as [Hlt | <-]; [| lra].
    destruct (MVT_open f df a b Hlt Hc) as [c [Hin Heq]].
    { intros t Ht. apply Hd; [exact Ht | intros []]. }
    pose proof (Hle c Hin ltac:(intros [])) as Hdc.
    assert (Hp : df c * (b - a) <= 0) by nra.
    lra.
  - destruct (Rlt_dec a p) as [Hap | Hap];
      [destruct (Rlt_dec p b) as [Hpb | Hpb] |].
    + assert (H1 : f p <= f a).
      { apply (IH a p); [lra | intros t Ht; apply Hc; lra | |].
        - intros t Ht Hn. apply Hd; [lra |].
          intros [E | E]; [lra | contradiction].
        - intros t Ht Hn. apply Hle; [lra |].
          intros [E | E]; [lra | contradiction]. }
      assert (H2 : f b <= f p).
      { apply (IH p b); [lra | intros t Ht; apply Hc; lra | |].
        - intros t Ht Hn. apply Hd; [lra |].
          intros [E | E]; [lra | contradiction].
        - intros t Ht Hn. apply Hle; [lra |].
          intros [E | E]; [lra | contradiction]. }
      lra.
    + apply (IH a b Hab Hc).
      * intros t Ht Hn. apply Hd; [exact Ht |].
        intros [E | E]; [lra | contradiction].
      * intros t Ht Hn. apply Hle; [exact Ht |].
        intros [E | E]; [lra | contradiction].
    + apply (IH a b Hab Hc).
      * intros t Ht Hn. apply Hd; [exact Ht |].
        intros [E | E]; [lra | contradiction].
      * intros t Ht Hn. apply Hle; [exact Ht |].
        intros [E | E]; [lra | contradiction].
Qed.

(** The strict form. *)
Lemma piecewise_decreasing (f df : R -> R) (F : list R) :
  forall a b, a < b ->
  (forall t, a <= t <= b -> continuity_pt f t) ->
  (forall t, a < t < b -> ~ In t F -> derivable_pt_lim f t (df t)) ->
  (forall t, a < t < b -> ~ In t F -> df t < 0) ->
  f b < f a.
Proof.
  induction F as [| p F IH]; intros a b Hab Hc Hd Hlt.
  - destruct (MVT_open f df a b Hab Hc) as [c [Hin Heq]].
    { intros t Ht. apply Hd; [exact Ht | intros []]. }
    pose proof (Hlt c Hin ltac:(intros [])) as Hdc.
    assert (Hp : df c * (b - a) < 0) by nra.
    lra.
  - destruct (Rlt_dec a p) as [Hap | Hap];
      [destruct (Rlt_dec p b) as [Hpb | Hpb] |].
    + assert (H1 : f p < f a).
      { apply (IH a p); [lra | intros t Ht; apply Hc; lra | |].
        - intros t Ht Hn. apply Hd; [lra |].
          intros [E | E]; [lra | contradiction].
        - intros t Ht Hn. apply Hlt; [lra |].
          intros [E | E]; [lra | contradiction]. }
      assert (H2 : f b < f p).
      { apply (IH p b); [lra | intros t Ht; apply Hc; lra | |].
        - intros t Ht Hn. apply Hd; [lra |].
          intros [E | E]; [lra | contradiction].
        - intros t Ht Hn. apply Hlt; [lra |].
          intros [E | E]; [lra | contradiction]. }
      lra.
    + apply (IH a b Hab Hc).
      * intros t Ht Hn. apply Hd; [exact Ht |].
        intros [E | E]; [lra | contradiction].
      * intros t Ht Hn. apply Hlt; [exact Ht |].
        intros [E | E]; [lra | contradiction].
    + apply (IH a b Hab Hc).
      * intros t Ht Hn. apply Hd; [exact Ht |].
        intros [E | E]; [lra | contradiction].
      * intros t Ht Hn. apply Hlt; [exact Ht |].
        intros [E | E]; [lra | contradiction].
Qed.

Lemma exp_lin_deriv (k t : R) :
  derivable_pt_lim (fun s => exp (k * s)) t (k * exp (k * t)).
Proof.
  assert (H1 : derivable_pt_lim (fun s => k * s) t (k * 1)).
  { apply (derivable_pt_lim_ext (mult_real_fct k id)).
    - intros z; reflexivity.
    - apply derivable_pt_lim_scal, derivable_pt_lim_id. }
  pose proof (derivable_pt_lim_comp (fun s => k * s) exp t (k * 1)
                (exp (k * t)) H1 (derivable_pt_lim_exp (k * t))) as H.
  replace (k * exp (k * t)) with (exp (k * t) * (k * 1)) by ring.
  exact H.
Qed.

Lemma weighted_deriv (k : R) (omega : R -> R) (t l : R) :
  derivable_pt_lim omega t l ->
  derivable_pt_lim (weighted k omega) t (exp (k * t) * (l + k * omega t)).
Proof.
  intros H.
  pose proof (derivable_pt_lim_mult _ _ _ _ _ (exp_lin_deriv k t) H) as Hm.
  replace (exp (k * t) * (l + k * omega t))
    with (k * exp (k * t) * omega t + exp (k * t) * l) by ring.
  exact Hm.
Qed.

Lemma weighted_continuity (k : R) (omega : R -> R) (t : R) :
  continuity_pt omega t -> continuity_pt (weighted k omega) t.
Proof.
  intros H.
  apply (continuity_pt_mult (fun s => exp (k * s)) omega t); [| exact H].
  apply (deriv_lim_continuity _ _ _ (exp_lin_deriv k t)).
Qed.

(** If [omega' + k * omega <= 0] at all but finitely many times of
    [(a,b)], the weighted trajectory does not increase from [a] to [b]. *)
Lemma weighted_nonincreasing (k : R) (omega domega : R -> R) (F : list R)
    (a b : R) :
  a <= b ->
  (forall t, a <= t <= b -> continuity_pt omega t) ->
  (forall t, a < t < b -> ~ In t F -> derivable_pt_lim omega t (domega t)) ->
  (forall t, a < t < b -> ~ In t F -> domega t + k * omega t <= 0) ->
  weighted k omega b <= weighted k omega a.
Proof.
  intros Hab Hc Hd Hle.
  apply (piecewise_nonincreasing (weighted k omega)
           (fun t => exp (k * t) * (domega t + k * omega t)) F a b Hab).
  - intros t Ht. apply weighted_continuity, Hc, Ht.
  - intros t Ht Hn. apply weighted_deriv, Hd; assumption.
  - intros t Ht Hn. pose proof (exp_pos (k * t)).
    pose proof (Hle t Ht Hn). nra.
Qed.

(** The strict form: if [omega' + k * omega < 0] at all but finitely many
    times, the weighted trajectory strictly decreases from [a] to [b]. *)
Lemma weighted_decreasing (k : R) (omega domega : R -> R) (F : list R)
    (a b : R) :
  a < b ->
  (forall t, a <= t <= b -> continuity_pt omega t) ->
  (forall t, a < t < b -> ~ In t F -> derivable_pt_lim omega t (domega t)) ->
  (forall t, a < t < b -> ~ In t F -> domega t + k * omega t < 0) ->
  weighted k omega b < weighted k omega a.
Proof.
  intros Hab Hc Hd Hlt.
  apply (piecewise_decreasing (weighted k omega)
           (fun t => exp (k * t) * (domega t + k * omega t)) F a b Hab).
  - intros t Ht. apply weighted_continuity, Hc, Ht.
  - intros t Ht Hn. apply weighted_deriv, Hd; assumption.
  - intros t Ht Hn. pose proof (exp_pos (k * t)).
    pose proof (Hlt t Ht Hn). nra.
Qed.

Lemma excess_sqr_increment (c x h : R) :
  Rabs (excess_sqr c (x + h) - excess_sqr c x - 2 * Rmax (x - c) 0 * h)
  <= h * h.
Proof.
  unfold excess_sqr, Rmax.
  destruct (Rle_dec (x + h - c) 0) as [H1 | H1];
    destruct (Rle_dec (x - c) 0) as [H2 | H2];
    apply Rabs_le; nra.
Qed.

Lemma excess_sqr_deriv (c x : R) :
  derivable_pt_lim (excess_sqr c) x (2 * Rmax (x - c) 0).
Proof.
  intros eps Heps. exists (mkposreal eps Heps). intros h Hh Hlt.
  simpl in Hlt.
  pose proof (excess_sqr_increment c x h) as HN.
  set (N := excess_sqr c (x + h) - excess_sqr c x - 2 * Rmax (x - c) 0 * h) in *.
  replace ((excess_sqr c (x + h) - excess_sqr c x) / h - 2 * Rmax (x - c) 0)
    with (N * / h) by (unfold N; field; exact Hh).
  rewrite Rabs_mult, Rabs_inv.
  assert (Hah : 0 < Rabs h) by (apply Rabs_pos_lt; exact Hh).
  assert (Hhh : h * h = Rabs h * Rabs h).
  { rewrite <- Rabs_mult. symmetry. apply Rabs_right. nra. }
  apply Rle_lt_trans with (Rabs h); [| exact Hlt].
  apply (Rmult_le_reg_r (Rabs h)); [exact Hah |].
  rewrite Rmult_assoc, Rinv_l by lra. lra.
Qed.

Lemma excess_sqr_zero (c x : R) : excess_sqr c x <= 0 -> x <= c.
Proof.
  unfold excess_sqr, Rmax.
  destruct (Rle_dec (x - c) 0) as [H | H]; intros Hle; [lra | nra].
Qed.

Lemma excess_sqr_below (c x : R) : x <= c -> excess_sqr c x = 0.
Proof.
  intros H. unfold excess_sqr, Rmax.
  destruct (Rle_dec (x - c) 0); [ring | lra].
Qed.

(** Barrier lemma.  A continuous trajectory that starts at or below the
    level [c] and whose derivative, at all but finitely many times and
    wherever the trajectory is above [c], is at most [L] times the excess,
    stays at or below [c]. *)
Lemma barrier_above (omega domega : R -> R) (F : list R) (c L a b : R) :
  0 <= L ->
  (forall t, a <= t <= b -> continuity_pt omega t) ->
  (forall t, a < t < b -> ~ In t F -> derivable_pt_lim omega t (domega t)) ->
  omega a <= c ->
  (forall t, a < t < b -> ~ In t F -> c < omega t ->
     domega t <= L * (omega t - c)) ->
  forall t, a <= t <= b -> omega t <= c.
Proof.
  intros HL Hc Hd Ha Hup t [Hat Htb].
  apply excess_sqr_zero.
  pose (g := fun s => excess_sqr c (omega s)).
  pose (dg := fun s => 2 * Rmax (omega s - c) 0 * domega s).
  assert (Hgc : forall s, a <= s <= t -> continuity_pt g s).
  { intros s Hs. apply (continuity_pt_comp omega (excess_sqr c)).
    - apply Hc; lra.
    - apply (deriv_lim_continuity _ _ _ (excess_sqr_deriv c (omega s))). }
  assert (Hg : forall s, a < s < t -> ~ In s F ->
                 derivable_pt_lim g s (dg s)).
  { intros s Hs Hn. unfold g, dg.
    apply (derivable_pt_lim_comp omega (excess_sqr c)).
    - apply Hd; [lra | exact Hn].
    - apply excess_sqr_deriv. }
  assert (Hle : forall s, a < s < t -> ~ In s F ->
                  dg s + (- (2 * L)) * g s <= 0).
  { intros s Hs Hn. unfold dg, g, excess_sqr, Rmax.
    destruct (Rle_dec (omega s - c) 0) as [Hneg | Hpos]; [lra |].
    assert (Hs' : a < s < b) by lra.
    pose proof (Hup s Hs' Hn ltac:(lra)) as Hu.
    nra. }
  pose proof (weighted_nonincreasing (- (2 * L)) g dg F a t Hat Hgc Hg Hle)
    as Hw.
  unfold weighted, g in Hw.
  rewrite (excess_sqr_below c (omega a) Ha) in Hw.
  pose proof (exp_pos (- (2 * L) * t)) as He.
  assert (H0 : 0 <= excess_sqr c (omega t)).
  { unfold excess_sqr. apply pow2_ge_0. }
  nra.
Qed.

(** The mirrored barrier: a continuous trajectory that starts at or above
    [c] and whose derivative is non-negative wherever it is below [c]
    stays at or above [c]. *)
Lemma barrier_below (omega domega : R -> R) (F : list R) (c a b : R) :
  (forall t, a <= t <= b -> continuity_pt omega t) ->
  (forall t, a < t < b -> ~ In t F -> derivable_pt_lim omega t (domega t)) ->
  c <= omega a ->
  (forall t, a < t < b -> ~ In t F -> omega t < c -> 0 <= domega t) ->
  forall t, a <= t <= b -> c <= omega t.
Proof.
  intros Hc Hd Ha Hlow t Ht.
  assert (H : (fun s => - omega s) t <= - c).
  { apply (barrier_above (fun s => - omega s) (fun s => - domega s) F
             (- c) 0 a b); try lra; try exact Ht.
    - intros s Hs. apply (continuity_pt_opp omega), Hc, Hs.
    - intros s Hs Hn. apply (derivable_pt_lim_opp omega), Hd; assumption.
    - intros s Hs Hn Hlt. pose proof (Hlow s Hs Hn ltac:(lra)). lra. }
  simpl in H. lra.
Qed.

(** A continuous trajectory driven by [omega' = p t - k * omega] with
    [p < 0] and starting at or below zero is strictly negative
    afterwards. *)
Lemma forced_decay_negative (omega p : R -> R) (F : list R) (k a b : R) :
  (forall t, a <= t <= b -> continuity_pt omega t) ->
  (forall t, a < t < b -> ~ In t F ->
     derivable_pt_lim omega t (p t - k * omega t)) ->
  omega a <= 0 ->
  (forall t, a < t < b -> p t < 0) ->
  forall t, a < t <= b -> omega t < 0.
Proof.
  intros Hc Hd Ha Hp t [Hat Htb].
  assert (Hw : weighted k omega t < weighted k omega a).
  { apply (weighted_decreasing k omega (fun s => p s - k * omega s) F a t Hat).
    - intros s Hs. apply Hc; lra.
    - intros s Hs Hn. apply Hd; [lra | exact Hn].
    - intros s Hs Hn. pose proof (Hp s ltac:(lra)). lra. }
  unfold weighted in Hw.
  pose proof (exp_pos (k * t)). pose proof (exp_pos (k * a)).
  nra.
Qed.

(** ** Sign of the derivative functions outside the speed range *)

Lemma Rdiv_nonpos (x j : R) : x <= 0 -> 0 < j -> x / j <= 0.
Proof.
  intros Hx Hj. assert (Hinv : 0 < / j) by now apply Rinv_0_lt_compat.
  unfold Rdiv. nra.
Qed.

Lemma Rdiv_neg (x j : R) : x < 0 -> 0 < j -> x / j < 0.
Proof.
  intros Hx Hj. assert (Hinv : 0 < / j) by now apply Rinv_0_lt_compat.
  unfold Rdiv. nra.
Qed.

Lemma Rdiv_nonneg (x j : R) : 0 <= x -> 0 < j -> 0 <= x / j.
Proof.
  intros Hx Hj. assert (Hinv : 0 < / j) by now apply Rinv_0_lt_compat.
  unfold Rdiv. nra.
Qed.

Lemma torque_ratio_zero : torque_ratio 0 = 0.
Proof. unfold torque_ratio, Rdiv. ring. Qed.

Lemma torque_ratio_nonneg (s : R) : 0 <= s -> 0 <= torque_ratio s.
Proof.
  intros Hs. pose proof (torque_ratio_den_pos s Hs) as Hd.
  unfold torque_ratio, Rdiv.
  apply Rmult_le_pos; [unfold a_coef; nra |].
  left; now apply Rinv_0_lt_compat.
Qed.

Lemma slip_above_sync (s w : R) :
  0 < s -> s <= w -> np_clip ((s - w) / s) 0 1 = 0.
Proof.
  intros Hs Hw. apply np_clip_low.
  assert (Hinv : 0 < / s) by now apply Rinv_0_lt_compat.
  unfold Rdiv. nra.
Qed.

Lemma slip_at_standstill (s w : R) :
  0 < s -> w <= 0 -> np_clip ((s - w) / s) 0 1 = 1.
Proof.
  intros Hs Hw. apply np_clip_high.
  apply (Rmult_le_reg_r s); [exact Hs |].
  replace ((s - w) / s * s) with (s - w) by (field; lra).
  lra.
Qed.

Lemma V3_freq_func_le_base (cfg : Config) (t : R) :
  well_formed cfg -> V3.freq_func cfg t <= BASE_FREQ cfg.
Proof.
  intros W. pose proof (wf_ramp_time cfg W) as Hr.
  pose proof (wf_base_freq cfg W) as Hb.
  unfold V3.freq_func.
  destruct (Rleb_spec t (RAMP_TIME cfg)) as [[Ht ->] | [Ht ->]]; [| lra].
  assert (Hq : t / RAMP_TIME cfg <= 1).
  { apply (Rmult_le_reg_r (RAMP_TIME cfg)); [exact Hr |].
    replace (t / RAMP_TIME cfg * RAMP_TIME cfg) with t by (field; lra).
    lra. }
  nra.
Qed.

Lemma sync_speed_rad_at_le_base (cfg : Config) (freq : R) :
  well_formed cfg -> freq <= BASE_FREQ cfg ->
  sync_speed_rad_at cfg freq <= SYNC_SPEED_RAD cfg.
Proof.
  intros W Hf. rewrite <- sync_speed_rad_at_base.
  unfold sync_speed_rad_at.
  pose proof PI_RGT_0 as Hpi. pose proof (wf_poles cfg W) as Hp.
  assert (Hinv : 0 < / POLES cfg) by now apply Rinv_0_lt_compat.
  apply Rmult_le_compat_r; [lra |].
  unfold Rdiv. apply Rmult_le_compat_r; lra.
Qed.

(** The v4 copy of the VFD derivative function is the v3 one, called
    with the v4 frequency ramp. *)
Lemma V4_vfd_motor_dynamics_is_V3 (cfg : Config)
    (omega_rad t base_load_torque : R) (load_type : string) (ramp_time : R) :
  V4.vfd_motor_dynamics cfg omega_rad t base_load_torque load_type ramp_time
  = V3.motor_dynamics cfg omega_rad t
      (fun s => V4.vfd_freq_func cfg s ramp_time) base_load_torque load_type.
Proof. reflexivity. Qed.

Lemma V4_vfd_run_is_vfd_dynamics (cfg : Config) (omega_rad t : R) :
  V4.vfd_motor_dynamics cfg omega_rad t (LOAD_TORQUE cfg) (LOAD_TYPE cfg)
    (RAMP_TIME cfg)
  = vfd_dynamics cfg omega_rad t.
Proof. reflexivity. Qed.

(** Above synchronous speed the soft-starter derivative is not positive:
    the slip is clamped to 0, so no torque is produced, and load and
    damping brake the rotor. *)
Lemma soft_start_dynamics_above (cfg : Config) (w t : R) :
  well_formed cfg -> SYNC_SPEED_RAD cfg < w ->
  soft_start_dynamics cfg w t <= 0.
Proof.
  intros W Hw.
  pose proof (SYNC_SPEED_RAD_pos cfg W) as HS.
  pose proof (wf_inertia cfg W) as HJ. pose proof (wf_damping cfg W) as HD.
  pose proof (get_load_torque_nonneg (speed_ratio_of cfg w) (LOAD_TORQUE cfg)
                (LOAD_TYPE cfg) (LOAD_TORQUE_nonneg cfg W)) as Hl.
  unfold soft_start_dynamics, V4.soft_start_motor_dynamics,
    V4.soft_start_torque_em.
  replace 1.0 with 1 by lra.
  rewrite (slip_above_sync _ w HS) by lra.
  rewrite torque_ratio_zero.
  assert (Hdw : 0 <= DAMPING cfg * w) by nra.
  apply Rdiv_nonpos; [| exact HJ].
  rewrite Rmult_0_r, Rmult_0_l. lra.
Qed.

(** The same above synchronous speed for the VFD derivative, on all
    three of its paths. *)
Lemma vfd_dynamics_above (cfg : Config) (w t : R) :
  well_formed cfg -> SYNC_SPEED_RAD cfg < w ->
  vfd_dynamics cfg w t <= 0.
Proof.
  intros W Hw.
  pose proof (SYNC_SPEED_RAD_pos cfg W) as HS.
  pose proof (wf_inertia cfg W) as HJ. pose proof (wf_damping cfg W) as HD.
  pose proof (get_load_torque_nonneg (speed_ratio_of cfg w) (LOAD_TORQUE cfg)
                (LOAD_TYPE cfg) (LOAD_TORQUE_nonneg cfg W)) as Hl.
  pose proof (sync_speed_rad_at_le_base cfg _ W (V3_freq_func_le_base cfg t W))
    as Hsync.
  assert (Hdw : 0 <= DAMPING cfg * w) by nra.
  unfold vfd_dynamics, V3.motor_dynamics.
  replace 1.0 with 1 by lra.
  set (freq := V3.freq_func cfg t) in *.
  set (load := get_load_torque _ _ _) in *.
  destruct (Rltb_spec freq 1) as [[Hf ->] | [Hf ->]].
  - destruct (Rltb_spec (sync_speed_rad_at cfg freq) 0.1) as [[Hs ->] | [Hs ->]];
      [lra |].
    rewrite (slip_above_sync (sync_speed_rad_at cfg freq) w) by lra.
    apply Rdiv_nonpos; [| exact HJ].
    unfold V3.startup_torque. rewrite Rmult_0_r, Rmult_0_l. lra.
  - assert (Hpos : 0 < sync_speed_rad_at cfg freq).
    { apply sync_speed_rad_at_pos; [exact W | lra]. }
    rewrite (slip_above_sync (sync_speed_rad_at cfg freq) w) by lra.
    apply Rdiv_nonpos; [| exact HJ].
    unfold V3.normal_torque. rewrite torque_ratio_zero.
    destruct (Rltb freq (BASE_FREQ cfg * 0.15));
      rewrite Rmult_0_r, !Rmult_0_l; lra.
Qed.

(** Below standstill, with a fan or pump load, the soft-starter
    derivative is not negative. *)
Lemma soft_start_dynamics_below_fan_pump (cfg : Config) (w t : R) :
  well_formed cfg -> LOAD_TYPE cfg = "fan_pump"%string -> w < 0 ->
  0 <= soft_start_dynamics cfg w t.
Proof.
  intros W Hfan Hw.
  pose proof (SYNC_SPEED_RAD_pos cfg W) as HS.
  pose proof (RATED_TORQUE_pos cfg W) as HR.
  pose proof (wf_inertia cfg W) as HJ. pose proof (wf_damping cfg W) as HD.
  unfold soft_start_dynamics, V4.soft_start_motor_dynamics,
    V4.soft_start_torque_em.
  rewrite Hfan, (speed_ratio_of_eq cfg w W).
  rewrite get_load_torque_fan_pump_standstill.
  2:{ assert (Hi : 0 < / SYNC_SPEED_RAD cfg) by now apply Rinv_0_lt_compat.
      unfold Rdiv. nra. }
  replace 1.0 with 1 by lra.
  rewrite (slip_at_standstill _ w HS) by lra.
  pose proof (torque_ratio_nonneg 1 ltac:(lra)) as Hr.
  set (vr := V4.soft_start_voltage_func cfg t (SOFT_START_RAMP_TIME cfg)
             / VOLTAGE cfg).
  assert (Hv : 0 <= vr ^ 2) by apply pow2_ge_0.
  assert (Ht : 0 <= RATED_TORQUE cfg * torque_ratio 1 * vr ^ 2).
  { apply Rmult_le_pos; [apply Rmult_le_pos; lra | exact Hv]. }
  assert (Hdw : DAMPING cfg * w <= 0) by nra.
  apply Rdiv_nonneg; [lra | exact HJ].
Qed.

Lemma boost_factor_pos (cfg : Config) (freq k : R) :
  well_formed cfg -> 0 < k -> freq < BASE_FREQ cfg * k ->
  1 <= 1 + V_BOOST cfg * (1 - freq / (BASE_FREQ cfg * k)).
Proof.
  intros W Hk Hf. pose proof (wf_boost cfg W) as Hb.
  pose proof (wf_base_freq cfg W) as HB.
  assert (Hden : 0 < BASE_FREQ cfg * k) by nra.
  assert (Hq : freq / (BASE_FREQ cfg * k) < 1).
  { apply (Rmult_lt_reg_r (BASE_FREQ cfg * k)); [exact Hden |].
    replace (freq / (BASE_FREQ cfg * k) * (BASE_FREQ cfg * k)) with freq
      by (field; lra).
    lra. }
  nra.
Qed.

(** Below standstill, with a fan or pump load, the VFD derivative is
    not negative. *)
Lemma vfd_dynamics_below_fan_pump (cfg : Config) (w t : R) :
  well_formed cfg -> LOAD_TYPE cfg = "fan_pump"%string -> w < 0 ->
  0 <= vfd_dynamics cfg w t.
Proof.
  intros W Hfan Hw.
  pose proof (SYNC_SPEED_RAD_pos cfg W) as HS.
  pose proof (RATED_TORQUE_pos cfg W) as HR.
  pose proof (wf_inertia cfg W) as HJ. pose proof (wf_damping cfg W) as HD.
  pose proof (wf_boost cfg W) as HB. pose proof (wf_base_freq cfg W) as HF.
  assert (Hdw : DAMPING cfg * w <= 0) by nra.
  unfold vfd_dynamics, V3.motor_dynamics.
  rewrite Hfan, (speed_ratio_of_eq cfg w W).
  rewrite get_load_torque_fan_pump_standstill.
  2:{ assert (Hi : 0 < / SYNC_SPEED_RAD cfg) by now apply Rinv_0_lt_compat.
      unfold Rdiv. nra. }
  replace 1.0 with 1 by lra.
  set (freq := V3.freq_func cfg t) in *.
  destruct (Rltb_spec freq 1) as [[Hf ->] | [Hf ->]].
  - destruct (Rltb_spec (sync_speed_rad_at cfg freq) 0.1) as [[Hs ->] | [Hs ->]];
      [lra |].
    pose proof (np_clip_bounds
                  ((sync_speed_rad_at cfg freq - w) / sync_speed_rad_at cfg freq))
      as [Hc0 Hc1].
    set (slip := np_clip _ 0 1) in *.
    assert (Ht : 0 <= V3.startup_torque cfg slip).
    { unfold V3.startup_torque.
      assert (H1 : 0 <= RATED_TORQUE cfg * 2.5 * slip) by nra.
      assert (H2 : 0 <= 1 + V_BOOST cfg * 5) by lra.
      now apply Rmult_le_pos. }
    apply Rdiv_nonneg; [lra | exact HJ].
  - pose proof (np_clip_bounds
                  ((sync_speed_rad_at cfg freq - w) / sync_speed_rad_at cfg freq))
      as [Hc0 Hc1].
    set (slip := np_clip _ 0 1) in *.
    pose proof (torque_ratio_nonneg slip Hc0) as Hr.
    assert (Hq : 0 <= freq / BASE_FREQ cfg).
    { unfold Rdiv. apply Rmult_le_pos; [lra |].
      left; now apply Rinv_0_lt_compat. }
    assert (Hbase : 0 <= RATED_TORQUE cfg * torque_ratio slip
                         * (freq / BASE_FREQ cfg)).
    { assert (H1 : 0 <= RATED_TORQUE cfg * torque_ratio slip) by nra.
      now apply Rmult_le_pos. }
    assert (Ht : 0 <= V3.normal_torque cfg freq slip).
    { unfold V3.normal_torque.
      destruct (Rltb_spec freq (BASE_FREQ cfg * 0.15)) as [[Hlow ->] | [_ ->]];
        [| exact Hbase].
      pose proof (boost_factor_pos cfg freq 0.15 W ltac:(lra) Hlow) as Hbf.
      apply Rmult_le_pos; [exact Hbase | lra]. }
    apply Rdiv_nonneg; [lra | exact HJ].
Qed.

(** ** Runs that slide along a jump *)

Lemma exact_value_near (dyn : R -> R -> R) (w t : R) :
  near_values dyn w t (dyn w t).
Proof.
  intros eps Heps.
  assert (H0 : Rabs (w - w) < eps /\ Rabs (t - t) < eps).
  { rewrite !Rminus_diag, Rabs_R0. lra. }
  split; exists w, t; (split; [apply H0 | split; [apply H0 | lra]]).
Qed.

Lemma is_run_sliding (dyn : R -> R -> R) (T : R) (omega : R -> R) :
  is_run dyn T omega -> is_sliding_run dyn T omega.
Proof.
  intros [H0 [Hc [F Hd]]]. split; [exact H0 |]. split; [exact Hc |].
  exists F, (fun t => dyn (omega t) t). intros t Ht Hn.
  split; [now apply Hd | apply exact_value_near].
Qed.

(** A bound that the derivative function obeys on a whole neighbourhood
    of the state carries over to every value between its nearby
    values. *)
Lemma near_values_upper (dyn : R -> R -> R) (w t d r B : R) :
  0 < r ->
  (forall w' t', Rabs (w' - w) < r -> Rabs (t' - t) < r -> dyn w' t' <= B) ->
  near_values dyn w t d -> d <= B.
Proof.
  intros Hr Hb Hn. apply le_epsilon. intros eps Heps.
  destruct (Hn (Rmin eps r) (Rmin_pos _ _ Heps Hr)) as [_ [w' [t' [Hw [Ht Hd]]]]].
  pose proof (Rmin_l eps r) as Hl. pose proof (Rmin_r eps r) as Hrr.
  pose proof (Hb w' t' ltac:(lra) ltac:(lra)). lra.
Qed.

Lemma near_values_lower (dyn : R -> R -> R) (w t d r B : R) :
  0 < r ->
  (forall w' t', Rabs (w' - w) < r -> Rabs (t' - t) < r -> B <= dyn w' t') ->
  near_values dyn w t d -> B <= d.
Proof.
  intros Hr Hb Hn.
  assert (H : - d <= - B); [| lra].
  apply le_epsilon. intros eps Heps.
  destruct (Hn (Rmin eps r) (Rmin_pos _ _ Heps Hr)) as [[w' [t' [Hw [Ht Hd]]]] _].
  pose proof (Rmin_l eps r) as Hl. pose proof (Rmin_r eps r) as Hrr.
  pose proof (Hb w' t' ltac:(lra) ltac:(lra)). lra.
Qed.

Lemma Rabs_lt_above (c w w' : R) : c < w -> Rabs (w' - w) < w - c -> c < w'.
Proof. intros Hc H. apply Rabs_def2 in H. lra. Qed.

Lemma Rabs_lt_below (c w w' : R) : w < c -> Rabs (w' - w) < c - w -> w' < c.
Proof. intros Hc H. apply Rabs_def2 in H. lra. Qed.

(** A run, sliding or not, that starts at rest stays at or below a level
    above which the derivative function is never positive, and at or
    above a level below which it is never negative. *)
Lemma sliding_run_below_level (dyn : R -> R -> R) (T c : R) (omega : R -> R) :
  0 <= c ->
  (forall w t, c < w -> dyn w t <= 0) ->
  is_sliding_run dyn T omega ->
  forall t, 0 <= t <= T -> omega t <= c.
Proof.
  intros Hc Hdyn [H0 [Hcont [F [domega Hd]]]].
  apply (barrier_above omega domega F c 0 0 T); try lra.
  - exact Hcont.
  - intros s Hs Hn. now apply Hd.
  - intros s Hs Hn Hw.
    destruct (Hd s Hs Hn) as [_ Hnear].
    assert (Hle : domega s <= 0); [| lra].
    apply (near_values_upper dyn (omega s) s (domega s) (omega s - c) 0);
      [lra | | exact Hnear].
    intros w' t' Hw' _. apply Hdyn.
    now apply (Rabs_lt_above c (omega s)).
Qed.

Lemma sliding_run_above_level (dyn : R -> R -> R) (T c : R) (omega : R -> R) :
  c <= 0 ->
  (forall w t, w < c -> 0 <= dyn w t) ->
  is_sliding_run dyn T omega ->
  forall t, 0 <= t <= T -> c <= omega t.
Proof.
  intros Hc Hdyn [H0 [Hcont [F [domega Hd]]]].
  apply (barrier_below omega domega F c 0 T); try lra.
  - exact Hcont.
  - intros s Hs Hn. now apply Hd.
  - intros s Hs Hn Hw.
    destruct (Hd s Hs Hn) as [_ Hnear].
    apply (near_values_lower dyn (omega s) s (domega s) (c - omega s) 0);
      [lra | | exact Hnear].
    intros w' t' Hw' _. apply Hdyn.
    now apply (Rabs_lt_below c (omega s)).
Qed.

Lemma simulation_run_speed_range
    (cfg : Config) (T : R) (omega : R -> R) :
  well_formed cfg ->
  simulation_run cfg T omega ->
  forall t, 0 <= t <= T ->
    omega t <= SYNC_SPEED_RAD cfg /\
    (LOAD_TYPE cfg = "fan_pump"%string -> 0 <= omega t).
Proof.
  intros W Hrun t Ht.
  pose proof (SYNC_SPEED_RAD_pos cfg W) as HS.
  destruct Hrun as [omega Hrun | omega Hrun].
  - split.
    + apply (sliding_run_below_level (vfd_dynamics cfg) (RAMP_TIME cfg));
        try assumption; [lra |].
      intros w s Hw. now apply vfd_dynamics_above.
    + intros Hfan.
      apply (sliding_run_above_level (vfd_dynamics cfg) (RAMP_TIME cfg));
        try assumption; [lra |].
      intros w s Hw. now apply vfd_dynamics_below_fan_pump.
  - split.
    + apply (sliding_run_below_level (soft_start_dynamics cfg)
               (SOFT_START_RAMP_TIME cfg)); try assumption; [lra |].
      intros w s Hw. now apply soft_start_dynamics_above.
    + intros Hfan.
      apply (sliding_run_above_level (soft_start_dynamics cfg)
               (SOFT_START_RAMP_TIME cfg)); try assumption; [lra |].
      intros w s Hw. now apply soft_start_dynamics_below_fan_pump.
Qed.

(** The points of [np.linspace(0, T, n)] lie in [[0, T]]. *)
Lemma linspace_in_range (T : R) (n : nat) (t : R) :
  0 <= T -> In t (linspace 0 T n) -> 0 <= t <= T.
Proof.
  intros HT Hin. unfold linspace in Hin.
  apply in_map_iff in Hin. destruct Hin as [i [<- Hi]].
  apply in_seq in Hi. destruct Hi as [_ Hi]. simpl in Hi.
  rewrite Rminus_0_r, Rplus_0_l.
  assert (Hle : (i <= n - 1)%nat) by (apply PeanoNat.Nat.lt_le_pred in Hi;
    now rewrite <- PeanoNat.Nat.sub_1_r in Hi).
  pose proof (pos_INR i) as Hi0. apply le_INR in Hle.
  destruct (Req_dec_T (INR (n - 1)) 0) as [Hz | Hnz].
  - rewrite Hz in *. assert (H0 : INR i = 0) by lra.
    rewrite H0, Rmult_0_l. lra.
  - pose proof (pos_INR (n - 1)) as Hn0.
    assert (Hpos : 0 < INR (n - 1)) by lra.
    assert (Hq : 0 <= T / INR (n - 1)) by now apply Rdiv_nonneg.
    split; [nra |].
    replace T with (INR (n - 1) * (T / INR (n - 1))) at 2 by (field; lra).
    apply Rmult_le_compat_r; assumption.
Qed.

(** C1, as amended.  For every simulation run started from [omega = 0]
    (VFD or soft starter; a run may slide along a jump of the load
    torque), for every load type and every well-formed configuration
    (positive inertia, non-negative damping and load), the rotor speed
    never exceeds the synchronous speed at base frequency at any time of
    the horizon, hence at every sample of the trajectory on any time
    grid [linspace(0, T, n)]; and for the fan or pump load, which has no
    breakaway torque, it never becomes negative.  The reason lies in the
    derivative functions themselves: above synchronous speed neither is
    ever positive, whatever the load type. *)
Theorem C1_speed_never_exceeds_synchronous_speed
    (cfg : Config) (T : R) (omega : R -> R) :
  well_formed cfg ->
  simulation_run cfg T omega ->
  (forall t, 0 <= t <= T ->
     omega t <= SYNC_SPEED_RAD cfg /\
     (LOAD_TYPE cfg = "fan_pump"%string -> 0 <= omega t)) /\
  (forall n : nat,
     Forall (fun w => w <= SYNC_SPEED_RAD cfg /\
                      (LOAD_TYPE cfg = "fan_pump"%string -> 0 <= w))
       (map omega (linspace 0 T n))) /\
  (forall w t, SYNC_SPEED_RAD cfg < w ->
     vfd_dynamics cfg w t <= 0 /\ soft_start_dynamics cfg w t <= 0).
Proof.
  intros W Hrun.
  pose proof (simulation_run_speed_range cfg T omega W Hrun) as Hrange.
  split; [exact Hrange |]. split.
  - intros n. apply Forall_forall. intros w Hin.
    apply in_map_iff in Hin. destruct Hin as [t [<- Ht]].
    apply Hrange. apply (linspace_in_range T n t); [| exact Ht].
    destruct Hrun; [left; exact (wf_ramp_time cfg W)
                   | left; exact (wf_soft_start_ramp_time cfg W)].
  - intros w t Hw. split;
      [now apply vfd_dynamics_above | now apply soft_start_dynamics_above].
Qed.

(** ** A soft-starter run that turns backwards *)

Lemma get_load_torque_constant_torque_standstill (r base : R) :
  r <= 0 -> get_load_torque r base "constant_torque" = base * 0.3.
Proof.
  intros Hr. unfold get_load_torque. simpl.
  replace 1.0 with 1 by lra.
  rewrite (clamp01_low r Hr). lra.
Qed.

Lemma soft_start_dynamics_standstill (cfg : Config) (w t : R) :
  well_formed cfg -> LOAD_TYPE cfg = "constant_torque"%string ->
  w <= 0 -> t <= SOFT_START_RAMP_TIME cfg ->
  soft_start_dynamics cfg w t =
  standstill_forcing cfg t - DAMPING cfg / INERTIA cfg * w.
Proof.
  intros W Hct Hw Ht.
  pose proof (SYNC_SPEED_RAD_pos cfg W) as HS.
  pose proof (wf_voltage cfg W) as HV. pose proof (wf_inertia cfg W) as HJ.
  unfold soft_start_dynamics, V4.soft_start_motor_dynamics,
    V4.soft_start_torque_em, standstill_forcing.
  rewrite Hct, (speed_ratio_of_eq cfg w W).
  rewrite get_load_torque_constant_torque_standstill.
  2:{ assert (Hi : 0 < / SYNC_SPEED_RAD cfg) by now apply Rinv_0_lt_compat.
      unfold Rdiv. nra. }
  replace 1.0 with 1 by lra.
  rewrite (slip_at_standstill _ w HS Hw).
  unfold V4.soft_start_voltage_func. rewrite (Rleb_true _ _ Ht).
  set (vr := SOFT_START_INITIAL_VOLTAGE cfg
             + (1 - SOFT_START_INITIAL_VOLTAGE cfg)
               * (t / SOFT_START_RAMP_TIME cfg)).
  replace (VOLTAGE cfg * vr / VOLTAGE cfg) with vr by (field; lra).
  field. lra.
Qed.

Lemma torque_ratio_one : torque_ratio 1 = 2.5 / 1.23.
Proof.
  unfold torque_ratio, a_coef, b_coef, c_coef. decimals. field.
Qed.

Lemma stall_forcing_polynomial (t : R) :
  standstill_forcing stall_config t
  = stall_p2 * t ^ 2 + stall_p1 * t + stall_p0.
Proof.
  unfold standstill_forcing, stall_p2, stall_p1, stall_p0. simpl.
  set (R0 := RATED_TORQUE stall_config).
  set (L0 := LOAD_TORQUE stall_config).
  set (rho := torque_ratio 1).
  decimals. field.
Qed.

Lemma stall_forcing_negative (t : R) :
  0 <= t <= 20 -> standstill_forcing stall_config t < 0.
Proof.
  intros [Ht0 Ht1].
  pose proof (RATED_TORQUE_pos _ stall_config_well_formed) as HR.
  unfold standstill_forcing, LOAD_TORQUE. simpl.
  rewrite torque_ratio_one.
  set (R0 := RATED_TORQUE stall_config) in *.
  set (vr := 0.3 + (1 - 0.3) * (t / 20)).
  assert (Hvr : 0 <= vr <= 1) by (unfold vr; lra).
  assert (Hvr2 : vr ^ 2 <= 1) by nra.
  assert (Hnum : R0 * (2.5 / 1.23) * vr ^ 2 - R0 * 7 * 0.3 < 0).
  { assert (Hq : 2.5 / 1.23 * vr ^ 2 <= 2.5 / 1.23) by nra.
    assert (Hq' : R0 * (2.5 / 1.23 * vr ^ 2) <= R0 * (2.5 / 1.23)) by nra.
    nra. }
  apply Rdiv_neg; [exact Hnum | lra].
Qed.

Lemma stalled_omega_start : stalled_omega 0 = 0.
Proof.
  unfold stalled_omega.
  replace (- 0 / 75) with 0 by lra. rewrite exp_0. ring.
Qed.

Lemma stalled_omega_deriv (t : R) :
  derivable_pt_lim stalled_omega t
    (standstill_forcing stall_config t - / 75 * stalled_omega t).
Proof.
  assert (Hpoly : derivable_pt_lim
            (fun s => stall_alpha * s ^ 2 + stall_beta * s + stall_gamma)
            t (stall_alpha * (2 * t) + stall_beta)).
  { pose proof (derivable_pt_lim_pow t 2) as H2.
    pose proof (derivable_pt_lim_scal _ stall_alpha _ _ H2) as Ha.
    pose proof (derivable_pt_lim_scal _ stall_beta _ _
                  (derivable_pt_lim_id t)) as Hb.
    pose proof (derivable_pt_lim_const stall_gamma t) as Hc.
    pose proof (derivable_pt_lim_plus _ _ _ _ _
                  (derivable_pt_lim_plus _ _ _ _ _ Ha Hb) Hc) as H.
    replace (stall_alpha * (2 * t) + stall_beta)
      with (stall_alpha * (INR 2 * t ^ Nat.pred 2) + stall_beta * 1 + 0)
      by (simpl; ring).
    apply (derivable_pt_lim_ext _ _ _ _ (fun z => eq_refl) H). }
  pose proof (derivable_pt_lim_scal _ stall_gamma _ _
                (exp_lin_deriv (- / 75) t)) as Hexp.
  pose proof (derivable_pt_lim_minus _ _ _ _ _ Hpoly Hexp) as H.
  assert (Hfun : forall z,
    minus_fct
      (fun s => stall_alpha * s ^ 2 + stall_beta * s + stall_gamma)
      (mult_real_fct stall_gamma (fun s => exp (- / 75 * s))) z
    = stalled_omega z).
  { intros z. unfold minus_fct, mult_real_fct, stalled_omega.
    replace (- z / 75) with (- / 75 * z) by lra. reflexivity. }
  apply (derivable_pt_lim_ext _ _ _ _ Hfun).
  replace (standstill_forcing stall_config t - / 75 * stalled_omega t)
    with (stall_alpha * (2 * t) + stall_beta
          - stall_gamma * (- / 75 * exp (- / 75 * t))); [exact H |].
  rewrite stall_forcing_polynomial. unfold stalled_omega.
  replace (- t / 75) with (- / 75 * t) by lra.
  set (E := exp (- / 75 * t)).
  unfold stall_gamma, stall_beta, stall_alpha. field.
Qed.

Lemma stalled_omega_negative (t : R) : 0 < t <= 20 -> stalled_omega t < 0.
Proof.
  apply (forced_decay_negative stalled_omega
           (standstill_forcing stall_config) [] (/ 75) 0 20).
  - intros s _. apply (deriv_lim_continuity _ _ _ (stalled_omega_deriv s)).
  - intros s _ _. apply stalled_omega_deriv.
  - rewrite stalled_omega_start. lra.
  - intros s Hs. apply stall_forcing_negative. lra.
Qed.

Lemma stalled_omega_is_run :
  is_run (soft_start_dynamics stall_config)
    (SOFT_START_RAMP_TIME stall_config) stalled_omega.
Proof.
  split; [exact stalled_omega_start |].
  split.
  { intros t _. apply (deriv_lim_continuity _ _ _ (stalled_omega_deriv t)). }
  exists []. simpl. intros t [Ht0 Ht1] _.
  assert (Hw : stalled_omega t <= 0).
  { left. apply stalled_omega_negative. lra. }
  rewrite (soft_start_dynamics_standstill stall_config (stalled_omega t) t
             stall_config_well_formed eq_refl Hw) by (simpl; lra).
  replace (DAMPING stall_config / INERTIA stall_config) with (/ 75)
    by (simpl; lra).
  apply stalled_omega_deriv.
Qed.

(** ** The scripts' own soft-starter run starts backwards *)

Lemma np_clip_ge (x : R) : x <= 1 -> x <= np_clip x 0 1.
Proof.
  intros H. unfold np_clip, Rmin, Rmax.
  destruct (Rle_dec x 0); destruct (Rle_dec _ 1); lra.
Qed.

(** Moving away from locked rotor the torque-slip ratio grows by at most
    three times the slip lost. *)
Lemma torque_ratio_growth (s : R) :
  0 <= s <= 1 -> torque_ratio s <= torque_ratio 1 + 3 * (1 - s).
Proof.
  intros [Hs0 Hs1]. rewrite torque_ratio_one.
  pose proof (torque_ratio_den_pos s Hs0) as Hd.
  unfold torque_ratio, a_coef, b_coef, c_coef in *.
  set (D := s ^ 2 + 0.15 * s + 0.08) in *.
  apply (Rmult_le_reg_r D); [exact Hd |].
  replace (2.5 * s / D * D) with (2.5 * s) by (field; lra).
  assert (Hq : 0 <= 3.69 * s ^ 2 - 1.9465 * s + 0.4952) by nra.
  assert (Hp : 0 <= (1 - s) * (3.69 * s ^ 2 - 1.9465 * s + 0.4952)).
  { apply Rmult_le_pos; lra. }
  assert (Hid : (2.5 / 1.23 + 3 * (1 - s)) * D - 2.5 * s
                = (1 - s) * (3.69 * s ^ 2 - 1.9465 * s + 0.4952) / 1.23).
  { unfold D. decimals. field. }
  assert (Hdiv : 0 <= (1 - s) * (3.69 * s ^ 2 - 1.9465 * s + 0.4952) / 1.23).
  { apply Rdiv_nonneg; [exact Hp | lra]. }
  lra.
Qed.

Lemma default_voltage_ratio (t : R) :
  t <= 20 ->
  V4.soft_start_voltage_func default_config t 20 / VOLTAGE default_config
  = 0.3 + 0.7 * (t / 20).
Proof.
  intros Ht. unfold V4.soft_start_voltage_func.
  rewrite (Rleb_true _ _ Ht). simpl. lra.
Qed.

Lemma default_forcing_negative (t : R) :
  0 <= t <= 0.9 -> standstill_forcing default_config t < 0.
Proof.
  intros [Ht0 Ht1].
  pose proof (RATED_TORQUE_pos _ default_config_well_formed) as HR.
  unfold standstill_forcing, LOAD_TORQUE. simpl.
  rewrite torque_ratio_one.
  set (R0 := RATED_TORQUE default_config) in *.
  set (vr := 0.3 + (1 - 0.3) * (t / 20)).
  assert (Hvr : 0 <= vr <= 0.3315) by (unfold vr; lra).
  assert (Hvr2 : vr ^ 2 <= 0.11) by nra.
  assert (Hq : 2.5 / 1.23 * vr ^ 2 <= 0.224) by lra.
  assert (Hq' : R0 * (2.5 / 1.23 * vr ^ 2) <= R0 * 0.224) by nra.
  apply Rdiv_neg; [| lra].
  lra.
Qed.

(** During the first 0.9 s of the ramp the soft-start derivative of the
    scripts' configuration is at most [standstill_growth_rate] times the
    speed above standstill, less the damping term below standstill, less a
    margin: at 30 % voltage the locked-rotor torque stays
    [0.001 * RATED_TORQUE] below the breakaway load. *)
Lemma default_soft_start_margin (w t : R) :
  0 <= t <= 0.9 ->
  soft_start_dynamics default_config w t
  <= standstill_growth_rate default_config * Rmax w 0
     - DAMPING default_config / INERTIA default_config * Rmin w 0
     - 0.001 * RATED_TORQUE default_config / 150.
Proof.
  intros [Ht0 Ht1].
  pose proof default_config_well_formed as W.
  pose proof (SYNC_SPEED_RAD_pos _ W) as HS.
  pose proof (RATED_TORQUE_pos _ W) as HR.
  destruct (Rle_dec w 0) as [Hneg | Hpos].
  - rewrite (Rmax_right w 0), (Rmin_left w 0) by lra.
    rewrite (soft_start_dynamics_standstill default_config w t W eq_refl Hneg)
      by (simpl; lra).
    assert (Hp : standstill_forcing default_config t
                 <= - (0.001 * RATED_TORQUE default_config / 150)).
    { unfold standstill_forcing, LOAD_TORQUE. simpl.
      rewrite torque_ratio_one.
      set (R0 := RATED_TORQUE default_config) in *.
      set (vr := 0.3 + (1 - 0.3) * (t / 20)).
      assert (Hvr : 0 <= vr <= 0.3315) by (unfold vr; lra).
      assert (Hvr2 : vr ^ 2 <= 0.11) by nra.
      assert (Hq : 2.5 / 1.23 * vr ^ 2 <= 0.224) by lra.
      assert (Hq' : R0 * (2.5 / 1.23 * vr ^ 2) <= R0 * 0.224) by nra.
      apply (Rmult_le_reg_r 150); [lra |].
      match goal with |- ?a / 150 * 150 <= _ =>
        replace (a / 150 * 150) with a by (field; lra) end.
      lra. }
    lra.
  - assert (Hw : 0 < w) by lra.
    rewrite (Rmax_left w 0), (Rmin_right w 0) by lra.
    unfold soft_start_dynamics, V4.soft_start_motor_dynamics,
      V4.soft_start_torque_em, standstill_growth_rate.
    rewrite (speed_ratio_of_eq _ w W).
    change (SOFT_START_RAMP_TIME default_config) with 20.
    rewrite default_voltage_ratio by lra.
    replace 1.0 with 1 by lra.
    set (S0 := SYNC_SPEED_RAD default_config) in *.
    set (R0 := RATED_TORQUE default_config) in *.
    pose proof (np_clip_bounds ((S0 - w) / S0)) as [Hc0 Hc1].
    assert (Hx : (S0 - w) / S0 <= 1).
    { apply (Rmult_le_reg_r S0); [exact HS |].
      replace ((S0 - w) / S0 * S0) with (S0 - w) by (field; lra). lra. }
    pose proof (np_clip_ge _ Hx) as Hcx.
    set (s := np_clip ((S0 - w) / S0) 0 1) in *.
    assert (Hlost : 1 - s <= w / S0).
    { replace (w / S0) with (1 - (S0 - w) / S0) by (field; lra). lra. }
    pose proof (torque_ratio_growth s (conj Hc0 Hc1)) as Hgrow.
    rewrite torque_ratio_one in Hgrow.
    pose proof (torque_ratio_nonneg s Hc0) as Hr0.
    set (vr := 0.3 + 0.7 * (t / 20)).
    assert (Hvr : 0 <= vr <= 0.3315) by (unfold vr; lra).
    assert (Hvr2 : 0 <= vr ^ 2 <= 0.11) by nra.
    assert (Hload : LOAD_TORQUE default_config * 0.3
                    <= get_load_torque (w / S0) (LOAD_TORQUE default_config)
                         (LOAD_TYPE default_config)).
    { unfold get_load_torque. simpl.
      pose proof (clamp01_bounds (w / S0)) as Hq.
      replace 1.0 with 1 by lra.
      set (q := Rmax 0 (Rmin (w / S0) 1)) in *.
      pose proof (LOAD_TORQUE_nonneg _ W) as HL.
      nra. }
    assert (HL : LOAD_TORQUE default_config * 0.3 = R0 * 0.225).
    { unfold LOAD_TORQUE. simpl. fold R0. lra. }
    set (load := get_load_torque _ _ _) in *.
    assert (Ht1' : torque_ratio s * vr ^ 2
                   <= (2.5 / 1.23 + 3 * (1 - s)) * vr ^ 2).
    { apply Rmult_le_compat_r; lra. }
    assert (Ht2 : 2.5 / 1.23 * vr ^ 2 <= 0.224) by lra.
    assert (Ht3 : 3 * (1 - s) * vr ^ 2 <= 3 * (1 - s)).
    { assert (0 <= 3 * (1 - s)) by lra. nra. }
    assert (Ht4 : torque_ratio s * vr ^ 2 <= 0.224 + 3 * (w / S0)) by lra.
    assert (Htq : R0 * torque_ratio s * vr ^ 2
                  <= R0 * (0.224 + 3 * (w / S0))).
    { rewrite Rmult_assoc. apply Rmult_le_compat_l; lra. }
    simpl DAMPING. simpl INERTIA.
    replace (3 * R0 / (150 * S0) * w - 2.0 / 150 * 0 - 0.001 * R0 / 150)
      with ((R0 * (3 * (w / S0)) - 0.001 * R0) / 150)
      by (decimals; field; lra).
    apply (Rmult_le_reg_r 150); [lra |].
    replace ((R0 * torque_ratio s * vr ^ 2 - load - 2.0 * w) / 150 * 150)
      with (R0 * torque_ratio s * vr ^ 2 - load - 2.0 * w) by (field; lra).
    replace ((R0 * (3 * (w / S0)) - 0.001 * R0) / 150 * 150)
      with (R0 * (3 * (w / S0)) - 0.001 * R0) by (field; lra).
    assert (Hexp : R0 * (0.224 + 3 * (w / S0))
                   = R0 * 0.224 + R0 * (3 * (w / S0))) by ring.
    lra.
Qed.

(** A bound on the derivative function that holds near the state and
    varies at most linearly with the speed carries over to the derivative
    of a run. *)
Lemma near_values_upper_lipschitz
    (dyn : R -> R -> R) (B : R -> R) (w t d r K : R) :
  0 < r -> 0 <= K ->
  (forall w' t', Rabs (w' - w) < r -> Rabs (t' - t) < r ->
     dyn w' t' <= B w') ->
  (forall w', Rabs (B w' - B w) <= K * Rabs (w' - w)) ->
  near_values dyn w t d -> d <= B w.
Proof.
  intros Hr HK Hb Hlip Hn. apply le_epsilon. intros eps Heps.
  set (e := Rmin (eps / (K + 1)) r).
  assert (Hq : 0 < eps / (K + 1)) by (apply Rdiv_lt_0_compat; lra).
  assert (He : 0 < e) by (apply Rmin_pos; assumption).
  assert (He1 : e <= eps / (K + 1)) by apply Rmin_l.
  assert (He2 : e <= r) by apply Rmin_r.
  destruct (Hn e He) as [_ [w' [t' [Hw [Ht Hd]]]]].
  pose proof (Hb w' t' ltac:(lra) ltac:(lra)) as Hdyn.
  pose proof (Hlip w') as Hl.
  assert (HB : B w' <= B w + K * e).
  { pose proof (Rle_abs (B w' - B w)).
    assert (K * Rabs (w' - w) <= K * e) by (apply Rmult_le_compat_l; lra).
    lra. }
  assert (Hke : (K + 1) * e <= eps).
  { apply (Rmult_le_compat_l (K + 1)) in He1; [| lra].
    replace ((K + 1) * (eps / (K + 1))) with eps in He1 by (field; lra).
    exact He1. }
  lra.
Qed.

Lemma ramp_bound_lipschitz (L k c w w' : R) :
  0 <= L -> 0 <= k ->
  Rabs ((L * Rmax w' 0 - k * Rmin w' 0 - c) - (L * Rmax w 0 - k * Rmin w 0 - c))
  <= (L + k) * Rabs (w' - w).
Proof.
  intros HL Hk. unfold Rmax, Rmin, Rabs.
  repeat destruct (Rle_dec _ _); repeat destruct (Rcase_abs _); nra.
Qed.

(** Every soft-starter run of the scripts' own configuration, sliding or
    exact, is strictly negative during the first 0.9 s after the start: at
    30 % voltage the locked-rotor torque, [0.09 * 2.5/1.23] of rated, is
    below the breakaway load, [0.3 * 0.75] of rated. *)
Lemma default_soft_start_run_negative (omega : R -> R) :
  is_sliding_run (soft_start_dynamics default_config)
    (SOFT_START_RAMP_TIME default_config) omega ->
  forall t, 0 < t <= 0.9 -> omega t < 0.
Proof.
  intros [H0 [Hc [F [domega Hd]]]]. simpl in Hc, Hd.
  pose proof default_config_well_formed as W.
  pose proof (RATED_TORQUE_pos _ W) as HR.
  pose proof (SYNC_SPEED_RAD_pos _ W) as HS.
  set (L := standstill_growth_rate default_config) in *.
  set (k := DAMPING default_config / INERTIA default_config) in *.
  set (c := 0.001 * RATED_TORQUE default_config / 150) in *.
  assert (HL : 0 <= L).
  { unfold L, standstill_growth_rate.
    apply Rdiv_nonneg; [lra |]. simpl INERTIA. lra. }
  assert (Hk : 0 <= k) by (unfold k; simpl; lra).
  assert (Hcpos : 0 < c) by (unfold c; lra).
  assert (Hbound : forall s, 0 < s < 0.9 -> ~ In s F ->
            domega s <= L * Rmax (omega s) 0 - k * Rmin (omega s) 0 - c).
  { intros s Hs Hn.
    destruct (Hd s ltac:(lra) Hn) as [_ Hnear].
    apply (near_values_upper_lipschitz
             (soft_start_dynamics default_config)
             (fun w => L * Rmax w 0 - k * Rmin w 0 - c)
             (omega s) s (domega s) (Rmin s (0.9 - s)) (L + k));
      [apply Rmin_pos; lra | lra | | | exact Hnear].
    - intros w' t' _ Ht'. apply Rabs_def2 in Ht'.
      pose proof (Rmin_l s (0.9 - s)). pose proof (Rmin_r s (0.9 - s)).
      apply default_soft_start_margin. lra.
    - intros w'. now apply ramp_bound_lipschitz. }
  assert (Hle : forall t, 0 <= t <= 0.9 -> omega t <= 0).
  { apply (barrier_above omega domega F 0 L 0 0.9); try lra.
    - intros s Hs. apply Hc. lra.
    - intros s Hs Hn. apply Hd; [lra | exact Hn].
    - intros s Hs Hn Hpos.
      pose proof (Hbound s Hs Hn) as Hb.
      rewrite (Rmax_left (omega s) 0), (Rmin_right (omega s) 0) in Hb by lra.
      lra. }
  intros t [Ht0 Ht1].
  assert (Hw : weighted k omega t < weighted k omega 0).
  { apply (weighted_decreasing k omega domega F 0 t Ht0).
    - intros s Hs. apply Hc. lra.
    - intros s Hs Hn. apply Hd; [lra | exact Hn].
    - intros s Hs Hn.
      pose proof (Hbound s ltac:(lra) Hn) as Hb.
      pose proof (Hle s ltac:(lra)) as Hneg.
      rewrite (Rmax_right (omega s) 0), (Rmin_left (omega s) 0) in Hb by lra.
      lra. }
  unfold weighted in Hw. rewrite H0 in Hw.
  pose proof (exp_pos (k * t)). nra.
Qed.

(** On the scripts' grid of 1000 points over 20 s, every sample of the
    stalled run after the initial one is strictly negative. *)
Lemma stalled_samples_negative :
  Forall (fun w => w < 0) (tl (map stalled_omega (linspace 0 20 1000))).
Proof.
  assert (H999 : INR (1000 - 1) = 999).
  { change (1000 - 1)%nat with 999%nat. rewrite INR_IZR_INZ. reflexivity. }
  unfold linspace. rewrite H999.
  replace (seq 0 1000) with (0%nat :: seq 1 999) by reflexivity.
  cbn [map tl]. rewrite map_map.
  apply Forall_forall. intros w Hin.
  apply in_map_iff in Hin. destruct Hin as [i [<- Hi]].
  apply in_seq in Hi. destruct Hi as [Hi1 Hi2].
  apply stalled_omega_negative.
  assert (Hlo : 1 <= INR i) by (replace 1 with (INR 1) by reflexivity;
                                apply le_INR; lia).
  assert (Hhi : INR i <= 999) by (rewrite <- H999; apply le_INR; lia).
  lra.
Qed.

(** C1, the claim as stated fails.  With the load torque factor raised
    to 7 (a seized constant-torque load) the function [stalled_omega] is
    a soft-starter run from [omega = 0] over the 20 s horizon, and it is
    strictly negative at every later time, hence at every later sample:
    the breakaway load torque drives the rotor backwards, since nothing
    in the derivative function holds the speed at zero.  The scripts' own
    configuration shows the same during the first 0.9 s of every
    soft-starter run. *)
Lemma C1_soft_start_run_turns_backwards :
  well_formed stall_config /\
  simulation_run stall_config 20 stalled_omega /\
  (forall t, 0 < t <= 20 -> stalled_omega t < 0) /\
  Forall (fun w => w < 0) (tl (map stalled_omega (linspace 0 20 1000))) /\
  (forall omega,
     is_sliding_run (soft_start_dynamics default_config)
       (SOFT_START_RAMP_TIME default_config) omega ->
     forall t, 0 < t <= 0.9 -> omega t < 0) /\
  ~ (forall (cfg : Config) (T : R) (omega : R -> R),
       well_formed cfg -> simulation_run cfg T omega ->
       forall t, 0 <= t <= T -> 0 <= omega t <= SYNC_SPEED_RAD cfg).
Proof.
  assert (Hrun : simulation_run stall_config 20 stalled_omega).
  { exact (soft_start_run stall_config stalled_omega
             (is_run_sliding _ _ _ stalled_omega_is_run)). }
  split; [exact stall_config_well_formed |].
  split; [exact Hrun |].
  split; [exact stalled_omega_negative |].
  split; [exact stalled_samples_negative |].
  split; [exact default_soft_start_run_negative |].
  intros Hclaim.
  pose proof (Hclaim stall_config 20 stalled_omega stall_config_well_formed
                Hrun 20 ltac:(lra)) as [Hnonneg _].
  pose proof (stalled_omega_negative 20 ltac:(lra)). lra.
Qed.

(** ** Closed-form VFD runs of the slow drive *)

Lemma lipschitz_continuity (f : R -> R) (x : R) :
  (forall a b, Rabs (f a - f b) <= Rabs (a - b)) -> continuity_pt f x.
Proof.
  intros H eps Heps. exists eps. split; [exact Heps |].
  intros x' [_ Hd]. simpl in *. unfold R_dist in *.
  eapply Rle_lt_trans; [apply H | exact Hd].
Qed.

Lemma Rmax_one_lipschitz (a b : R) :
  Rabs (Rmax a 1 - Rmax b 1) <= Rabs (a - b).
Proof.
  unfold Rmax, Rabs.
  destruct (Rle_dec a 1); destruct (Rle_dec b 1);
    repeat destruct (Rcase_abs _); lra.
Qed.

Lemma np_clip_lipschitz (lo hi a b : R) :
  lo <= hi -> Rabs (np_clip a lo hi - np_clip b lo hi) <= Rabs (a - b).
Proof.
  intros H. unfold np_clip, Rmin, Rmax, Rabs.
  repeat destruct (Rle_dec _ _); repeat destruct (Rcase_abs _); lra.
Qed.

(** The profile [k * (m - 1/m)] and its derivative. *)
Lemma ramp_profile_deriv (k t : R) :
  0 < t ->
  derivable_pt_lim (fun m => k * (m - / m)) t (k * (1 + / (t * t))).
Proof.
  intros Ht.
  assert (Hinv : derivable_pt_lim (fun m => / m) t (- / (t * t))).
  { pose proof (derivable_pt_lim_div (fct_cte 1) id t 0 1
                  (derivable_pt_lim_const 1 t) (derivable_pt_lim_id t)) as H.
    unfold id in H at 1. specialize (H ltac:(lra)).
    apply (derivable_pt_lim_ext (div_fct (fct_cte 1) id)).
    - intros z. unfold div_fct, fct_cte, id. lra.
    - replace (- / (t * t)) with ((0 * id t - 1 * fct_cte 1 t) / Rsqr (id t));
        [exact H |].
      unfold id, fct_cte, Rsqr. field. lra. }
  pose proof (derivable_pt_lim_minus _ _ _ _ _ (derivable_pt_lim_id t) Hinv)
    as Hm.
  pose proof (derivable_pt_lim_scal _ k _ _ Hm) as Hs.
  apply (derivable_pt_lim_ext
           (mult_real_fct k (minus_fct id (fun m => / m)))).
  - intros z. unfold mult_real_fct, minus_fct, id. reflexivity.
  - replace (k * (1 + / (t * t))) with (k * (1 - - / (t * t))) by ring.
    exact Hs.
Qed.

Lemma constant_near_deriv (f : R -> R) (a b x c : R) :
  a < x < b -> (forall z, a < z < b -> f z = c) ->
  derivable_pt_lim f x 0.
Proof.
  intros Hx Hf.
  apply (derivable_pt_lim_locally_ext (fun _ => c) f x a b 0 Hx).
  - intros z Hz. symmetry. now apply Hf.
  - apply derivable_pt_lim_const.
Qed.

Lemma PI_3_4 : 3 < PI <= 4.
Proof.
  pose proof PI2_3_2 as H. pose proof PI_4. unfold PI2 in H. lra.
Qed.

Lemma slow_ramp_config_well_formed (load_type : string) (k : R) :
  0 <= k -> well_formed (slow_ramp_config load_type k).
Proof.
  intros Hk. pose proof PI_3_4 as Hpi.
  constructor; cbn [slow_ramp_config POWER_HP VOLTAGE BASE_FREQ POLES
    EFFICIENCY POWER_FACTOR INERTIA DAMPING LOAD_TORQUE_FACTOR RAMP_TIME
    SOFT_START_RAMP_TIME V_BOOST SOFT_START_INITIAL_VOLTAGE]; try lra.
  apply Rmult_lt_0_compat; [lra |].
  apply Rdiv_lt_0_compat; nra.
Qed.

Lemma slow_ramp_sync_speed (load_type : string) (k : R) :
  SYNC_SPEED_RAD (slow_ramp_config load_type k) = PI.
Proof.
  unfold SYNC_SPEED_RAD, SYNC_SPEED_RPM. cbn [slow_ramp_config BASE_FREQ POLES].
  lra.
Qed.

Lemma slow_ramp_inertia (load_type : string) (k : R) :
  INERTIA (slow_ramp_config load_type k)
  = 25 * RATED_TORQUE (slow_ramp_config load_type k).
Proof.
  unfold RATED_TORQUE, POWER_KW. rewrite slow_ramp_sync_speed.
  cbn [slow_ramp_config INERTIA POWER_HP]. reflexivity.
Qed.

Lemma slow_ramp_freq (load_type : string) (k t : R) :
  0 <= t <= 10 * PI ->
  V3.freq_func (slow_ramp_config load_type k) t < 1 /\
  sync_speed_rad_at (slow_ramp_config load_type k)
    (V3.freq_func (slow_ramp_config load_type k) t) = t / 10.
Proof.
  intros [Ht0 Ht1]. pose proof PI_3_4 as Hpi.
  unfold V3.freq_func, sync_speed_rad_at.
  cbn [slow_ramp_config BASE_FREQ POLES RAMP_TIME].
  rewrite (Rleb_true _ _ Ht1). split.
  - assert (Hq : t / (10 * PI) <= 1).
    { apply (Rmult_le_reg_r (10 * PI)); [lra |].
      replace (t / (10 * PI) * (10 * PI)) with t by (field; lra). lra. }
    lra.
  - decimals. field. lra.
Qed.

(** While the guard holds (before [t = 1]) the derivative is 0. *)
Lemma slow_ramp_dynamics_guard (load_type : string) (k w t : R) :
  0 <= t < 1 -> vfd_dynamics (slow_ramp_config load_type k) w t = 0.
Proof.
  intros [Ht0 Ht1]. pose proof PI_3_4 as Hpi.
  destruct (slow_ramp_freq load_type k t ltac:(lra)) as [Hf Hs].
  unfold vfd_dynamics, V3.motor_dynamics.
  replace 1.0 with 1 by lra.
  rewrite (Rltb_true _ _ Hf), Hs.
  rewrite Rltb_true by lra. reflexivity.
Qed.

(** After the guard the equation of motion, in units of the inertia. *)
Lemma slow_ramp_dynamics_running (load_type : string) (k w t : R) :
  0 <= k -> 1 <= t <= 10 * PI ->
  vfd_dynamics (slow_ramp_config load_type k) w t
  = 0.1 * np_clip (1 - 10 * w / t) 0 1
    - get_load_torque (w / PI)
        (RATED_TORQUE (slow_ramp_config load_type k) * k) load_type
      / (25 * RATED_TORQUE (slow_ramp_config load_type k)).
Proof.
  intros Hk [Ht0 Ht1]. pose proof PI_3_4 as Hpi.
  pose proof (slow_ramp_config_well_formed load_type k Hk) as W.
  pose proof (RATED_TORQUE_pos _ W) as HR.
  destruct (slow_ramp_freq load_type k t ltac:(lra)) as [Hf Hs].
  unfold vfd_dynamics, V3.motor_dynamics.
  replace 1.0 with 1 by lra.
  rewrite (Rltb_true _ _ Hf), Hs.
  rewrite Rltb_false by lra.
  rewrite (speed_ratio_of_eq _ w W), slow_ramp_sync_speed, slow_ramp_inertia.
  unfold V3.startup_torque, LOAD_TORQUE.
  cbn [slow_ramp_config V_BOOST DAMPING LOAD_TORQUE_FACTOR LOAD_TYPE].
  replace ((t / 10 - w) / (t / 10)) with (1 - 10 * w / t) by (field; lra).
  set (R0 := RATED_TORQUE (slow_ramp_config load_type k)) in *.
  set (slip := np_clip _ 0 1).
  set (load := get_load_torque _ _ _).
  decimals. field. lra.
Qed.

Lemma fan_pump_no_load (r : R) : get_load_torque r 0 "fan_pump" = 0.
Proof. unfold get_load_torque. simpl. ring. Qed.

Lemma fan_ramp_omega_running (t : R) :
  1 <= t -> fan_ramp_omega t = 0.05 * (t - / t).
Proof.
  intros Ht. unfold fan_ramp_omega. now rewrite Rmax_left by lra.
Qed.

Lemma fan_ramp_omega_rest (t : R) : t <= 1 -> fan_ramp_omega t = 0.
Proof.
  intros Ht. unfold fan_ramp_omega. rewrite Rmax_right by lra.
  rewrite Rinv_1. lra.
Qed.

Lemma fan_ramp_omega_continuous (t : R) : continuity_pt fan_ramp_omega t.
Proof.
  apply (continuity_pt_comp (fun s => Rmax s 1) (fun m => 0.05 * (m - / m))).
  - apply lipschitz_continuity, Rmax_one_lipschitz.
  - pose proof (Rmax_r t 1).
    apply (deriv_lim_continuity _ _ _
             (ramp_profile_deriv 0.05 (Rmax t 1) ltac:(lra))).
Qed.

(** The unloaded fan on the slow drive: [fan_ramp_omega] is an exact VFD
    run, with the end of the guard at [t = 1] as its only switching
    time. *)
Lemma fan_ramp_omega_is_run :
  is_run (vfd_dynamics fan_ramp_config) (RAMP_TIME fan_ramp_config)
    fan_ramp_omega.
Proof.
  pose proof PI_3_4 as Hpi.
  split; [apply fan_ramp_omega_rest; lra |].
  split; [intros t _; apply fan_ramp_omega_continuous |].
  exists [1]. cbn [fan_ramp_config slow_ramp_config RAMP_TIME].
  intros t [Ht0 Ht1] Hn.
  assert (Hne : t <> 1) by (intros E; apply Hn; left; congruence).
  destruct (Rlt_dec t 1) as [Hlow | Hhigh].
  - unfold fan_ramp_config.
    rewrite slow_ramp_dynamics_guard by lra.
    apply (constant_near_deriv fan_ramp_omega 0 1 t 0); [lra |].
    intros z Hz. apply fan_ramp_omega_rest. lra.
  - assert (Ht : 1 < t) by lra.
    unfold fan_ramp_config.
    rewrite slow_ramp_dynamics_running by lra.
    rewrite Rmult_0_r, fan_pump_no_load.
    rewrite fan_ramp_omega_running by lra.
    assert (Hinv : 0 < / t <= 1).
    { split; [apply Rinv_0_lt_compat; lra |].
      rewrite <- Rinv_1. apply Rinv_le_contravar; lra. }
    assert (Hslip : 1 - 10 * (0.05 * (t - / t)) / t = 0.5 + 0.5 * (/ t * / t)).
    { decimals. field. lra. }
    rewrite Hslip.
    assert (Hsq : 0 < / t * / t <= 1) by nra.
    unfold np_clip. rewrite Rmax_left by lra. rewrite Rmin_left by lra.
    replace (0.1 * (0.5 + 0.5 * (/ t * / t))
             - 0 / (25 * RATED_TORQUE (slow_ramp_config "fan_pump" 0)))
      with (0.05 * (1 + / (t * t))).
    2:{ rewrite Rinv_mult. unfold Rdiv. lra. }
    apply (derivable_pt_lim_locally_ext (fun m => 0.05 * (m - / m))
             fan_ramp_omega t 1 (t + 1)); [lra | |].
    + intros z Hz. symmetry. apply fan_ramp_omega_running. lra.
    + apply ramp_profile_deriv. lra.
Qed.

Lemma constant_power_load_form (r base : R) :
  get_load_torque r base "constant_power"
  = if Rltb (Rmax 0 (Rmin r 1)) 0.1 then base
    else base / Rmax 0 (Rmin r 1).
Proof.
  unfold get_load_torque. simpl. replace 1.0 with 1 by lra.
  destruct (Rltb (Rmax 0 (Rmin r 1)) 0.1); unfold Rdiv.
  - decimals. field.
  - ring.
Qed.

Lemma sliding_load_factor : 0.47 < 2.5 - 5 * PI / 9.9 < 1.
Proof. pose proof PI_3_4. lra. Qed.

Lemma sliding_omega_rest (t : R) : t <= 1 -> sliding_omega t = 0.
Proof.
  intros Ht. unfold sliding_omega, np_clip.
  rewrite Rmax_right by lra. rewrite Rmin_left by lra.
  rewrite Rinv_1. unfold Rdiv. ring.
Qed.

Lemma sliding_omega_running (t : R) :
  1 <= t <= 10 -> sliding_omega t = PI / 99 * (t - / t).
Proof.
  intros Ht. unfold sliding_omega, np_clip.
  rewrite Rmax_left by lra. now rewrite Rmin_left by lra.
Qed.

Lemma sliding_omega_on_jump (t : R) : 10 <= t -> sliding_omega t = 0.1 * PI.
Proof.
  intros Ht. unfold sliding_omega, np_clip.
  rewrite Rmax_left by lra. rewrite Rmin_right by lra.
  decimals. field.
Qed.

Lemma sliding_omega_continuous (t : R) : continuity_pt sliding_omega t.
Proof.
  apply (continuity_pt_comp (fun s => np_clip s 1 10)
           (fun m => PI / 99 * (m - / m))).
  - apply lipschitz_continuity. intros a b. apply np_clip_lipschitz. lra.
  - assert (Hm : 1 <= np_clip t 1 10).
    { unfold np_clip, Rmin, Rmax.
      destruct (Rle_dec t 1); destruct (Rle_dec _ 10); lra. }
    apply (deriv_lim_continuity _ _ _
             (ramp_profile_deriv (PI / 99) (np_clip t 1 10) ltac:(lra))).
Qed.

(** The equation of motion of [sliding_config] on the two sides of the
    jump of the load torque, for a positive speed. *)
Lemma sliding_dynamics_below_jump (w t : R) :
  1 <= t <= 10 * PI -> 0 <= w < 0.1 * PI -> 10 * w <= t ->
  vfd_dynamics sliding_config w t = 2 * PI / 99 - w / t.
Proof.
  intros Ht [Hw0 Hw1] Hwt. pose proof PI_3_4 as Hpi.
  pose proof sliding_load_factor as Hk.
  pose proof (slow_ramp_config_well_formed "constant_power"
                (2.5 - 5 * PI / 9.9) ltac:(lra)) as W.
  pose proof (RATED_TORQUE_pos _ W) as HR.
  unfold sliding_config.
  rewrite slow_ramp_dynamics_running by lra.
  rewrite constant_power_load_form.
  assert (Hr : 0 <= w / PI < 0.1).
  { split; [apply Rdiv_nonneg; lra |].
    apply (Rmult_lt_reg_r PI); [lra |].
    replace (w / PI * PI) with w by (field; lra). lra. }
  rewrite (Rmin_left (w / PI) 1) by lra.
  rewrite (Rmax_right 0 (w / PI)) by lra.
  rewrite (Rltb_true _ _ (proj2 Hr)).
  assert (Hq : 0 <= 10 * w / t <= 1).
  { split; [apply Rdiv_nonneg; lra |].
    apply (Rmult_le_reg_r t); [lra |].
    replace (10 * w / t * t) with (10 * w) by (field; lra). lra. }
  unfold np_clip. rewrite Rmax_left by lra. rewrite Rmin_left by lra.
  set (R0 := RATED_TORQUE _) in *.
  decimals. field. lra.
Qed.

Lemma sliding_dynamics_on_jump (t : R) :
  10 <= t <= 10 * PI -> vfd_dynamics sliding_config (0.1 * PI) t < 0.
Proof.
  intros Ht. pose proof PI_3_4 as Hpi.
  pose proof sliding_load_factor as Hk.
  pose proof (slow_ramp_config_well_formed "constant_power"
                (2.5 - 5 * PI / 9.9) ltac:(lra)) as W.
  pose proof (RATED_TORQUE_pos _ W) as HR.
  unfold sliding_config.
  rewrite slow_ramp_dynamics_running by lra.
  rewrite constant_power_load_form.
  replace (0.1 * PI / PI) with 0.1 by (field; lra).
  rewrite (Rmin_left 0.1 1) by lra.
  rewrite (Rmax_right 0 0.1) by lra.
  rewrite (Rltb_false 0.1 0.1) by lra.
  pose proof (np_clip_bounds (1 - 10 * (0.1 * PI) / t)) as [_ Hs].
  set (slip := np_clip _ 0 1) in *.
  set (R0 := RATED_TORQUE _) in *.
  replace (R0 * (2.5 - 5 * PI / 9.9) / 0.1 / (25 * R0))
    with (0.4 * (2.5 - 5 * PI / 9.9)) by (decimals; field; lra).
  lra.
Qed.

(** The constant-power load on the slow drive: [sliding_omega] is a run
    that reaches the jump of the load torque at [t = 10] and stays on it.
    On the jump the derivative function is negative (the load asks for ten
    times the base torque) while just below it is positive; the
    trajectory's derivative there, 0, lies between the two. *)
Lemma sliding_omega_is_sliding_run :
  is_sliding_run (vfd_dynamics sliding_config) (RAMP_TIME sliding_config)
    sliding_omega.
Proof.
  pose proof PI_3_4 as Hpi.
  split; [apply sliding_omega_rest; lra |].
  split; [intros t _; apply sliding_omega_continuous |].
  exists [1; 10],
    (fun t => if Rltb t 1 then 0
              else if Rltb t 10 then PI / 99 * (1 + / (t * t)) else 0).
  cbn [sliding_config slow_ramp_config RAMP_TIME].
  intros t [Ht0 Ht1] Hn.
  assert (Hne1 : t <> 1) by (intros E; apply Hn; left; congruence).
  assert (Hne10 : t <> 10)
    by (intros E; apply Hn; right; left; congruence).
  destruct (Rltb_spec t 1) as [[Hlow ->] | [Hhigh ->]];
    [| destruct (Rltb_spec t 10) as [[Hmid ->] | [Hlate ->]]].
  - (* at rest under the guard *)
    split.
    + apply (constant_near_deriv sliding_omega 0 1 t 0); [lra |].
      intros z Hz. apply sliding_omega_rest. lra.
    + pose proof (exact_value_near (vfd_dynamics sliding_config)
                    (sliding_omega t) t) as Hx.
      unfold sliding_config in Hx at 2.
      rewrite slow_ramp_dynamics_guard in Hx by lra. exact Hx.
  - (* accelerating below the jump *)
    assert (Ht : 1 < t < 10) by lra.
    assert (Hinv : 0.1 < / t < 1).
    { split.
      - replace 0.1 with (/ 10) by lra. apply Rinv_lt_contravar; nra.
      - rewrite <- Rinv_1. apply Rinv_lt_contravar; nra. }
    split.
    + apply (derivable_pt_lim_locally_ext (fun m => PI / 99 * (m - / m))
               sliding_omega t 1 10); [lra | |].
      * intros z Hz. symmetry. apply sliding_omega_running. lra.
      * apply ramp_profile_deriv. lra.
    + assert (Hw : sliding_omega t = PI / 99 * (t - / t))
        by (apply sliding_omega_running; lra).
      assert (Hrange : 0 <= sliding_omega t < 0.1 * PI).
      { rewrite Hw. split; [apply Rmult_le_pos; lra |].
        assert (t - / t < 9.9) by lra. nra. }
      assert (Hslow : 10 * sliding_omega t <= t).
      { rewrite Hw. assert (t - / t <= t) by lra.
        assert (0 <= t - / t) by lra. nra. }
      pose proof (exact_value_near (vfd_dynamics sliding_config)
                    (sliding_omega t) t) as Hx.
      rewrite (sliding_dynamics_below_jump (sliding_omega t) t
                 ltac:(lra) Hrange Hslow) in Hx.
      replace (PI / 99 * (1 + / (t * t)))
        with (2 * PI / 99 - sliding_omega t / t); [exact Hx |].
      rewrite Hw. field. lra.
  - (* on the jump *)
    assert (Ht : 10 < t) by lra.
    split.
    + apply (constant_near_deriv sliding_omega 10 (t + 1) t (0.1 * PI));
        [lra |].
      intros z Hz. apply sliding_omega_on_jump. lra.
    + rewrite sliding_omega_on_jump by lra.
      intros eps Heps. split.
      * exists (0.1 * PI), t.
        rewrite !Rminus_diag, Rabs_R0.
        split; [exact Heps |]. split; [exact Heps |].
        pose proof (sliding_dynamics_on_jump t ltac:(lra)). lra.
      * set (delta := Rmin (eps / 2) 0.1).
        assert (Hd : 0 < delta <= 0.1 /\ delta < eps).
        { unfold delta. pose proof (Rmin_l (eps / 2) 0.1).
          pose proof (Rmin_r (eps / 2) 0.1).
          assert (0 < Rmin (eps / 2) 0.1) by (apply Rmin_pos; lra).
          lra. }
        exists (0.1 * PI - delta), t.
        replace (0.1 * PI - delta - 0.1 * PI) with (- delta) by ring.
        rewrite Rabs_Ropp, (Rabs_right delta) by lra.
        rewrite Rminus_diag, Rabs_R0.
        split; [lra |]. split; [exact Heps |].
        rewrite sliding_dynamics_below_jump by lra.
        assert (Hq : (0.1 * PI - delta) / t <= 0.01 * PI).
        { apply (Rmult_le_reg_r t); [lra |].
          replace ((0.1 * PI - delta) / t * t) with (0.1 * PI - delta)
            by (field; lra).
          nra. }
        lra.
Qed.

(** On the jump the trajectory's derivative is not the value of the
    derivative function: [sliding_omega] is a run, but not an exact
    one. *)
Lemma sliding_omega_not_exact_on_jump (t : R) :
  10 < t < 10 * PI ->
  ~ derivable_pt_lim sliding_omega t
      (vfd_dynamics sliding_config (sliding_omega t) t).
Proof.
  intros Ht Hd.
  assert (H0 : derivable_pt_lim sliding_omega t 0).
  { apply (constant_near_deriv sliding_omega 10 (t + 1) t (0.1 * PI));
      [lra |].
    intros z Hz. apply sliding_omega_on_jump. lra. }
  pose proof (uniqueness_limite _ _ _ _ Hd H0) as E.
  rewrite sliding_omega_on_jump in E by lra.
  pose proof (sliding_dynamics_on_jump t ltac:(lra)). lra.
Qed.

Lemma C1_speed_never_exceeds_synchronous_speed_witness :
  (fan_ramp_omega 5 <= SYNC_SPEED_RAD fan_ramp_config /\
   0 <= fan_ramp_omega 5) /\
  sliding_omega 20 <= SYNC_SPEED_RAD sliding_config /\
  stalled_omega 10 <= SYNC_SPEED_RAD stall_config.
Proof.
  pose proof PI_3_4 as Hpi. pose proof sliding_load_factor as Hk.
  split; [| split].
  - destruct (proj1 (C1_speed_never_exceeds_synchronous_speed
                       fan_ramp_config (RAMP_TIME fan_ramp_config)
                       fan_ramp_omega
                       (slow_ramp_config_well_formed "fan_pump" 0
                          (Rle_refl 0))
                       (vfd_run fan_ramp_config fan_ramp_omega
                          (is_run_sliding _ _ _ fan_ramp_omega_is_run)))
                5) as [Hup Hlow].
    + cbn [fan_ramp_config slow_ramp_config RAMP_TIME]. lra.
    + split; [exact Hup | exact (Hlow eq_refl)].
  - refine (proj1 (proj1 (C1_speed_never_exceeds_synchronous_speed
                            sliding_config (RAMP_TIME sliding_config)
                            sliding_omega _
                            (vfd_run sliding_config sliding_omega
                               sliding_omega_is_sliding_run))
                     20 _)).
    + apply slow_ramp_config_well_formed. lra.
    + cbn [sliding_config slow_ramp_config RAMP_TIME]. lra.
  - refine (proj1 (proj1 (C1_speed_never_exceeds_synchronous_speed
                            stall_config (SOFT_START_RAMP_TIME stall_config)
                            stalled_omega _
                            (soft_start_run stall_config stalled_omega
                               (is_run_sliding _ _ _ stalled_omega_is_run)))
                     10 _)).
    + constructor; simpl; lra.
    + simpl; lra.
Defined.

(** * Further properties of the scripts *)

(** ** Control laws *)

Lemma Rdiv_le_1 (x y : R) : 0 < y -> x <= y -> x / y <= 1.
Proof.
  intros Hy Hx. apply (Rmult_le_reg_r y); [exact Hy |].
  replace (x / y * y) with x by (field; lra). lra.
Qed.

Lemma Rdiv_le_mono (x1 x2 y : R) : 0 < y -> x1 <= x2 -> x1 / y <= x2 / y.
Proof.
  intros Hy Hx. assert (Hinv : 0 < / y) by now apply Rinv_0_lt_compat.
  unfold Rdiv. nra.
Qed.

Lemma Rdiv_lt_mono (x1 x2 y : R) : 0 < y -> x1 < x2 -> x1 / y < x2 / y.
Proof.
  intros Hy Hx. assert (Hinv : 0 < / y) by now apply Rinv_0_lt_compat.
  unfold Rdiv. nra.
Qed.

Lemma V3_freq_func_hold (cfg : Config) (t : R) :
  well_formed cfg -> RAMP_TIME cfg <= t ->
  V3.freq_func cfg t = BASE_FREQ cfg.
Proof.
  intros W Ht. pose proof (wf_ramp_time cfg W) as Hr.
  unfold V3.freq_func.
  destruct (Rleb_spec t (RAMP_TIME cfg)) as [[Hle ->] | [_ ->]]; [| reflexivity].
  assert (t = RAMP_TIME cfg) by lra. subst t. field. lra.
Qed.

(** The frequency ramp starts at 0 Hz, rises linearly without ever
    decreasing, stays within [[0, BASE_FREQ]] for [t >= 0] and holds
    [BASE_FREQ] from [t = RAMP_TIME] on. *)
Theorem freq_func_ramp (cfg : Config) :
  well_formed cfg ->
  V3.freq_func cfg 0 = 0 /\
  (forall t, RAMP_TIME cfg <= t -> V3.freq_func cfg t = BASE_FREQ cfg) /\
  (forall t, 0 <= t -> 0 <= V3.freq_func cfg t <= BASE_FREQ cfg) /\
  (forall t1 t2, t1 <= t2 -> V3.freq_func cfg t1 <= V3.freq_func cfg t2) /\
  (forall t, V2.freq_func cfg t = V3.freq_func cfg t /\
     V4.vfd_freq_func cfg t (RAMP_TIME cfg) = V3.freq_func cfg t).
Proof.
  intros W.
  pose proof (wf_ramp_time cfg W) as Hr. pose proof (wf_base_freq cfg W) as Hb.
  split; [now apply V3_freq_func_zero |].
  split; [intros t Ht; now apply V3_freq_func_hold |].
  split.
  { intros t Ht. split; [| now apply V3_freq_func_le_base].
    unfold V3.freq_func.
    destruct (Rleb t (RAMP_TIME cfg)); [| lra].
    pose proof (Rdiv_nonneg t (RAMP_TIME cfg) Ht Hr). nra. }
  split.
  { intros t1 t2 Hle. unfold V3.freq_func.
    destruct (Rleb_spec t1 (RAMP_TIME cfg)) as [[H1 ->] | [H1 ->]];
      destruct (Rleb_spec t2 (RAMP_TIME cfg)) as [[H2 ->] | [H2 ->]];
      try lra.
    - pose proof (Rdiv_le_mono t1 t2 (RAMP_TIME cfg) Hr Hle). nra.
    - pose proof (Rdiv_le_1 t1 (RAMP_TIME cfg) Hr H1). nra. }
  intros t. split; reflexivity.
Qed.

Lemma freq_func_ramp_witness :
  V3.freq_func default_config 0 = 0 /\
  (forall t, RAMP_TIME default_config <= t ->
     V3.freq_func default_config t = BASE_FREQ default_config).
Proof.
  destruct (freq_func_ramp default_config) as [H0 [H1 _]].
  - constructor; simpl; lra.
  - split; [exact H0 | exact H1].
Defined.

(** In the boost window the set-point voltage is affine in the
    frequency with slope [(1 - 10 * V_BOOST) * VOLTAGE / BASE_FREQ]. *)
Lemma V3_voltage_func_boost_window (cfg : Config) (freq : R) :
  well_formed cfg -> freq < BASE_FREQ cfg * 0.1 ->
  V3.voltage_func cfg freq =
  VOLTAGE cfg * (V_BOOST cfg + (1 - 10 * V_BOOST cfg) * (freq / BASE_FREQ cfg)).
Proof.
  intros W Hf. pose proof (wf_base_freq cfg W) as HB.
  unfold V3.voltage_func. rewrite (Rltb_true _ _ Hf).
  replace (BASE_FREQ cfg * 0.1) with (BASE_FREQ cfg / 10) by lra.
  field. lra.
Qed.

Lemma V3_voltage_func_vf_region (cfg : Config) (freq : R) :
  BASE_FREQ cfg * 0.1 <= freq ->
  V3.voltage_func cfg freq = VOLTAGE cfg * (freq / BASE_FREQ cfg).
Proof.
  intros Hf. unfold V3.voltage_func. now rewrite (Rltb_false _ _ Hf).
Qed.

Lemma freq_ratio_bounds (cfg : Config) (freq : R) :
  well_formed cfg -> 0 <= freq <= BASE_FREQ cfg ->
  0 <= freq / BASE_FREQ cfg <= 1.
Proof.
  intros W [H0 H1]. pose proof (wf_base_freq cfg W) as HB.
  split; [now apply Rdiv_nonneg | now apply Rdiv_le_1].
Qed.

Lemma V3_voltage_func_within_line (cfg : Config) (freq : R) :
  well_formed cfg -> V_BOOST cfg <= 1 -> 0 <= freq <= BASE_FREQ cfg ->
  0 <= V3.voltage_func cfg freq <= VOLTAGE cfg.
Proof.
  intros W Hb1 Hf.
  pose proof (wf_voltage cfg W) as HV. pose proof (wf_base_freq cfg W) as HB.
  pose proof (wf_boost cfg W) as Hb0.
  pose proof (freq_ratio_bounds cfg freq W Hf) as Hx.
  destruct (Rlt_dec freq (BASE_FREQ cfg * 0.1)) as [Hlow | Hhigh].
  - rewrite (V3_voltage_func_boost_window cfg freq W Hlow).
    assert (Hx10 : freq / BASE_FREQ cfg < 0.1).
    { apply (Rmult_lt_reg_r (BASE_FREQ cfg)); [exact HB |].
      replace (freq / BASE_FREQ cfg * BASE_FREQ cfg) with freq by (field; lra).
      lra. }
    set (x := freq / BASE_FREQ cfg) in *.
    assert (Hexp : V_BOOST cfg + (1 - 10 * V_BOOST cfg) * x
                   = x + V_BOOST cfg * (1 - 10 * x)) by ring.
    rewrite Hexp.
    assert (Hy : 0 <= V_BOOST cfg * (1 - 10 * x) <= 1 - 10 * x) by nra.
    split; nra.
  - rewrite V3_voltage_func_vf_region by lra.
    set (x := freq / BASE_FREQ cfg) in *. split; nra.
Qed.

(** The volts-per-hertz law: the set-point voltage is [V_BOOST * VOLTAGE]
    at 0 Hz, the boost has vanished at 10 % of base frequency (the two
    branches meet there), the full line voltage is reached at base
    frequency, and with a boost fraction of at most 1 the set-point stays
    within [[0, VOLTAGE]] over the whole ramp. *)
Theorem voltage_func_range (cfg : Config) :
  well_formed cfg -> V_BOOST cfg <= 1 ->
  V3.voltage_func cfg 0 = VOLTAGE cfg * V_BOOST cfg /\
  V3.voltage_func cfg (BASE_FREQ cfg * 0.1) = VOLTAGE cfg * 0.1 /\
  (forall freq, freq < BASE_FREQ cfg * 0.1 ->
     Rabs (V3.voltage_func cfg freq - VOLTAGE cfg * 0.1)
     = VOLTAGE cfg * Rabs (V_BOOST cfg - 0.1)
       * (1 - 10 * (freq / BASE_FREQ cfg))) /\
  V3.voltage_func cfg (BASE_FREQ cfg) = VOLTAGE cfg /\
  (forall freq, 0 <= freq <= BASE_FREQ cfg ->
     0 <= V3.voltage_func cfg freq <= VOLTAGE cfg) /\
  (forall freq, V4.vfd_voltage_func cfg freq = V3.voltage_func cfg freq).
Proof.
  intros W Hb1.
  pose proof (wf_voltage cfg W) as HV. pose proof (wf_base_freq cfg W) as HB.
  pose proof (wf_boost cfg W) as Hb0.
  split.
  { rewrite V3_voltage_func_boost_window by (try exact W; lra).
    unfold Rdiv. ring. }
  split.
  { rewrite V3_voltage_func_vf_region by lra. field. lra. }
  split.
  { intros freq Hf.
    rewrite (V3_voltage_func_boost_window cfg freq W Hf).
    assert (Hx : freq / BASE_FREQ cfg < 0.1).
    { apply (Rmult_lt_reg_r (BASE_FREQ cfg)); [exact HB |].
      replace (freq / BASE_FREQ cfg * BASE_FREQ cfg) with freq by (field; lra).
      lra. }
    set (x := freq / BASE_FREQ cfg) in *.
    replace (VOLTAGE cfg * (V_BOOST cfg + (1 - 10 * V_BOOST cfg) * x)
             - VOLTAGE cfg * 0.1)
      with (VOLTAGE cfg * ((V_BOOST cfg - 0.1) * (1 - 10 * x))) by lra.
    rewrite !Rabs_mult.
    rewrite (Rabs_right (VOLTAGE cfg)) by lra.
    rewrite (Rabs_right (1 - 10 * x)) by lra. ring. }
  split.
  { rewrite V3_voltage_func_vf_region by lra. field. lra. }
  split; [| intros freq; reflexivity].
  intros freq Hf. now apply V3_voltage_func_within_line.
Qed.

Lemma voltage_func_range_witness :
  V3.voltage_func default_config 0
  = VOLTAGE default_config * V_BOOST default_config /\
  V3.voltage_func default_config (BASE_FREQ default_config)
  = VOLTAGE default_config.
Proof.
  destruct (voltage_func_range default_config) as [H0 [_ [_ [H1 _]]]].
  - constructor; simpl; lra.
  - simpl; lra.
  - split; [exact H0 | exact H1].
Defined.

(** With a boost fraction above 10 % (the scripts use 15 %) the
    set-point voltage strictly falls while the frequency rises through the
    boost window [[0, 0.1 * BASE_FREQ]]; outside the window, and everywhere
    when the boost fraction is at most 10 %, it never falls. *)
Theorem voltage_func_dips_in_boost_window (cfg : Config) :
  well_formed cfg ->
  (0.1 < V_BOOST cfg ->
   forall f1 f2, f1 < f2 -> f2 <= BASE_FREQ cfg * 0.1 ->
     V3.voltage_func cfg f2 < V3.voltage_func cfg f1) /\
  (forall f1 f2, BASE_FREQ cfg * 0.1 <= f1 -> f1 <= f2 ->
     V3.voltage_func cfg f1 <= V3.voltage_func cfg f2) /\
  (V_BOOST cfg <= 0.1 ->
   forall f1 f2, f1 <= f2 ->
     V3.voltage_func cfg f1 <= V3.voltage_func cfg f2).
Proof.
  intros W.
  pose proof (wf_voltage cfg W) as HV. pose proof (wf_base_freq cfg W) as HB.
  pose proof (wf_boost cfg W) as Hb0.
  assert (Hmono : forall f1 f2, f1 <= f2 ->
            f1 / BASE_FREQ cfg <= f2 / BASE_FREQ cfg).
  { intros f1 f2 H. now apply Rdiv_le_mono. }
  assert (Hsmono : forall f1 f2, f1 < f2 ->
            f1 / BASE_FREQ cfg < f2 / BASE_FREQ cfg).
  { intros f1 f2 H. now apply Rdiv_lt_mono. }
  assert (Hten : forall f, f < BASE_FREQ cfg * 0.1 ->
            f / BASE_FREQ cfg < 0.1).
  { intros f Hf. apply (Rmult_lt_reg_r (BASE_FREQ cfg)); [exact HB |].
    replace (f / BASE_FREQ cfg * BASE_FREQ cfg) with f by (field; lra). lra. }
  assert (Hten' : forall f, BASE_FREQ cfg * 0.1 <= f ->
            0.1 <= f / BASE_FREQ cfg).
  { intros f Hf. apply (Rmult_le_reg_r (BASE_FREQ cfg)); [exact HB |].
    replace (f / BASE_FREQ cfg * BASE_FREQ cfg) with f by (field; lra). lra. }
  split; [| split].
  - intros Hb f1 f2 H12 H2.
    rewrite (V3_voltage_func_boost_window cfg f1 W) by lra.
    pose proof (Hsmono f1 f2 H12) as Hx.
    destruct (Rlt_dec f2 (BASE_FREQ cfg * 0.1)) as [Hlow | Hat].
    + rewrite (V3_voltage_func_boost_window cfg f2 W Hlow).
      set (x1 := f1 / BASE_FREQ cfg) in *. set (x2 := f2 / BASE_FREQ cfg) in *.
      apply Rmult_lt_compat_l; [exact HV |]. nra.
    + rewrite V3_voltage_func_vf_region by lra.
      assert (E : f2 / BASE_FREQ cfg = 0.1).
      { replace f2 with (BASE_FREQ cfg * 0.1) by lra. field. lra. }
      rewrite E in *.
      pose proof (Hten f1 ltac:(lra)) as Hx1.
      set (x1 := f1 / BASE_FREQ cfg) in *.
      apply Rmult_lt_compat_l; [exact HV |]. nra.
  - intros f1 f2 H1 H12.
    rewrite !V3_voltage_func_vf_region by lra.
    pose proof (Hmono f1 f2 H12). nra.
  - intros Hb f1 f2 H12.
    pose proof (Hmono f1 f2 H12) as Hx.
    destruct (Rlt_dec f1 (BASE_FREQ cfg * 0.1)) as [L1 | L1];
      destruct (Rlt_dec f2 (BASE_FREQ cfg * 0.1)) as [L2 | L2].
    + rewrite !V3_voltage_func_boost_window by assumption.
      set (x1 := f1 / BASE_FREQ cfg) in *. set (x2 := f2 / BASE_FREQ cfg) in *.
      apply Rmult_le_compat_l; [lra |]. nra.
    + rewrite (V3_voltage_func_boost_window cfg f1 W L1).
      rewrite V3_voltage_func_vf_region by lra.
      pose proof (Hten f1 L1) as Hx1. pose proof (Hten' f2 ltac:(lra)) as Hx2.
      set (x1 := f1 / BASE_FREQ cfg) in *. set (x2 := f2 / BASE_FREQ cfg) in *.
      apply Rmult_le_compat_l; [lra |]. nra.
    + lra.
    + rewrite !V3_voltage_func_vf_region by lra. nra.
Qed.

Lemma voltage_func_dips_in_boost_window_witness :
  V3.voltage_func default_config 6 < V3.voltage_func default_config 0.
Proof.
  destruct (voltage_func_dips_in_boost_window default_config) as [H _].
  - constructor; simpl; lra.
  - apply H; simpl; lra.
Defined.

Lemma soft_start_voltage_ramp_form (cfg : Config) (t ramp_time : R) :
  t <= ramp_time ->
  V4.soft_start_voltage_func cfg t ramp_time =
  VOLTAGE cfg * (SOFT_START_INITIAL_VOLTAGE cfg
                 + (1 - SOFT_START_INITIAL_VOLTAGE cfg) * (t / ramp_time)).
Proof.
  intros Ht. unfold V4.soft_start_voltage_func. now rewrite (Rleb_true _ _ Ht).
Qed.

Lemma soft_start_voltage_hold (cfg : Config) (t ramp_time : R) :
  0 < ramp_time -> ramp_time <= t ->
  V4.soft_start_voltage_func cfg t ramp_time = VOLTAGE cfg.
Proof.
  intros Hr Ht. unfold V4.soft_start_voltage_func.
  destruct (Rleb_spec t ramp_time) as [[Hle ->] | [_ ->]]; [| reflexivity].
  assert (t = ramp_time) by lra. subst t.
  replace (ramp_time / ramp_time) with 1 by (field; lra). ring.
Qed.

Lemma soft_start_voltage_bounds (cfg : Config) (t ramp_time : R) :
  well_formed cfg -> 0 < ramp_time -> 0 <= t ->
  VOLTAGE cfg * SOFT_START_INITIAL_VOLTAGE cfg
  <= V4.soft_start_voltage_func cfg t ramp_time <= VOLTAGE cfg.
Proof.
  intros W Hr Ht.
  pose proof (wf_voltage cfg W) as HV.
  pose proof (wf_initial_voltage cfg W) as [Hi0 Hi1].
  set (v0 := SOFT_START_INITIAL_VOLTAGE cfg) in *.
  destruct (Rle_dec t ramp_time) as [Hle | Hgt].
  - rewrite (soft_start_voltage_ramp_form cfg t ramp_time Hle). fold v0.
    pose proof (Rdiv_nonneg t ramp_time Ht Hr) as Hq0.
    pose proof (Rdiv_le_1 t ramp_time Hr Hle) as Hq1.
    set (q := t / ramp_time) in *.
    assert (Hmid : 0 <= (1 - v0) * q <= 1 - v0) by nra.
    split; nra.
  - rewrite soft_start_voltage_hold by lra. split; nra.
Qed.

Lemma soft_start_voltage_mono (cfg : Config) (t1 t2 ramp_time : R) :
  well_formed cfg -> 0 < ramp_time -> t1 <= t2 ->
  V4.soft_start_voltage_func cfg t1 ramp_time
  <= V4.soft_start_voltage_func cfg t2 ramp_time.
Proof.
  intros W Hr H12.
  pose proof (wf_voltage cfg W) as HV.
  pose proof (wf_initial_voltage cfg W) as [Hi0 Hi1].
  set (v0 := SOFT_START_INITIAL_VOLTAGE cfg) in *.
  destruct (Rle_dec t2 ramp_time) as [H2 | H2].
  - rewrite !soft_start_voltage_ramp_form by lra. fold v0.
    pose proof (Rdiv_le_mono t1 t2 ramp_time Hr H12) as Hq.
    apply Rmult_le_compat_l; [lra |]. nra.
  - rewrite (soft_start_voltage_hold cfg t2) by lra.
    destruct (Rle_dec t1 ramp_time) as [H1 | H1].
    + rewrite (soft_start_voltage_ramp_form cfg t1 ramp_time H1). fold v0.
      pose proof (Rdiv_le_1 t1 ramp_time Hr H1) as Hq1.
      set (q := t1 / ramp_time) in *.
      assert (Hmid : (1 - v0) * q <= 1 - v0) by nra.
      nra.
    + rewrite soft_start_voltage_hold by lra. lra.
Qed.

(** The soft-starter voltage ramp starts at the initial fraction of the
    line voltage, never decreases, stays between the initial and the full
    line voltage for [t >= 0], and holds the full line voltage from the
    end of the ramp on. *)
Theorem soft_start_voltage_ramp (cfg : Config) (ramp_time : R) :
  well_formed cfg -> 0 < ramp_time ->
  V4.soft_start_voltage_func cfg 0 ramp_time
    = VOLTAGE cfg * SOFT_START_INITIAL_VOLTAGE cfg /\
  (forall t, ramp_time <= t ->
     V4.soft_start_voltage_func cfg t ramp_time = VOLTAGE cfg) /\
  (forall t, 0 <= t ->
     VOLTAGE cfg * SOFT_START_INITIAL_VOLTAGE cfg
     <= V4.soft_start_voltage_func cfg t ramp_time <= VOLTAGE cfg) /\
  (forall t1 t2, t1 <= t2 ->
     V4.soft_start_voltage_func cfg t1 ramp_time
     <= V4.soft_start_voltage_func cfg t2 ramp_time).
Proof.
  intros W Hr.
  split.
  { rewrite soft_start_voltage_ramp_form by lra. unfold Rdiv. ring. }
  split; [intros t Ht; now apply soft_start_voltage_hold |].
  split; [intros t Ht; now apply soft_start_voltage_bounds |].
  intros t1 t2 H12. now apply soft_start_voltage_mono.
Qed.

Lemma soft_start_voltage_ramp_witness :
  V4.soft_start_voltage_func default_config 0 20
  = VOLTAGE default_config * SOFT_START_INITIAL_VOLTAGE default_config.
Proof.
  refine (proj1 (soft_start_voltage_ramp default_config 20 _ _)).
  - constructor; simpl; lra.
  - lra.
Defined.

(** ** Slip as reported by the three post-processing loops *)

Lemma clipped_percent (x : R) : 0 <= np_clip x 0 1 * 100 <= 100.
Proof. pose proof (np_clip_bounds x). lra. Qed.

(** Whatever the rotor speed and the time, also above synchronous speed,
    below standstill and at 0 Hz, the slip reported by the v2, v3 and v4
    loops lies between 0 and 100 %. *)
Theorem reported_slip_within_0_100
    (cfg : Config) (t omega_rad : R) (method : string) (ramp_time : R) :
  well_formed cfg -> 0 < ramp_time ->
  0 <= V2.slip_pct (V2.metrics_row cfg t omega_rad) <= 100 /\
  0 <= V3.slip_pct (V3.metrics_row cfg t omega_rad) <= 100 /\
  0 <= V4.slip (V4.metrics_row cfg t omega_rad method ramp_time) <= 100.
Proof.
  intros _ _. replace 1.0 with 1 by lra.
  split; [| split].
  - unfold V2.metrics_row. replace 1.0 with 1 by lra.
    destruct (Rleb 0.5 (V2.freq_func cfg t)); simpl;
      [apply clipped_percent | lra].
  - unfold V3.metrics_row. replace 1.0 with 1 by lra.
    destruct (Rleb 0.5 (V3.freq_func cfg t)); simpl;
      [apply clipped_percent | lra].
  - unfold V4.metrics_row, V4.active_row. replace 1.0 with 1 by lra.
    destruct (String.eqb method "vfd").
    + destruct (Rltb (V4.vfd_freq_func cfg t ramp_time) 0.5); simpl;
        [lra | apply clipped_percent].
    + simpl. apply clipped_percent.
Qed.

Lemma reported_slip_within_0_100_witness :
  0 <= V3.slip_pct (V3.metrics_row default_config 15 400) <= 100.
Proof.
  refine (proj1 (proj2 (reported_slip_within_0_100 default_config 15 400
                          "vfd" 30 _ _))).
  - constructor; simpl; lra.
  - lra.
Defined.

(** ** Load torque model, continued *)

Lemma clamp01_id (x : R) : 0 <= x <= 1 -> Rmax 0 (Rmin x 1) = x.
Proof.
  intros H. unfold Rmin, Rmax.
  destruct (Rle_dec x 1); destruct (Rle_dec 0 _); lra.
Qed.

Lemma clamp01_idem (x : R) :
  Rmax 0 (Rmin (Rmax 0 (Rmin x 1)) 1) = Rmax 0 (Rmin x 1).
Proof. apply clamp01_id, clamp01_bounds. Qed.

Lemma clamp01_high (x : R) : 1 <= x -> Rmax 0 (Rmin x 1) = 1.
Proof.
  intros H. unfold Rmin, Rmax.
  destruct (Rle_dec x 1); destruct (Rle_dec 0 _); lra.
Qed.

Lemma clamp01_mono (x y : R) :
  x <= y -> Rmax 0 (Rmin x 1) <= Rmax 0 (Rmin y 1).
Proof.
  intros H.
  pose proof (clamp01_bounds x) as Hx. pose proof (clamp01_bounds y) as Hy.
  destruct (Rle_dec x 0) as [X0 | X0].
  { rewrite (clamp01_low x X0). lra. }
  destruct (Rle_dec 1 y) as [Y1 | Y1].
  { rewrite (clamp01_high y Y1). lra. }
  rewrite (clamp01_id x), (clamp01_id y); lra.
Qed.

(** [get_load_torque] sees its speed ratio only through the clamp to
    [[0,1]]: an overshooting or negative ratio gives the same torque as
    the clamped one.  At or above synchronous speed every load type asks
    for exactly the base torque; at or below standstill the constant
    torque load (and the fallback) asks for 30 % of it, the fan or pump
    load for none, and the constant power load for all of it. *)
Theorem get_load_torque_clamped (r base : R) (load_type : string) :
  get_load_torque r base load_type
    = get_load_torque (Rmax 0 (Rmin r 1)) base load_type /\
  (1 <= r -> get_load_torque r base load_type = base) /\
  (r <= 0 ->
     get_load_torque r base "fan_pump" = 0 /\
     get_load_torque r base "constant_power" = base /\
     (load_type <> "fan_pump"%string ->
      load_type <> "constant_power"%string ->
      get_load_torque r base load_type = base * 0.3)).
Proof.
  split; [| split].
  - unfold get_load_torque. replace 1.0 with 1 by lra.
    now rewrite clamp01_idem.
  - intros Hr. unfold get_load_torque. replace 1.0 with 1 by lra.
    rewrite (clamp01_high r Hr).
    destruct (String.eqb load_type "constant_torque"); [lra |].
    destruct (String.eqb load_type "fan_pump"); [lra |].
    destruct (String.eqb load_type "constant_power"); [| lra].
    rewrite Rltb_false by lra. lra.
  - intros Hr. split; [now apply get_load_torque_fan_pump_standstill |].
    split.
    + unfold get_load_torque. simpl. replace 1.0 with 1 by lra.
      rewrite (clamp01_low r Hr). rewrite Rltb_true by lra. lra.
    + intros Hfan Hcp. unfold get_load_torque. replace 1.0 with 1 by lra.
      rewrite (clamp01_low r Hr).
      destruct (String.eqb load_type "constant_torque"); [lra |].
      destruct (String.eqb_spec load_type "fan_pump"); [contradiction |].
      destruct (String.eqb_spec load_type "constant_power");
        [contradiction | lra].
Qed.

(** With a non-negative base torque, the constant torque load (and the
    fallback) and the fan or pump load never ask for less torque at a
    higher speed ratio. *)
Theorem get_load_torque_monotone (r1 r2 base : R) (load_type : string) :
  0 <= base -> r1 <= r2 ->
  load_type <> "constant_power"%string ->
  get_load_torque r1 base load_type <= get_load_torque r2 base load_type.
Proof.
  intros Hb Hr Hcp. unfold get_load_torque. replace 1.0 with 1 by lra.
  pose proof (clamp01_mono r1 r2 Hr) as Hq.
  pose proof (clamp01_bounds r1) as H1. pose proof (clamp01_bounds r2) as H2.
  set (q1 := Rmax 0 (Rmin r1 1)) in *. set (q2 := Rmax 0 (Rmin r2 1)) in *.
  destruct (String.eqb load_type "constant_torque"); [nra |].
  destruct (String.eqb load_type "fan_pump").
  { assert (Hsq : q1 ^ 2 <= q2 ^ 2) by nra. nra. }
  destruct (String.eqb_spec load_type "constant_power"); [contradiction | nra].
Qed.

Lemma get_load_torque_monotone_witness :
  get_load_torque 0.2 100 "fan_pump" <= get_load_torque 0.7 100 "fan_pump".
Proof.
  apply (get_load_torque_monotone 0.2 0.7 100 "fan_pump"); try lra.
  discriminate.
Defined.

(** The constant power load is not continuous in the speed ratio: below
    a ratio of 0.1 it asks for the base torque, at 0.1 it jumps to ten
    times the base torque, and from there it falls as [base / ratio] down
    to the base torque at synchronous speed. *)
Theorem constant_power_load_jumps_at_floor (r base : R) :
  0 <= base ->
  (r < 0.1 -> get_load_torque r base "constant_power" = base) /\
  get_load_torque 0.1 base "constant_power" = 10 * base /\
  (0.1 <= r <= 1 -> get_load_torque r base "constant_power" = base / r) /\
  (forall r1 r2, 0.1 <= r1 -> r1 <= r2 ->
     get_load_torque r2 base "constant_power"
     <= get_load_torque r1 base "constant_power").
Proof.
  intros Hb.
  assert (Hform : forall x, 0.1 <= x ->
            get_load_torque x base "constant_power"
            = base / Rmax 0 (Rmin x 1)).
  { intros x Hx. unfold get_load_torque. simpl. replace 1.0 with 1 by lra.
    pose proof (clamp01_mono 0.1 x Hx) as Hm.
    assert (H01 : Rmax 0 (Rmin 0.1 1) = 0.1).
    { unfold Rmax, Rmin.
      destruct (Rle_dec 0.1 1); destruct (Rle_dec 0 _); lra. }
    rewrite H01 in Hm.
    rewrite Rltb_false by exact Hm. lra. }
  assert (Hid : forall x, 0 <= x <= 1 -> Rmax 0 (Rmin x 1) = x).
  { intros x Hx. unfold Rmax, Rmin.
    destruct (Rle_dec x 1); destruct (Rle_dec 0 _); lra. }
  split; [| split; [| split]].
  - intros Hr. unfold get_load_torque. simpl. replace 1.0 with 1 by lra.
    assert (Hq : Rmax 0 (Rmin r 1) < 0.1).
    { unfold Rmax, Rmin.
      destruct (Rle_dec r 1); destruct (Rle_dec 0 _); lra. }
    rewrite (Rltb_true _ _ Hq). lra.
  - rewrite Hform by lra. rewrite Hid by lra. lra.
  - intros Hr. rewrite Hform by lra. rewrite Hid by lra. reflexivity.
  - intros r1 r2 H1 H12. rewrite !Hform by lra.
    pose proof (clamp01_mono r1 r2 H12) as Hm.
    pose proof (clamp01_mono 0.1 r1 H1) as Hlo.
    rewrite (Hid 0.1) in Hlo by lra.
    set (q1 := Rmax 0 (Rmin r1 1)) in *. set (q2 := Rmax 0 (Rmin r2 1)) in *.
    assert (Hinv : / q2 <= / q1) by (apply Rinv_le_contravar; lra).
    unfold Rdiv. nra.
Qed.

Lemma constant_power_load_jumps_at_floor_witness :
  get_load_torque 0.1 100 "constant_power" = 10 * 100.
Proof.
  refine (proj1 (proj2 (constant_power_load_jumps_at_floor 0.05 100 _))).
  lra.
Defined.

(** ** Rated quantities *)

Lemma line_power_at_FLA (cfg : Config) :
  well_formed cfg ->
  sqrt 3 * VOLTAGE cfg * FLA cfg * POWER_FACTOR cfg / 1000
  = POWER_KW cfg / EFFICIENCY cfg.
Proof.
  intros W. pose proof sqrt3_pos. pose proof (wf_voltage cfg W).
  pose proof (wf_power_factor cfg W). pose proof (wf_efficiency cfg W).
  unfold FLA. field. repeat split; lra.
Qed.

Lemma line_voltage_power_scaled (cfg : Config) (row : V3.Row) :
  well_formed cfg ->
  line_voltage_power cfg row
  = POWER_KW cfg / EFFICIENCY cfg * (V3.current row / FLA cfg).
Proof.
  intros W. pose proof (FLA_pos cfg W) as HF.
  rewrite <- (line_power_at_FLA cfg W). unfold line_voltage_power.
  field. lra.
Qed.

(** The derived ratings fit together: rated torque times rated speed
    (97 % of synchronous speed) is the rated shaft power; synchronous speed
    converted back to RPM is [SYNC_SPEED_RPM]; the line power drawn at
    full-load current is the rated power divided by the efficiency; and so
    the input power of every v3 sample is that rated input power times
    the current in units of the full-load current. *)
Theorem rated_quantities_consistent (cfg : Config) (t omega_rad : R) :
  well_formed cfg ->
  RATED_TORQUE cfg * (SYNC_SPEED_RAD cfg * (1 - 0.03)) = POWER_KW cfg * 1000 /\
  V3_summary.omega_rpm (SYNC_SPEED_RAD cfg) = SYNC_SPEED_RPM cfg /\
  sqrt 3 * VOLTAGE cfg * FLA cfg * POWER_FACTOR cfg / 1000
    = POWER_KW cfg / EFFICIENCY cfg /\
  V3.power_input (V3.metrics_row cfg t omega_rad)
    = POWER_KW cfg / EFFICIENCY cfg
      * (V3.current (V3.metrics_row cfg t omega_rad) / FLA cfg).
Proof.
  intros W. pose proof (SYNC_SPEED_RAD_pos cfg W) as HS.
  pose proof PI_RGT_0 as Hpi.
  split; [unfold RATED_TORQUE; field; lra |].
  split.
  { unfold V3_summary.omega_rpm, SYNC_SPEED_RAD. field. lra. }
  split; [now apply line_power_at_FLA |].
  rewrite V3_row_power_input. now apply line_voltage_power_scaled.
Qed.

Lemma rated_quantities_consistent_witness :
  RATED_TORQUE default_config * (SYNC_SPEED_RAD default_config * (1 - 0.03))
  = POWER_KW default_config * 1000.
Proof.
  refine (proj1 (rated_quantities_consistent default_config 0 0 _)).
  constructor; simpl; lra.
Defined.

(** ** Torque and current reported by the v3 loop *)

Lemma torque_ratio_below_cap (s : R) : 0 <= s -> torque_ratio s <= 3.5.
Proof.
  intros Hs. pose proof (torque_ratio_max s Hs).
  pose proof torque_ratio_peak_value. lra.
Qed.

Lemma boost_factor_upper (cfg : Config) (freq k : R) :
  well_formed cfg -> 0 < k -> 0 <= freq ->
  1 + V_BOOST cfg * (1 - freq / (BASE_FREQ cfg * k)) <= 1 + V_BOOST cfg.
Proof.
  intros W Hk Hf. pose proof (wf_boost cfg W) as Hb.
  pose proof (wf_base_freq cfg W) as HB.
  assert (Hden : 0 < BASE_FREQ cfg * k) by nra.
  pose proof (Rdiv_nonneg freq _ Hf Hden). nra.
Qed.

(** The rational-curve torque with V/f scaling and boost, as both the
    v3 and the v4 loop compute it, for a clamped slip and a frequency in
    [[0, BASE_FREQ]]. *)
Lemma scaled_torque_bounds (cfg : Config) (freq s : R) :
  well_formed cfg -> 0 <= freq <= BASE_FREQ cfg -> 0 <= s <= 1 ->
  0 <= (if Rltb freq (BASE_FREQ cfg * 0.15)
        then RATED_TORQUE cfg * torque_ratio s * (freq / BASE_FREQ cfg)
             * (1 + V_BOOST cfg * (1 - freq / (BASE_FREQ cfg * 0.15)))
        else RATED_TORQUE cfg * torque_ratio s * (freq / BASE_FREQ cfg))
    <= RATED_TORQUE cfg * (3.5 * (1 + V_BOOST cfg)).
Proof.
  intros W Hf [Hs0 Hs1].
  pose proof (RATED_TORQUE_pos cfg W) as HR. pose proof (wf_boost cfg W) as Hb.
  pose proof (torque_ratio_nonneg s Hs0) as Hr0.
  pose proof (torque_ratio_below_cap s Hs0) as Hr1.
  pose proof (freq_ratio_bounds cfg freq W Hf) as [Hq0 Hq1].
  set (q := freq / BASE_FREQ cfg) in *. set (rho := torque_ratio s) in *.
  assert (Hrq : 0 <= rho * q <= 3.5) by nra.
  assert (Hbase : 0 <= RATED_TORQUE cfg * rho * q
                  <= RATED_TORQUE cfg * 3.5).
  { rewrite Rmult_assoc. split; [nra |].
    apply Rmult_le_compat_l; lra. }
  destruct (Rltb_spec freq (BASE_FREQ cfg * 0.15)) as [[Hlow ->] | [_ ->]].
  - pose proof (boost_factor_pos cfg freq 0.15 W ltac:(lra) Hlow) as Hb1.
    pose proof (boost_factor_upper cfg freq 0.15 W ltac:(lra) (proj1 Hf)) as Hb2.
    set (bf := 1 + V_BOOST cfg * (1 - freq / (BASE_FREQ cfg * 0.15))) in *.
    split; [apply Rmult_le_pos; lra |].
    replace (RATED_TORQUE cfg * (3.5 * (1 + V_BOOST cfg)))
      with (RATED_TORQUE cfg * 3.5 * (1 + V_BOOST cfg)) by ring.
    apply Rmult_le_compat; lra.
  - split; [lra |]. nra.
Qed.

Lemma V3_freq_func_nonneg_active (cfg : Config) (t : R) :
  0.5 <= V3.freq_func cfg t -> 0 <= V3.freq_func cfg t.
Proof. lra. Qed.

Lemma V3_row_torque_bounds (cfg : Config) (t omega_rad : R) :
  well_formed cfg ->
  0 <= V3.torque (V3.metrics_row cfg t omega_rad)
    <= RATED_TORQUE cfg * torque_ratio_cap cfg.
Proof.
  intros W.
  pose proof (RATED_TORQUE_pos cfg W) as HR. pose proof (wf_boost cfg W) as Hb.
  assert (Hcap1 : 2.5 * (1 + V_BOOST cfg * 5) <= torque_ratio_cap cfg)
    by apply Rmax_l.
  assert (Hcap2 : 3.5 * (1 + V_BOOST cfg) <= torque_ratio_cap cfg)
    by apply Rmax_r.
  destruct (Rle_dec 0.5 (V3.freq_func cfg t)) as [Hf | Hf].
  - unfold V3.metrics_row. rewrite (Rleb_true _ _ Hf). simpl.
    replace 1.0 with 1 by lra.
    set (slip := np_clip _ 0 1).
    pose proof (np_clip_bounds
                  (if Rltb 0 (sync_speed_rad_at cfg (V3.freq_func cfg t))
                   then (sync_speed_rad_at cfg (V3.freq_func cfg t) - omega_rad)
                        / sync_speed_rad_at cfg (V3.freq_func cfg t)
                   else 1)) as Hs.
    fold slip in Hs.
    destruct (Rltb_spec (V3.freq_func cfg t) 1) as [[Hlow ->] | [Hhigh ->]].
    + unfold V3.startup_torque.
      assert (H1 : 0 <= RATED_TORQUE cfg * 2.5 * slip
                   <= RATED_TORQUE cfg * 2.5) by nra.
      assert (H2 : 0 <= 1 + V_BOOST cfg * 5) by lra.
      split; [apply Rmult_le_pos; lra |].
      apply Rle_trans with (RATED_TORQUE cfg * 2.5 * (1 + V_BOOST cfg * 5)).
      * apply Rmult_le_compat_r; lra.
      * rewrite Rmult_assoc. apply Rmult_le_compat_l; lra.
    + assert (Hrange : 0 <= V3.freq_func cfg t <= BASE_FREQ cfg).
      { split; [lra | now apply V3_freq_func_le_base]. }
      pose proof (scaled_torque_bounds cfg (V3.freq_func cfg t) slip W
                    Hrange Hs) as [Hlo Hhi].
      split; [exact Hlo |].
      apply Rle_trans with (RATED_TORQUE cfg * (3.5 * (1 + V_BOOST cfg)));
        [exact Hhi |].
      apply Rmult_le_compat_l; lra.
  - rewrite V3_inactive_row by lra. simpl.
    split; [lra |].
    apply Rmult_le_pos; [lra |]. lra.
Qed.

Lemma current_from_torque_bound (fla x cap : R) :
  0 < fla -> 0 <= x <= cap ->
  sqrt ((fla * x) ^ 2 + (fla * 0.3) ^ 2) <= fla * sqrt (cap ^ 2 + 0.09).
Proof.
  intros Hf [Hx0 Hx1].
  rewrite <- (sqrt_pow2 fla) at 3 by lra.
  rewrite <- sqrt_mult_alt by (apply pow2_ge_0).
  apply sqrt_le_1_alt.
  assert (Hsq : x ^ 2 <= cap ^ 2) by nra.
  assert (Hf2 : 0 <= fla ^ 2) by apply pow2_ge_0.
  replace ((fla * x) ^ 2 + (fla * 0.3) ^ 2)
    with (fla ^ 2 * (x ^ 2 + 0.09)) by (decimals; field).
  apply Rmult_le_compat_l; lra.
Qed.

Lemma V3_row_current_bounds (cfg : Config) (t omega_rad : R) :
  well_formed cfg ->
  0 <= V3.current (V3.metrics_row cfg t omega_rad)
    <= FLA cfg * sqrt (torque_ratio_cap cfg ^ 2 + 0.09).
Proof.
  intros W.
  pose proof (FLA_pos cfg W) as HF. pose proof (RATED_TORQUE_pos cfg W) as HR.
  pose proof (V3_row_torque_bounds cfg t omega_rad W) as [Ht0 Ht1].
  destruct (Rle_dec 0.5 (V3.freq_func cfg t)) as [Hf | Hf].
  - split.
    + pose proof (V3_active_row_current_floor cfg t omega_rad W Hf). lra.
    + revert Ht0 Ht1. unfold V3.metrics_row. rewrite (Rleb_true _ _ Hf).
      simpl. intros Ht0 Ht1.
      apply current_from_torque_bound; [exact HF |].
      split; [now apply Rdiv_nonneg |].
      apply (Rmult_le_reg_r (RATED_TORQUE cfg)); [exact HR |].
      match goal with |- ?x / _ * _ <= _ =>
        replace (x / RATED_TORQUE cfg * RATED_TORQUE cfg) with x
          by (field; lra) end.
      lra.
  - rewrite V3_inactive_row by lra. simpl. split; [lra |].
    apply Rmult_le_pos; [lra | apply sqrt_pos].
Qed.

Lemma default_like_cap (cfg : Config) :
  0 <= V_BOOST cfg <= 0.15 ->
  sqrt (torque_ratio_cap cfg ^ 2 + 0.09) < 4.4.
Proof.
  intros [Hb0 Hb1].
  assert (Hcap : 0 <= torque_ratio_cap cfg <= 4.375).
  { unfold torque_ratio_cap. split.
    - apply Rle_trans with (2.5 * (1 + V_BOOST cfg * 5)); [lra | apply Rmax_l].
    - apply Rmax_lub; lra. }
  rewrite <- (sqrt_pow2 4.4) by lra.
  apply sqrt_lt_1_alt. split; [nra | nra].
Qed.

(** Every torque the v3 loop reports lies between 0 and
    [torque_ratio_cap] times rated torque, and every current between 0
    and [sqrt(torque_ratio_cap^2 + 0.09)] times the full-load current.
    With a boost fraction of at most 15 % (the scripts' value) the
    reported current is therefore below 4.4 times the full-load current,
    whatever the trajectory: below the 6.5 times of the direct-on-line
    inrush. *)
Theorem v3_torque_and_current_bounded (cfg : Config) (t omega_rad : R) :
  well_formed cfg ->
  0 <= V3.torque (V3.metrics_row cfg t omega_rad)
    <= RATED_TORQUE cfg * torque_ratio_cap cfg /\
  0 <= V3.current (V3.metrics_row cfg t omega_rad)
    <= FLA cfg * sqrt (torque_ratio_cap cfg ^ 2 + 0.09) /\
  (V_BOOST cfg <= 0.15 ->
   V3.current (V3.metrics_row cfg t omega_rad) < 4.4 * FLA cfg /\
   V3.current (V3.metrics_row cfg t omega_rad)
     < V3.dol_current (V3.dol_row cfg 0)).
Proof.
  intros W.
  pose proof (V3_row_current_bounds cfg t omega_rad W) as Hc.
  split; [now apply V3_row_torque_bounds |].
  split; [exact Hc |].
  intros Hb.
  pose proof (default_like_cap cfg (conj (wf_boost cfg W) Hb)) as Hcap.
  pose proof (FLA_pos cfg W) as HF.
  assert (H44 : V3.current (V3.metrics_row cfg t omega_rad) < 4.4 * FLA cfg)
    by nra.
  split; [exact H44 |].
  rewrite dol_row_start. simpl. lra.
Qed.

Lemma v3_torque_and_current_bounded_witness :
  0 <= V3.torque (V3.metrics_row default_config 0.4 0)
    <= RATED_TORQUE default_config * torque_ratio_cap default_config.
Proof.
  refine (proj1 (v3_torque_and_current_bounded default_config 0.4 0 _)).
  constructor; simpl; lra.
Defined.

(** ** The time grid *)

Lemma linspace_length (a b : R) (n : nat) :
  List.length (linspace a b n) = n.
Proof. unfold linspace. now rewrite length_map, length_seq. Qed.

Lemma linspace_last (a b : R) (n : nat) (d : R) :
  (2 <= n)%nat -> last (linspace a b n) d = b.
Proof.
  intros Hn. unfold linspace.
  destruct n as [| m]; [lia |].
  rewrite seq_S, map_app. simpl map. rewrite last_last.
  simpl Nat.add. simpl Nat.sub. rewrite Nat.sub_0_r.
  assert (Hm : 0 < INR m) by (apply lt_0_INR; lia).
  field. lra.
Qed.

Lemma map_seq_sorted (f : nat -> R) (rel : R -> R -> Prop) (n s : nat) :
  (forall i, (s <= i)%nat -> (S i < s + n)%nat -> rel (f i) (f (S i))) ->
  Sorted rel (map f (seq s n)).
Proof.
  revert s. induction n as [| n IH]; intros s Hstep; simpl.
  - constructor.
  - constructor.
    + apply IH. intros i H1 H2. apply Hstep; lia.
    + destruct n as [| n']; simpl; constructor.
      apply Hstep; lia.
Qed.

Lemma linspace_step_nonneg (a b : R) (n : nat) :
  a <= b -> 0 <= (b - a) / INR (n - 1).
Proof.
  intros Hab. destruct (Req_dec_T (INR (n - 1)) 0) as [Hz | Hnz].
  - rewrite Hz. unfold Rdiv. rewrite Rinv_0. lra.
  - pose proof (pos_INR (n - 1)). apply Rdiv_nonneg; lra.
Qed.

Lemma linspace_sorted (a b : R) (n : nat) :
  a <= b -> Sorted Rle (linspace a b n).
Proof.
  intros Hab. unfold linspace. apply map_seq_sorted. intros i _ _.
  pose proof (linspace_step_nonneg a b n Hab).
  rewrite S_INR. nra.
Qed.

Lemma linspace_strictly_sorted (a b : R) (n : nat) :
  a < b -> Sorted Rlt (linspace a b n).
Proof.
  intros Hab. unfold linspace. apply map_seq_sorted. intros i _ Hi.
  simpl in Hi.
  assert (Hn : 0 < INR (n - 1)) by (apply lt_0_INR; lia).
  assert (Hstep : 0 < (b - a) / INR (n - 1)).
  { apply Rdiv_lt_0_compat; lra. }
  rewrite S_INR. nra.
Qed.

(** [np.linspace(a, b, n)] with [a < b] and at least two points has
    exactly [n] points, starts at [a], ends at [b] and is strictly
    increasing; so the v3 time grid has [TIME_POINTS] samples that run
    from 0 to [RAMP_TIME] in increasing order. *)
Theorem linspace_grid (a b : R) (n : nat) :
  a < b -> (2 <= n)%nat ->
  List.length (linspace a b n) = n /\
  hd_error (linspace a b n) = Some a /\
  last (linspace a b n) a = b /\
  Sorted Rlt (linspace a b n) /\
  (forall t, In t (linspace a b n) -> a <= t <= b).
Proof.
  intros Hab Hn.
  split; [apply linspace_length |].
  split.
  { destruct n as [| m]; [lia | apply linspace_head]. }
  split; [now apply linspace_last |].
  split; [now apply linspace_strictly_sorted |].
  intros t Hin. unfold linspace in Hin.
  apply in_map_iff in Hin. destruct Hin as [i [<- Hi]].
  apply in_seq in Hi. destruct Hi as [_ Hi]. simpl in Hi.
  assert (Hpos : 0 < INR (n - 1)) by (apply lt_0_INR; lia).
  assert (Hle : INR i <= INR (n - 1)) by (apply le_INR; lia).
  pose proof (pos_INR i) as Hi0.
  assert (Hq : 0 <= (b - a) / INR (n - 1)) by (apply Rdiv_nonneg; lra).
  split; [nra |].
  apply Rle_trans with (a + INR (n - 1) * ((b - a) / INR (n - 1))).
  - apply Rplus_le_compat_l, Rmult_le_compat_r; assumption.
  - right. field. lra.
Qed.

Lemma linspace_grid_witness :
  List.length (linspace 0 30 1000) = 1000%nat /\
  hd_error (linspace 0 30 1000) = Some 0 /\
  last (linspace 0 30 1000) 0 = 30.
Proof.
  destruct (linspace_grid 0 30 1000) as [H1 [H2 [H3 _]]].
  - lra.
  - apply (Nat.leb_le 2 1000). reflexivity.
  - split; [exact H1 | split; [exact H2 | exact H3]].
Defined.

(** ** Trapezoidal integration and start-up energy *)

Lemma Sorted_Rlt_Rle (l : list R) : Sorted Rlt l -> Sorted Rle l.
Proof.
  induction 1 as [| x l Hs IH Hhd]; constructor; [exact IH |].
  destruct Hhd; constructor. lra.
Qed.

Lemma trapz_bounds (m M : R) :
  forall y x : list R,
  List.length y = List.length x -> Sorted Rle x ->
  Forall (fun v => m <= v <= M) y ->
  m * (last x 0 - hd 0 x) <= trapz y x <= M * (last x 0 - hd 0 x).
Proof.
  induction y as [| y0 ys IH]; intros x Hlen Hs Hy.
  - destruct x; [simpl; lra | discriminate].
  - destruct x as [| x0 xs]; [discriminate |].
    destruct ys as [| y1 ys'].
    + destruct xs; [simpl; lra | discriminate].
    + destruct xs as [| x1 xs']; [discriminate |].
      inversion Hs as [| ? ? Hs' Hhd]; subst.
      inversion Hhd as [| ? ? Hx01]; subst.
      inversion Hy as [| ? ? Hy0 Hy']; subst.
      assert (Hy1 : m <= y1 <= M) by (inversion Hy'; assumption).
      specialize (IH (x1 :: xs') ltac:(simpl in *; lia) Hs' Hy').
      change (trapz (y0 :: y1 :: ys') (x0 :: x1 :: xs'))
        with ((x1 - x0) * (y1 + y0) / 2 + trapz (y1 :: ys') (x1 :: xs')).
      change (last (x0 :: x1 :: xs') 0) with (last (x1 :: xs') 0).
      simpl hd in *.
      assert (Hfirst : m * (x1 - x0) <= (x1 - x0) * (y1 + y0) / 2
                       <= M * (x1 - x0)) by nra.
      lra.
Qed.

Lemma trapz_positive :
  forall y x : list R,
  List.length y = List.length x -> (2 <= List.length y)%nat ->
  Sorted Rlt x -> Forall (fun v => 0 <= v) y -> 0 < last y 0 ->
  0 < trapz y x.
Proof.
  induction y as [| y0 ys IH]; intros x Hlen Hn Hs Hy Hlast.
  - simpl in Hn; lia.
  - destruct x as [| x0 xs]; [discriminate |].
    destruct ys as [| y1 ys']; [simpl in Hn; lia |].
    destruct xs as [| x1 xs']; [discriminate |].
    inversion Hs as [| ? ? Hs' Hhd]; subst.
    inversion Hhd as [| ? ? Hx01]; subst.
    inversion Hy as [| ? ? Hy0 Hy']; subst.
    assert (Hy1 : 0 <= y1) by (inversion Hy'; assumption).
    change (trapz (y0 :: y1 :: ys') (x0 :: x1 :: xs'))
      with ((x1 - x0) * (y1 + y0) / 2 + trapz (y1 :: ys') (x1 :: xs')).
    change (last (y0 :: y1 :: ys') 0) with (last (y1 :: ys') 0) in Hlast.
    destruct ys' as [| y2 ys''].
    + destruct xs'; [| discriminate]. simpl in Hlast. simpl trapz. nra.
    + assert (Hrest : 0 < trapz (y1 :: y2 :: ys'') (x1 :: xs')).
      { apply IH; try assumption; simpl in *; lia. }
      assert (0 <= (x1 - x0) * (y1 + y0) / 2) by nra.
      lra.
Qed.

Lemma last_map_nonempty {A B : Type} (f : A -> B) (l : list A) (d : A) (e : B) :
  l <> [] -> last (map f l) e = f (last l d).
Proof.
  induction l as [| x l IH]; intros Hne; [contradiction |].
  destruct l as [| x' l']; [reflexivity |].
  change (last (map f (x :: x' :: l')) e) with (last (map f (x' :: l')) e).
  change (last (x :: x' :: l') d) with (last (x' :: l') d).
  apply IH. discriminate.
Qed.

Lemma last_combine {A B : Type} (l1 : list A) (l2 : list B) (d1 : A) (d2 : B) :
  List.length l1 = List.length l2 -> l1 <> [] ->
  last (combine l1 l2) (d1, d2) = (last l1 d1, last l2 d2).
Proof.
  revert l2. induction l1 as [| x l1 IH]; intros l2 Hlen Hne; [contradiction |].
  destruct l2 as [| y l2]; [discriminate |].
  destruct l1 as [| x' l1'].
  - destruct l2; [reflexivity | discriminate].
  - destruct l2 as [| y' l2']; [discriminate |].
    change (last (combine (x :: x' :: l1') (y :: y' :: l2')) (d1, d2))
      with (last (combine (x' :: l1') (y' :: l2')) (d1, d2)).
    change (last (x :: x' :: l1') d1) with (last (x' :: l1') d1).
    change (last (y :: y' :: l2') d2) with (last (y' :: l2') d2).
    apply IH; [simpl in *; lia | discriminate].
Qed.

Lemma V3_row_power_input_bounds (cfg : Config) (t omega_rad : R) :
  well_formed cfg ->
  0 <= V3.power_input (V3.metrics_row cfg t omega_rad)
    <= POWER_KW cfg / EFFICIENCY cfg * sqrt (torque_ratio_cap cfg ^ 2 + 0.09).
Proof.
  intros W.
  rewrite V3_row_power_input, (line_voltage_power_scaled cfg _ W).
  pose proof (V3_row_current_bounds cfg t omega_rad W) as [Hc0 Hc1].
  pose proof (FLA_pos cfg W) as HF.
  assert (HP : 0 < POWER_KW cfg / EFFICIENCY cfg).
  { apply Rdiv_lt_0_compat; [| exact (wf_efficiency cfg W)].
    unfold POWER_KW. pose proof (wf_power cfg W). lra. }
  set (i_now := V3.current _) in *.
  assert (Hq0 : 0 <= i_now / FLA cfg) by now apply Rdiv_nonneg.
  assert (Hq1 : i_now / FLA cfg <= sqrt (torque_ratio_cap cfg ^ 2 + 0.09)).
  { apply (Rmult_le_reg_r (FLA cfg)); [exact HF |].
    replace (i_now / FLA cfg * FLA cfg) with i_now by (field; lra). lra. }
  split; [nra |]. apply Rmult_le_compat_l; lra.
Qed.

(** On the v3 time grid with at least two samples and a base frequency
    of at least 0.5 Hz, the start-up energy [np.trapz(power_input_array,
    time)] is strictly positive for every trajectory (the last sample, at
    base frequency, always draws magnetizing current) and at most the
    rated input power times the current bound times the ramp time. *)
Theorem vfd_energy_positive_and_bounded (cfg : Config) (omega_rad : list R) :
  well_formed cfg -> 0.5 <= BASE_FREQ cfg ->
  (2 <= TIME_POINTS cfg)%nat ->
  List.length omega_rad = TIME_POINTS cfg ->
  0 < V3.vfd_energy_kj cfg (V3.time cfg) omega_rad
    <= POWER_KW cfg / EFFICIENCY cfg
       * sqrt (torque_ratio_cap cfg ^ 2 + 0.09) * RAMP_TIME cfg.
Proof.
  intros W Hbase Hn Hlen.
  pose proof (wf_ramp_time cfg W) as Hr.
  pose proof (linspace_length 0 (RAMP_TIME cfg) (TIME_POINTS cfg)) as Htl.
  assert (Hhd : hd_error (linspace 0 (RAMP_TIME cfg) (TIME_POINTS cfg))
                = Some 0).
  { destruct (TIME_POINTS cfg); [lia | apply linspace_head]. }
  pose proof (linspace_last 0 (RAMP_TIME cfg) (TIME_POINTS cfg) 0 Hn) as Hlast.
  pose proof (linspace_strictly_sorted 0 (RAMP_TIME cfg) (TIME_POINTS cfg) Hr)
    as Hsorted.
  fold (V3.time cfg) in Htl, Hhd, Hlast, Hsorted.
  unfold V3.vfd_energy_kj.
  set (time := V3.time cfg) in *.
  set (pin := V3.power_input_array cfg time omega_rad).
  assert (Hcomb : List.length (combine time omega_rad) = TIME_POINTS cfg).
  { rewrite length_combine, Htl, Hlen. apply Nat.min_id. }
  assert (Hpl : List.length pin = List.length time).
  { unfold pin, V3.power_input_array, V3.metrics.
    rewrite !length_map, Hcomb, Htl. reflexivity. }
  assert (Hall : Forall (fun v => 0 <= v <=
             POWER_KW cfg / EFFICIENCY cfg
             * sqrt (torque_ratio_cap cfg ^ 2 + 0.09)) pin).
  { apply Forall_forall. intros v Hin.
    unfold pin, V3.power_input_array, V3.metrics in Hin.
    rewrite map_map in Hin. apply in_map_iff in Hin.
    destruct Hin as [[t w] [<- _]]. simpl.
    now apply V3_row_power_input_bounds. }
  split.
  - apply trapz_positive; try assumption.
    + rewrite Hpl, Htl. exact Hn.
    + eapply Forall_impl; [| exact Hall]. intros v Hv; simpl in Hv; lra.
    + unfold pin, V3.power_input_array, V3.metrics. rewrite map_map.
      assert (Hne : combine time omega_rad <> []).
      { intros E. rewrite E in Hcomb. simpl in Hcomb. lia. }
      rewrite (last_map_nonempty _ _ (0, 0) 0 Hne).
      rewrite last_combine.
      2:{ rewrite Htl, Hlen. reflexivity. }
      2:{ intros E. rewrite E in Htl. simpl in Htl. lia. }
      simpl fst. simpl snd.
      replace (last time 0) with (RAMP_TIME cfg).
      apply V3_active_row_power_input_pos; [exact W |].
      rewrite V3_freq_func_hold by (try exact W; lra). exact Hbase.
  - pose proof (trapz_bounds 0 _ pin time Hpl (Sorted_Rlt_Rle _ Hsorted) Hall)
      as [_ Hub].
    replace (hd 0 time) with 0 in Hub.
    2:{ destruct time; [discriminate | simpl in Hhd |- *; congruence]. }
    replace (last time 0) with (RAMP_TIME cfg) in Hub.
    lra.
Qed.

Lemma vfd_energy_positive_and_bounded_witness :
  0 < V3.vfd_energy_kj three_point_config (V3.time three_point_config)
        [0; 0; 100].
Proof.
  refine (proj1 (vfd_energy_positive_and_bounded three_point_config
                   [0; 0; 100] _ _ _ _)).
  - constructor; simpl; lra.
  - simpl; lra.
  - apply (Nat.leb_le 2 3). reflexivity.
  - reflexivity.
Defined.

(** ** Direct-on-line approximation, continued *)

Lemma exp_neg_half_decreasing (s t : R) :
  s < t -> exp (- t / 2) < exp (- s / 2).
Proof. intros H. apply exp_increasing. lra. Qed.

(** After the first instant the DOL speed rises strictly with time and
    stays below 97 % of the synchronous speed in RPM, while the DOL
    current and torque fall strictly with time, the current staying
    between 1.165 and 6.5 times the full-load current and the torque
    between 1.075 and 3.5 times rated torque. *)
Theorem dol_curves_monotone (cfg : Config) (s t : R) :
  well_formed cfg -> 0 < s -> s < t ->
  (V3.dol_omega (V3.dol_row cfg s) < V3.dol_omega (V3.dol_row cfg t) /\
   0 < V3.dol_omega (V3.dol_row cfg t) < 0.97 * SYNC_SPEED_RPM cfg) /\
  (V3.dol_current (V3.dol_row cfg t) < V3.dol_current (V3.dol_row cfg s) /\
   1.165 * FLA cfg < V3.dol_current (V3.dol_row cfg t) < 6.5 * FLA cfg) /\
  (V3.dol_torque (V3.dol_row cfg t) < V3.dol_torque (V3.dol_row cfg s) /\
   1.075 * RATED_TORQUE cfg < V3.dol_torque (V3.dol_row cfg t)
     < 3.5 * RATED_TORQUE cfg).
Proof.
  intros W Hs Hst.
  pose proof (FLA_pos cfg W) as HF. pose proof (RATED_TORQUE_pos cfg W) as HR.
  assert (HN : 0 < SYNC_SPEED_RPM cfg).
  { unfold SYNC_SPEED_RPM. pose proof (wf_base_freq cfg W).
    pose proof (wf_poles cfg W). apply Rdiv_lt_0_compat; lra. }
  rewrite (dol_row_running cfg s Hs), (dol_row_running cfg t) by lra.
  simpl.
  pose proof (exp_neg_half_decreasing s t Hst) as Hdec.
  pose proof (exp_pos (- t / 2)) as Hp.
  pose proof (exp_neg_half_upper t ltac:(lra)) as Hu.
  set (Es := exp (- s / 2)) in *. set (Et := exp (- t / 2)) in *.
  repeat split; nra.
Qed.

Lemma dol_curves_monotone_witness :
  V3.dol_omega (V3.dol_row default_config 1)
  < V3.dol_omega (V3.dol_row default_config 2).
Proof.
  refine (proj1 (proj1 (dol_curves_monotone default_config 1 2 _ _ _))).
  - constructor; simpl; lra.
  - lra.
  - lra.
Defined.

Lemma dol_current_range (cfg : Config) (t : R) :
  well_formed cfg -> 0 <= t ->
  1.165 * FLA cfg <= V3.dol_current (V3.dol_row cfg t) <= 6.5 * FLA cfg.
Proof.
  intros W Ht. pose proof (FLA_pos cfg W) as HF.
  destruct (Rle_lt_or_eq_dec 0 t Ht) as [Hpos | <-].
  - rewrite (dol_row_running cfg t Hpos). simpl.
    pose proof (exp_pos (- t / 2)). pose proof (exp_neg_half_upper t Hpos).
    set (E := exp (- t / 2)) in *. split; nra.
  - rewrite dol_row_start. simpl. lra.
Qed.

Lemma fold_left_Rmax_dominated (xs : list R) (x : R) :
  Forall (fun v => v <= x) xs -> fold_left Rmax xs x = x.
Proof.
  induction xs as [| v xs IH]; intros H; [reflexivity |].
  inversion H as [| ? ? Hv Hxs]; subst. simpl.
  rewrite (Rmax_left x v Hv). now apply IH.
Qed.

Lemma dol_time_head :
  exists rest, V3.dol_time = 0 :: rest /\ Forall (fun t => 0 <= t) rest.
Proof.
  unfold V3.dol_time, linspace.
  replace (seq 0 500) with (0%nat :: seq 1 499) by reflexivity.
  cbn [map]. eexists. split.
  - f_equal. simpl INR. ring.
  - apply Forall_forall. intros t Hin.
    apply in_map_iff in Hin. destruct Hin as [i [<- _]].
    pose proof (pos_INR i). pose proof (linspace_step_nonneg 0 5 500 ltac:(lra)).
    nra.
Qed.

(** The DOL peak current [np.max(dol_current)] is the inrush value
    [6.5 * FLA] stored for the first sample: no later sample of the
    500-point grid exceeds it. *)
Theorem dol_peak_current_is_inrush (cfg : Config) :
  well_formed cfg ->
  V3_summary.dol_peak_current cfg = Some (FLA cfg * 6.5).
Proof.
  intros W.
  unfold V3_summary.dol_peak_current, V3_summary.dol_current,
    V3.simulate_dol_start.
  cbn [snd].
  destruct dol_time_head as [rest [-> Hrest]].
  cbn [map np_max]. rewrite dol_row_start. cbn [V3.dol_current].
  f_equal. apply fold_left_Rmax_dominated.
  apply Forall_forall. intros v Hin. rewrite map_map in Hin.
  apply in_map_iff in Hin. destruct Hin as [t [<- Ht]].
  rewrite Forall_forall in Hrest.
  pose proof (dol_current_range cfg t W (Hrest t Ht)). lra.
Qed.

Lemma dol_peak_current_is_inrush_witness :
  V3_summary.dol_peak_current default_config
  = Some (FLA default_config * 6.5).
Proof.
  apply (dol_peak_current_is_inrush default_config).
  constructor; simpl; lra.
Defined.

(** The DOL start-up energy [np.trapz(dol_power, dol_time)] over the 5 s
    window lies between 5.825 and 32.5 times the rated input power
    [POWER_KW / EFFICIENCY] (in kJ). *)
Theorem dol_energy_bounds (cfg : Config) :
  well_formed cfg ->
  5.825 * (POWER_KW cfg / EFFICIENCY cfg)
  <= V3_summary.dol_energy_kj cfg
  <= 32.5 * (POWER_KW cfg / EFFICIENCY cfg).
Proof.
  intros W.
  pose proof (FLA_pos cfg W) as HF.
  assert (HP : 0 < POWER_KW cfg / EFFICIENCY cfg).
  { apply Rdiv_lt_0_compat; [| exact (wf_efficiency cfg W)].
    unfold POWER_KW. pose proof (wf_power cfg W). lra. }
  unfold V3_summary.dol_energy_kj, V3_summary.dol_power,
    V3_summary.dol_current, V3.simulate_dol_start.
  cbn [fst snd]. rewrite !map_map.
  assert (H500 : (2 <= 500)%nat) by (apply (Nat.leb_le 2 500); reflexivity).
  pose proof (linspace_head 0 5 499) as Hhd.
  pose proof (linspace_last 0 5 500 0 H500) as Hlast.
  pose proof (linspace_strictly_sorted 0 5 500 ltac:(lra)) as Hsorted.
  assert (Hin : forall t, In t (linspace 0 5 500) -> 0 <= t <= 5).
  { intros t Ht. apply (linspace_in_range 5 500 t); [lra | exact Ht]. }
  change (S 499) with 500%nat in Hhd.
  fold V3.dol_time in Hhd, Hlast, Hsorted, Hin.
  set (P := POWER_KW cfg / EFFICIENCY cfg) in *.
  pose proof (trapz_bounds (1.165 * P) (6.5 * P)
                (map (fun t => sqrt 3 * VOLTAGE cfg
                               * V3.dol_current (V3.dol_row cfg t)
                               * POWER_FACTOR cfg / 1000) V3.dol_time)
                V3.dol_time) as Hb.
  rewrite length_map in Hb.
  specialize (Hb eq_refl (Sorted_Rlt_Rle _ Hsorted)).
  replace (hd 0 V3.dol_time) with 0 in Hb.
  2:{ destruct V3.dol_time; [discriminate | simpl in Hhd |- *; congruence]. }
  rewrite Hlast in Hb.
  assert (Hall : Forall (fun v => 1.165 * P <= v <= 6.5 * P)
            (map (fun t => sqrt 3 * VOLTAGE cfg
                           * V3.dol_current (V3.dol_row cfg t)
                           * POWER_FACTOR cfg / 1000) V3.dol_time)).
  { apply Forall_forall. intros v Hv. apply in_map_iff in Hv.
    destruct Hv as [t [<- Ht]].
    pose proof (dol_current_range cfg t W (proj1 (Hin t Ht))) as Hc.
    set (i_now := V3.dol_current (V3.dol_row cfg t)) in *.
    replace (sqrt 3 * VOLTAGE cfg * i_now * POWER_FACTOR cfg / 1000)
      with (P * (i_now / FLA cfg)).
    2:{ unfold P. rewrite <- (line_power_at_FLA cfg W). field. lra. }
    assert (Hq : 1.165 <= i_now / FLA cfg <= 6.5).
    { split.
      - apply (Rmult_le_reg_r (FLA cfg)); [exact HF |].
        replace (i_now / FLA cfg * FLA cfg) with i_now by (field; lra). lra.
      - apply (Rmult_le_reg_r (FLA cfg)); [exact HF |].
        replace (i_now / FLA cfg * FLA cfg) with i_now by (field; lra). lra. }
    split; nra. }
  specialize (Hb Hall). lra.
Qed.

Lemma dol_energy_bounds_witness :
  5.825 * (POWER_KW default_config / EFFICIENCY default_config)
  <= V3_summary.dol_energy_kj default_config.
Proof.
  refine (proj1 (dol_energy_bounds default_config _)).
  constructor; simpl; lra.
Defined.

(** ** The v4 metrics: soft-starter current inflation *)

Lemma V4_soft_starter_row (cfg : Config) (t omega_rad ramp_time : R) :
  V4.metrics_row cfg t omega_rad "soft_starter" ramp_time
  = V4.active_row cfg t omega_rad "soft_starter" ramp_time
      (SYNC_SPEED_RAD cfg) (BASE_FREQ cfg)
      (V4.soft_start_voltage_func cfg t ramp_time).
Proof. reflexivity. Qed.

Lemma V4_soft_starter_row_basics (cfg : Config) (t omega_rad ramp_time : R) :
  V4.voltage_array (V4.metrics_row cfg t omega_rad "soft_starter" ramp_time)
    = V4.soft_start_voltage_func cfg t ramp_time /\
  V4.torque (V4.metrics_row cfg t omega_rad "soft_starter" ramp_time)
    = RATED_TORQUE cfg
      * torque_ratio
          (np_clip (if Rltb 0 (SYNC_SPEED_RAD cfg)
                    then (SYNC_SPEED_RAD cfg - omega_rad) / SYNC_SPEED_RAD cfg
                    else 1) 0 1)
      * (V4.soft_start_voltage_func cfg t ramp_time / VOLTAGE cfg) ^ 2.
Proof.
  rewrite V4_soft_starter_row. unfold V4.active_row. simpl.
  replace 1.0 with 1 by lra. split; reflexivity.
Qed.

Lemma V4_soft_starter_inflated (cfg : Config) (t omega_rad ramp_time : R) :
  t < ramp_time ->
  0.3 < V4.soft_start_voltage_func cfg t ramp_time / VOLTAGE cfg ->
  V4.current (V4.metrics_row cfg t omega_rad "soft_starter" ramp_time)
  = uninflated_current cfg
      (V4.torque (V4.metrics_row cfg t omega_rad "soft_starter" ramp_time))
    * (1.2 / (V4.soft_start_voltage_func cfg t ramp_time / VOLTAGE cfg)).
Proof.
  intros Ht Hv. rewrite V4_soft_starter_row.
  unfold V4.active_row, uninflated_current. simpl.
  now rewrite (Rltb_true _ _ Ht), (Rltb_true _ _ Hv).
Qed.

Lemma V4_soft_starter_not_inflated (cfg : Config) (t omega_rad ramp_time : R) :
  ramp_time <= t \/
  V4.soft_start_voltage_func cfg t ramp_time / VOLTAGE cfg <= 0.3 ->
  V4.current (V4.metrics_row cfg t omega_rad "soft_starter" ramp_time)
  = uninflated_current cfg
      (V4.torque (V4.metrics_row cfg t omega_rad "soft_starter" ramp_time)).
Proof.
  intros H. rewrite V4_soft_starter_row.
  unfold V4.active_row, uninflated_current. simpl.
  destruct H as [Ht | Hv].
  - now rewrite (Rltb_false _ _ Ht).
  - rewrite (Rltb_false _ _ Hv). now destruct (Rltb t ramp_time).
Qed.

Lemma V4_soft_starter_power_in (cfg : Config) (t omega_rad ramp_time : R) :
  V4.power_in (V4.metrics_row cfg t omega_rad "soft_starter" ramp_time)
  = sqrt 3 * V4.soft_start_voltage_func cfg t ramp_time
    * V4.current (V4.metrics_row cfg t omega_rad "soft_starter" ramp_time)
    * POWER_FACTOR cfg / 1000.
Proof. reflexivity. Qed.

Lemma V4_soft_starter_inflated_power_in
    (cfg : Config) (t omega_rad ramp_time : R) :
  well_formed cfg -> t < ramp_time ->
  0.3 < V4.soft_start_voltage_func cfg t ramp_time / VOLTAGE cfg ->
  V4.power_in (V4.metrics_row cfg t omega_rad "soft_starter" ramp_time)
  = 1.2 * (sqrt 3 * VOLTAGE cfg
           * uninflated_current cfg
               (V4.torque
                  (V4.metrics_row cfg t omega_rad "soft_starter" ramp_time))
           * POWER_FACTOR cfg / 1000).
Proof.
  intros W Ht Hv. pose proof (wf_voltage cfg W) as HV.
  rewrite V4_soft_starter_power_in.
  rewrite (V4_soft_starter_inflated cfg t omega_rad ramp_time Ht Hv).
  set (v := V4.soft_start_voltage_func cfg t ramp_time) in *.
  set (i0 := uninflated_current cfg _).
  assert (Hvpos : 0 < v).
  { assert (Hq : 0 < v / VOLTAGE cfg) by lra.
    apply (Rmult_lt_compat_r (VOLTAGE cfg)) in Hq; [| exact HV].
    replace (v / VOLTAGE cfg * VOLTAGE cfg) with v in Hq by (field; lra).
    lra. }
  decimals. field. lra.
Qed.

(** During the soft-starter ramp, while the voltage ratio is above 0.3,
    the reported current is the torque-and-magnetizing current times
    [1.2 / voltageRatio], so the voltage cancels in the input power, which
    is 1.2 times the full-line-voltage power of the uninflated current;
    when the ramp has ended, or while the voltage ratio is at most 0.3
    (as at [t = 0] with the scripts' 30 % initial voltage), the current
    is not inflated and the input power is computed at the ramp
    voltage. *)
Theorem soft_starter_current_inflation
    (cfg : Config) (t omega_rad ramp_time : R) :
  well_formed cfg -> 0 < ramp_time ->
  (t < ramp_time ->
   0.3 < V4.soft_start_voltage_func cfg t ramp_time / VOLTAGE cfg ->
   V4.current (V4.metrics_row cfg t omega_rad "soft_starter" ramp_time)
   = uninflated_current cfg
       (V4.torque (V4.metrics_row cfg t omega_rad "soft_starter" ramp_time))
     * (1.2 / (V4.soft_start_voltage_func cfg t ramp_time / VOLTAGE cfg)) /\
   V4.power_in (V4.metrics_row cfg t omega_rad "soft_starter" ramp_time)
   = 1.2 * (sqrt 3 * VOLTAGE cfg
            * uninflated_current cfg
                (V4.torque
                   (V4.metrics_row cfg t omega_rad "soft_starter" ramp_time))
            * POWER_FACTOR cfg / 1000)) /\
  (ramp_time <= t \/
   V4.soft_start_voltage_func cfg t ramp_time / VOLTAGE cfg <= 0.3 ->
   V4.current (V4.metrics_row cfg t omega_rad "soft_starter" ramp_time)
   = uninflated_current cfg
       (V4.torque (V4.metrics_row cfg t omega_rad "soft_starter" ramp_time)) /\
   V4.power_in (V4.metrics_row cfg t omega_rad "soft_starter" ramp_time)
   = sqrt 3 * V4.soft_start_voltage_func cfg t ramp_time
     * uninflated_current cfg
         (V4.torque (V4.metrics_row cfg t omega_rad "soft_starter" ramp_time))
     * POWER_FACTOR cfg / 1000) /\
  (SOFT_START_INITIAL_VOLTAGE cfg <= 0.3 ->
   V4.current (V4.metrics_row cfg 0 omega_rad "soft_starter" ramp_time)
   = uninflated_current cfg
       (V4.torque (V4.metrics_row cfg 0 omega_rad "soft_starter" ramp_time))).
Proof.
  intros W Hr. pose proof (wf_voltage cfg W) as HV.
  split; [| split].
  - intros Ht Hv.
    split; [now apply V4_soft_starter_inflated |].
    now apply V4_soft_starter_inflated_power_in.
  - intros H.
    pose proof (V4_soft_starter_not_inflated cfg t omega_rad ramp_time H) as Hc.
    split; [exact Hc |].
    rewrite V4_soft_starter_power_in, Hc. reflexivity.
  - intros Hi. apply V4_soft_starter_not_inflated. right.
    rewrite soft_start_voltage_ramp_form by lra.
    replace (VOLTAGE cfg
             * (SOFT_START_INITIAL_VOLTAGE cfg
                + (1 - SOFT_START_INITIAL_VOLTAGE cfg) * (0 / ramp_time))
             / VOLTAGE cfg)
      with (SOFT_START_INITIAL_VOLTAGE cfg) by (field; lra).
    exact Hi.
Qed.

Lemma soft_starter_current_inflation_witness :
  V4.current (V4.metrics_row default_config 0 0 "soft_starter" 20)
  = uninflated_current default_config
      (V4.torque (V4.metrics_row default_config 0 0 "soft_starter" 20)).
Proof.
  refine (proj2 (proj2 (soft_starter_current_inflation default_config 0 0 20
                          _ _)) _).
  - constructor; simpl; lra.
  - lra.
  - simpl; lra.
Defined.

(** ** The v4 metrics: ranges of the reported quantities *)

Lemma V4_vfd_freq_func_le_base (cfg : Config) (t ramp_time : R) :
  well_formed cfg -> 0 < ramp_time ->
  V4.vfd_freq_func cfg t ramp_time <= BASE_FREQ cfg.
Proof.
  intros W Hr. pose proof (wf_base_freq cfg W) as HB.
  unfold V4.vfd_freq_func.
  destruct (Rleb_spec t ramp_time) as [[Ht ->] | [Ht ->]]; [| lra].
  pose proof (Rdiv_le_1 t ramp_time Hr Ht). nra.
Qed.

Lemma V4_vfd_active_row (cfg : Config) (t omega_rad ramp_time : R) :
  0.5 <= V4.vfd_freq_func cfg t ramp_time ->
  V4.metrics_row cfg t omega_rad "vfd" ramp_time
  = V4.active_row cfg t omega_rad "vfd" ramp_time
      (sync_speed_rad_at cfg (V4.vfd_freq_func cfg t ramp_time))
      (V4.vfd_freq_func cfg t ramp_time)
      (V4.vfd_voltage_func cfg (V4.vfd_freq_func cfg t ramp_time)).
Proof.
  intros H. unfold V4.metrics_row.
  change (String.eqb "vfd" "vfd") with true. cbv iota.
  now rewrite (Rltb_false _ _ H).
Qed.

Lemma V4_vfd_row_current (cfg : Config) (t omega_rad ramp_time : R) :
  V4.current (V4.metrics_row cfg t omega_rad "vfd" ramp_time)
  = if Rltb (V4.vfd_freq_func cfg t ramp_time) 0.5 then 0
    else uninflated_current cfg
           (V4.torque (V4.metrics_row cfg t omega_rad "vfd" ramp_time)).
Proof.
  destruct (Rltb_spec (V4.vfd_freq_func cfg t ramp_time) 0.5)
    as [[H ->] | [H ->]].
  - now rewrite V4_inactive_row.
  - rewrite V4_vfd_active_row by exact H. reflexivity.
Qed.

Lemma V4_row_power_in (cfg : Config) (t omega_rad : R) (method : string)
    (ramp_time : R) :
  V4.power_in (V4.metrics_row cfg t omega_rad method ramp_time)
  = sqrt 3 * V4.voltage_array (V4.metrics_row cfg t omega_rad method ramp_time)
    * V4.current (V4.metrics_row cfg t omega_rad method ramp_time)
    * POWER_FACTOR cfg / 1000.
Proof.
  unfold V4.metrics_row.
  destruct (String.eqb method "vfd"); [| reflexivity].
  destruct (Rltb (V4.vfd_freq_func cfg t ramp_time) 0.5); [| reflexivity].
  simpl. unfold Rdiv. ring.
Qed.

Lemma V4_vfd_row_torque_bounds (cfg : Config) (t omega_rad ramp_time : R) :
  well_formed cfg -> 0 < ramp_time ->
  0 <= V4.torque (V4.metrics_row cfg t omega_rad "vfd" ramp_time)
    <= RATED_TORQUE cfg * (3.5 * (1 + V_BOOST cfg)).
Proof.
  intros W Hr.
  pose proof (RATED_TORQUE_pos cfg W) as HR. pose proof (wf_boost cfg W) as Hb.
  destruct (Rle_dec 0.5 (V4.vfd_freq_func cfg t ramp_time)) as [Hf | Hf].
  - rewrite V4_vfd_active_row by exact Hf.
    unfold V4.active_row.
    change (String.eqb "vfd" "vfd") with true. cbv iota. simpl V4.torque.
    replace 1.0 with 1 by lra.
    apply scaled_torque_bounds; [exact W | |].
    + split; [lra | now apply V4_vfd_freq_func_le_base].
    + apply np_clip_bounds; lra.
  - rewrite V4_inactive_row by lra. simpl. split; [lra |].
    apply Rmult_le_pos; lra.
Qed.

Lemma uninflated_current_bounds (cfg : Config) (torque cap : R) :
  well_formed cfg -> 0 <= torque <= RATED_TORQUE cfg * cap ->
  0.3 * FLA cfg <= uninflated_current cfg torque
    <= FLA cfg * sqrt (cap ^ 2 + 0.09).
Proof.
  intros W [Ht0 Ht1].
  pose proof (FLA_pos cfg W) as HF. pose proof (RATED_TORQUE_pos cfg W) as HR.
  unfold uninflated_current. split.
  - pose proof (sqrt_sum_sqr_ge (FLA cfg * (torque / RATED_TORQUE cfg))
                  (FLA cfg * 0.3) ltac:(lra)).
    lra.
  - apply current_from_torque_bound; [exact HF |].
    split; [now apply Rdiv_nonneg |].
    apply (Rmult_le_reg_r (RATED_TORQUE cfg)); [exact HR |].
    replace (torque / RATED_TORQUE cfg * RATED_TORQUE cfg) with torque
      by (field; lra).
    lra.
Qed.

Lemma V4_vfd_row_current_bounds (cfg : Config) (t omega_rad ramp_time : R) :
  well_formed cfg -> 0 < ramp_time ->
  0 <= V4.current (V4.metrics_row cfg t omega_rad "vfd" ramp_time)
    <= FLA cfg * sqrt ((3.5 * (1 + V_BOOST cfg)) ^ 2 + 0.09).
Proof.
  intros W Hr. pose proof (FLA_pos cfg W) as HF.
  rewrite V4_vfd_row_current.
  destruct (Rltb (V4.vfd_freq_func cfg t ramp_time) 0.5).
  - split; [lra |]. apply Rmult_le_pos; [lra | apply sqrt_pos].
  - pose proof (uninflated_current_bounds cfg _ _ W
                  (V4_vfd_row_torque_bounds cfg t omega_rad ramp_time W Hr))
      as [Hlo Hhi].
    split; [lra | exact Hhi].
Qed.

Lemma V4_vfd_row_voltage_bounds (cfg : Config) (t omega_rad ramp_time : R) :
  well_formed cfg -> V_BOOST cfg <= 1 -> 0 < ramp_time ->
  0 <= V4.voltage_array (V4.metrics_row cfg t omega_rad "vfd" ramp_time)
    <= VOLTAGE cfg.
Proof.
  intros W Hb Hr. pose proof (wf_voltage cfg W) as HV.
  destruct (Rle_dec 0.5 (V4.vfd_freq_func cfg t ramp_time)) as [Hf | Hf].
  - rewrite V4_vfd_active_row by exact Hf. simpl V4.voltage_array.
    apply (V3_voltage_func_within_line cfg _ W Hb).
    split; [lra | now apply V4_vfd_freq_func_le_base].
  - rewrite V4_inactive_row by lra. simpl. lra.
Qed.

Lemma rated_input_power_pos (cfg : Config) :
  well_formed cfg -> 0 < rated_input_power cfg.
Proof.
  intros W. unfold rated_input_power.
  apply Rdiv_lt_0_compat; [| exact (wf_efficiency cfg W)].
  unfold POWER_KW. pose proof (wf_power cfg W). lra.
Qed.

Lemma line_power_bound (cfg : Config) (v i k : R) :
  well_formed cfg ->
  0 <= v <= VOLTAGE cfg -> 0 <= i <= FLA cfg * k ->
  0 <= sqrt 3 * v * i * POWER_FACTOR cfg / 1000 <= rated_input_power cfg * k.
Proof.
  intros W [Hv0 Hv1] [Hi0 Hi1].
  pose proof sqrt3_pos as H3. pose proof (wf_power_factor cfg W) as Hpf.
  pose proof (wf_voltage cfg W) as HV. pose proof (FLA_pos cfg W) as HF.
  unfold rated_input_power. rewrite <- (line_power_at_FLA cfg W).
  assert (Hvi0 : 0 <= v * i) by now apply Rmult_le_pos.
  assert (Hvi1 : v * i <= VOLTAGE cfg * (FLA cfg * k)).
  { apply Rmult_le_compat; lra. }
  assert (Hc : 0 < sqrt 3 * POWER_FACTOR cfg / 1000).
  { apply Rdiv_lt_0_compat; [| lra]. now apply Rmult_lt_0_compat. }
  replace (sqrt 3 * v * i * POWER_FACTOR cfg / 1000)
    with (sqrt 3 * POWER_FACTOR cfg / 1000 * (v * i)) by (field; lra).
  replace (sqrt 3 * VOLTAGE cfg * FLA cfg * POWER_FACTOR cfg / 1000 * k)
    with (sqrt 3 * POWER_FACTOR cfg / 1000 * (VOLTAGE cfg * (FLA cfg * k)))
    by (field; lra).
  split; [apply Rmult_le_pos; lra |].
  apply Rmult_le_compat_l; lra.
Qed.

Lemma V4_vfd_row_power_in_bounds (cfg : Config) (t omega_rad ramp_time : R) :
  well_formed cfg -> V_BOOST cfg <= 1 -> 0 < ramp_time ->
  0 <= V4.power_in (V4.metrics_row cfg t omega_rad "vfd" ramp_time)
    <= rated_input_power cfg * sqrt ((3.5 * (1 + V_BOOST cfg)) ^ 2 + 0.09).
Proof.
  intros W Hb Hr. rewrite V4_row_power_in.
  apply line_power_bound; [exact W | |].
  - now apply V4_vfd_row_voltage_bounds.
  - now apply V4_vfd_row_current_bounds.
Qed.

Lemma V4_soft_starter_voltage_ratio (cfg : Config) (t ramp_time : R) :
  well_formed cfg -> 0 < ramp_time -> 0 <= t ->
  0 <= V4.soft_start_voltage_func cfg t ramp_time / VOLTAGE cfg <= 1.
Proof.
  intros W Hr Ht. pose proof (wf_voltage cfg W) as HV.
  pose proof (wf_initial_voltage cfg W) as [Hi0 Hi1].
  pose proof (soft_start_voltage_bounds cfg t ramp_time W Hr Ht) as [Hlo Hhi].
  assert (Hv0 : 0 <= V4.soft_start_voltage_func cfg t ramp_time) by nra.
  split; [now apply Rdiv_nonneg | now apply Rdiv_le_1].
Qed.

Lemma V4_soft_starter_torque_bounds (cfg : Config) (t omega_rad ramp_time : R) :
  well_formed cfg -> 0 < ramp_time -> 0 <= t ->
  0 <= V4.torque (V4.metrics_row cfg t omega_rad "soft_starter" ramp_time)
    <= RATED_TORQUE cfg * 3.5
       * (V4.soft_start_voltage_func cfg t ramp_time / VOLTAGE cfg) ^ 2.
Proof.
  intros W Hr Ht. pose proof (RATED_TORQUE_pos cfg W) as HR.
  rewrite (proj2 (V4_soft_starter_row_basics cfg t omega_rad ramp_time)).
  pose proof (V4_soft_starter_voltage_ratio cfg t ramp_time W Hr Ht)
    as [Hq0 Hq1].
  set (q := V4.soft_start_voltage_func cfg t ramp_time / VOLTAGE cfg) in *.
  set (s := np_clip _ 0 1).
  assert (Hs : 0 <= s <= 1) by (apply np_clip_bounds; lra).
  pose proof (torque_ratio_nonneg s (proj1 Hs)) as Hr0.
  pose proof (torque_ratio_below_cap s (proj1 Hs)) as Hr1.
  assert (Hq2 : 0 <= q ^ 2) by apply pow2_ge_0.
  assert (Hbase : 0 <= RATED_TORQUE cfg * torque_ratio s
                  <= RATED_TORQUE cfg * 3.5) by nra.
  split; [apply Rmult_le_pos; lra |].
  apply Rmult_le_compat_r; lra.
Qed.

Lemma V4_soft_starter_current_bounds (cfg : Config) (t omega_rad ramp_time : R) :
  well_formed cfg -> 0 < ramp_time -> 0 <= t ->
  0.3 * FLA cfg
  <= V4.current (V4.metrics_row cfg t omega_rad "soft_starter" ramp_time)
  <= 1.2 * FLA cfg * sqrt 13.25.
Proof.
  intros W Hr Ht.
  pose proof (FLA_pos cfg W) as HF. pose proof (RATED_TORQUE_pos cfg W) as HR.
  pose proof (V4_soft_starter_voltage_ratio cfg t ramp_time W Hr Ht)
    as [Hq0 Hq1].
  pose proof (V4_soft_starter_torque_bounds cfg t omega_rad ramp_time W Hr Ht)
    as [Ht0 Ht1].
  assert (Hsq : sqrt (3.5 ^ 2 + 0.09) <= sqrt 13.25).
  { apply sqrt_le_1_alt. lra. }
  assert (Hsq0 : 0 <= sqrt 13.25) by apply sqrt_pos.
  set (q := V4.soft_start_voltage_func cfg t ramp_time / VOLTAGE cfg) in *.
  assert (Hq2 : 0 <= q ^ 2 <= 1) by nra.
  assert (Hplain : 0 <= V4.torque
                          (V4.metrics_row cfg t omega_rad "soft_starter"
                             ramp_time)
                   <= RATED_TORQUE cfg * 3.5) by nra.
  pose proof (uninflated_current_bounds cfg _ 3.5 W Hplain) as [Hu0 Hu1].
  destruct (Rlt_dec t ramp_time) as [Hin | Hout];
    [destruct (Rlt_dec 0.3 q) as [Hhigh | Hlow] |].
  - rewrite (V4_soft_starter_inflated cfg t omega_rad ramp_time Hin Hhigh).
    fold q.
    set (i0 := uninflated_current cfg _) in *.
    assert (Hfac : 1.2 <= 1.2 / q).
    { apply (Rmult_le_reg_r q); [lra |].
      replace (1.2 / q * q) with 1.2 by (field; lra). nra. }
    split; [nra |].
    (* the torque carries a factor q^2, which absorbs the 1/q *)
    assert (Hi0 : i0 <= FLA cfg * q * sqrt 13.25).
    { unfold i0, uninflated_current.
      rewrite <- (sqrt_pow2 (FLA cfg * q)) by nra.
      rewrite <- sqrt_mult_alt by apply pow2_ge_0.
      apply sqrt_le_1_alt.
      set (x := V4.torque _ / RATED_TORQUE cfg).
      assert (Hx : 0 <= x <= 3.5 * q ^ 2).
      { unfold x. split; [now apply Rdiv_nonneg |].
        apply (Rmult_le_reg_r (RATED_TORQUE cfg)); [exact HR |].
        match goal with |- ?a / _ * _ <= _ =>
          replace (a / RATED_TORQUE cfg * RATED_TORQUE cfg) with a
            by (field; lra) end.
        lra. }
      assert (Hx2 : x ^ 2 <= 12.25 * q ^ 2).
      { assert (x ^ 2 <= (3.5 * q ^ 2) ^ 2) by nra.
        assert ((3.5 * q ^ 2) ^ 2 = 12.25 * q ^ 2 * q ^ 2) by (decimals; field).
        nra. }
      assert (Hq09 : 0.09 <= q ^ 2) by nra.
      assert (HF2 : 0 <= FLA cfg ^ 2) by apply pow2_ge_0.
      replace ((FLA cfg * x) ^ 2 + (FLA cfg * 0.3) ^ 2)
        with (FLA cfg ^ 2 * (x ^ 2 + 0.09)) by (decimals; field).
      replace ((FLA cfg * q) ^ 2 * 13.25)
        with (FLA cfg ^ 2 * (13.25 * q ^ 2)) by (decimals; field).
      apply Rmult_le_compat_l; lra. }
    assert (Hfac0 : 0 < 1.2 / q) by lra.
    apply Rle_trans with (FLA cfg * q * sqrt 13.25 * (1.2 / q)).
    + apply Rmult_le_compat_r; lra.
    + right. field. lra.
  - rewrite (V4_soft_starter_not_inflated cfg t omega_rad ramp_time)
      by (right; fold q; lra).
    split; [lra |]. nra.
  - rewrite (V4_soft_starter_not_inflated cfg t omega_rad ramp_time)
      by (left; lra).
    split; [lra |]. nra.
Qed.

Lemma V4_soft_starter_power_in_bounds
    (cfg : Config) (t omega_rad ramp_time : R) :
  well_formed cfg -> 0 < ramp_time -> 0 <= t ->
  0 <= V4.power_in (V4.metrics_row cfg t omega_rad "soft_starter" ramp_time)
    <= 1.2 * (rated_input_power cfg * sqrt (3.5 ^ 2 + 0.09)).
Proof.
  intros W Hr Ht.
  pose proof (FLA_pos cfg W) as HF. pose proof (wf_voltage cfg W) as HV.
  pose proof (rated_input_power_pos cfg W) as HP.
  pose proof (V4_soft_starter_voltage_ratio cfg t ramp_time W Hr Ht)
    as [Hq0 Hq1].
  pose proof (V4_soft_starter_torque_bounds cfg t omega_rad ramp_time W Hr Ht)
    as [Ht0 Ht1].
  pose proof (soft_start_voltage_bounds cfg t ramp_time W Hr Ht) as [_ Hv1].
  set (v := V4.soft_start_voltage_func cfg t ramp_time) in *.
  assert (Hv0 : 0 <= v).
  { apply (Rmult_le_compat_r (VOLTAGE cfg)) in Hq0; [| lra].
    replace (v / VOLTAGE cfg * VOLTAGE cfg) with v in Hq0 by (field; lra).
    lra. }
  assert (Hq2 : 0 <= (v / VOLTAGE cfg) ^ 2 <= 1) by nra.
  assert (Hplain : 0 <= V4.torque
                          (V4.metrics_row cfg t omega_rad "soft_starter"
                             ramp_time)
                   <= RATED_TORQUE cfg * 3.5).
  { pose proof (RATED_TORQUE_pos cfg W). nra. }
  pose proof (uninflated_current_bounds cfg _ 3.5 W Hplain) as [Hu0 Hu1].
  assert (Hk : 0 <= sqrt (3.5 ^ 2 + 0.09)) by apply sqrt_pos.
  set (i0 := uninflated_current cfg _) in *.
  assert (Hi : 0 <= i0 <= FLA cfg * sqrt (3.5 ^ 2 + 0.09)) by lra.
  assert (HVV : 0 <= VOLTAGE cfg <= VOLTAGE cfg) by lra.
  destruct (Rlt_dec t ramp_time) as [Hin | Hout];
    [destruct (Rlt_dec 0.3 (v / VOLTAGE cfg)) as [Hhigh | Hlow] |].
  - rewrite (V4_soft_starter_inflated_power_in cfg t omega_rad ramp_time
               W Hin Hhigh).
    fold i0.
    pose proof (line_power_bound cfg (VOLTAGE cfg) i0 _ W HVV Hi) as [Hp0 Hp1].
    lra.
  - rewrite V4_soft_starter_power_in.
    rewrite (V4_soft_starter_not_inflated cfg t omega_rad ramp_time)
      by (right; fold v; lra).
    fold v i0.
    pose proof (line_power_bound cfg v i0 _ W (conj Hv0 Hv1) Hi) as [Hp0 Hp1].
    nra.
  - rewrite V4_soft_starter_power_in.
    rewrite (V4_soft_starter_not_inflated cfg t omega_rad ramp_time)
      by (left; lra).
    fold v i0.
    pose proof (line_power_bound cfg v i0 _ W (conj Hv0 Hv1) Hi) as [Hp0 Hp1].
    nra.
Qed.

Lemma sqrt_lt_of_sqr (x b : R) : 0 < b -> x < b ^ 2 -> sqrt x < b.
Proof.
  intros Hb Hx. destruct (Rle_dec 0 x) as [H0 | H0].
  - rewrite <- (sqrt_pow2 b) by lra. apply sqrt_lt_1_alt. lra.
  - rewrite sqrt_neg_0 by lra. exact Hb.
Qed.

(** The soft-starter rows of v4, for every sample time [t >= 0] and any
    speed: the torque is between 0 and 3.5 times rated torque, the current
    (inflation included) between 0.3 and 4.4 times the full-load current,
    and the input power between 0 and 4.23 times the rated input power. *)
Theorem soft_starter_metrics_bounded
    (cfg : Config) (t omega_rad ramp_time : R) :
  well_formed cfg -> 0 < ramp_time -> 0 <= t ->
  0 <= V4.torque (V4.metrics_row cfg t omega_rad "soft_starter" ramp_time)
    <= 3.5 * RATED_TORQUE cfg /\
  0.3 * FLA cfg
    <= V4.current (V4.metrics_row cfg t omega_rad "soft_starter" ramp_time)
    < 4.4 * FLA cfg /\
  0 <= V4.power_in (V4.metrics_row cfg t omega_rad "soft_starter" ramp_time)
    < 4.23 * rated_input_power cfg.
Proof.
  intros W Hr Ht.
  pose proof (FLA_pos cfg W) as HF. pose proof (RATED_TORQUE_pos cfg W) as HR.
  pose proof (rated_input_power_pos cfg W) as HP.
  pose proof (V4_soft_starter_voltage_ratio cfg t ramp_time W Hr Ht)
    as [Hq0 Hq1].
  pose proof (V4_soft_starter_torque_bounds cfg t omega_rad ramp_time W Hr Ht)
    as [Ht0 Ht1].
  pose proof (V4_soft_starter_current_bounds cfg t omega_rad ramp_time W Hr Ht)
    as [Hc0 Hc1].
  pose proof (V4_soft_starter_power_in_bounds cfg t omega_rad ramp_time W Hr Ht)
    as [Hp0 Hp1].
  assert (Hs1 : sqrt 13.25 < 3.65) by (apply sqrt_lt_of_sqr; lra).
  assert (Hs2 : sqrt (3.5 ^ 2 + 0.09) < 3.52) by (apply sqrt_lt_of_sqr; lra).
  set (q := V4.soft_start_voltage_func cfg t ramp_time / VOLTAGE cfg) in *.
  assert (Hq2 : 0 <= q ^ 2 <= 1) by nra.
  repeat split; try assumption; nra.
Qed.

Lemma soft_starter_metrics_bounded_witness :
  V4.current (V4.metrics_row default_config 10 50 "soft_starter" 20)
  < 4.4 * FLA default_config.
Proof.
  refine (proj2 (proj1 (proj2
            (soft_starter_metrics_bounded default_config 10 50 20 _ _ _)))).
  - constructor; simpl; lra.
  - lra.
  - lra.
Defined.

(** The 'vfd' rows of v4, for any sample: the torque is between 0 and
    [3.5 * (1 + V_BOOST)] times rated torque (the start-up formula of v3
    is not used here), the voltage between 0 and the line voltage, and,
    with a boost fraction of at most 15 %, the current stays below 4.04
    times the full-load current and the input power below 4.04 times the
    rated input power. *)
Theorem v4_vfd_metrics_bounded (cfg : Config) (t omega_rad ramp_time : R) :
  well_formed cfg -> V_BOOST cfg <= 0.15 -> 0 < ramp_time ->
  0 <= V4.torque (V4.metrics_row cfg t omega_rad "vfd" ramp_time)
    <= 3.5 * (1 + V_BOOST cfg) * RATED_TORQUE cfg /\
  0 <= V4.voltage_array (V4.metrics_row cfg t omega_rad "vfd" ramp_time)
    <= VOLTAGE cfg /\
  0 <= V4.current (V4.metrics_row cfg t omega_rad "vfd" ramp_time)
    < 4.04 * FLA cfg /\
  0 <= V4.power_in (V4.metrics_row cfg t omega_rad "vfd" ramp_time)
    < 4.04 * rated_input_power cfg.
Proof.
  intros W Hb Hr.
  pose proof (FLA_pos cfg W) as HF. pose proof (wf_boost cfg W) as Hb0.
  pose proof (rated_input_power_pos cfg W) as HP.
  pose proof (V4_vfd_row_torque_bounds cfg t omega_rad ramp_time W Hr)
    as [Ht0 Ht1].
  pose proof (V4_vfd_row_voltage_bounds cfg t omega_rad ramp_time W
                ltac:(lra) Hr) as Hv.
  pose proof (V4_vfd_row_current_bounds cfg t omega_rad ramp_time W Hr)
    as [Hc0 Hc1].
  pose proof (V4_vfd_row_power_in_bounds cfg t omega_rad ramp_time W
                ltac:(lra) Hr) as [Hp0 Hp1].
  assert (Hk : sqrt ((3.5 * (1 + V_BOOST cfg)) ^ 2 + 0.09) < 4.04).
  { apply sqrt_lt_of_sqr; [lra |]. nra. }
  repeat split; try assumption; try lra; nra.
Qed.

Lemma v4_vfd_metrics_bounded_witness :
  V4.current (V4.metrics_row default_config 15 90 "vfd" 30)
  < 4.04 * FLA default_config.
Proof.
  refine (proj2 (proj1 (proj2 (proj2
            (v4_vfd_metrics_bounded default_config 15 90 30 _ _ _))))).
  - constructor; simpl; lra.
  - simpl; lra.
  - lra.
Defined.

(** ** The v4 'vfd' metrics against the v3 metrics *)

Lemma V4_vfd_freq_func_is_V3 (cfg : Config) (t : R) :
  V4.vfd_freq_func cfg t (RAMP_TIME cfg) = V3.freq_func cfg t.
Proof. reflexivity. Qed.

Lemma V4_vfd_row_torque_curve (cfg : Config) (t omega_rad ramp_time : R) :
  0.5 <= V4.vfd_freq_func cfg t ramp_time ->
  V4.torque (V4.metrics_row cfg t omega_rad "vfd" ramp_time)
  = V3.normal_torque cfg (V4.vfd_freq_func cfg t ramp_time)
      (V4.slip (V4.metrics_row cfg t omega_rad "vfd" ramp_time) / 100).
Proof.
  intros Hf. rewrite V4_vfd_active_row by exact Hf.
  unfold V4.active_row, V3.normal_torque.
  change (String.eqb "vfd" "vfd") with true. cbv iota.
  simpl V4.torque. simpl V4.slip.
  match goal with |- context [np_clip ?x 0 1.0 * 100 / 100] =>
    replace (np_clip x 0 1.0 * 100 / 100) with (np_clip x 0 1.0)
      by (field; lra) end.
  reflexivity.
Qed.

(** For the same sample, the 'vfd' rows of v4 (called with the v3 ramp
    time) and the rows of v3 agree on slip, load torque and output power
    whenever the sample is active (frequency at least 0.5 Hz).  From 1 Hz
    on they also agree on torque and current, and the v4 input power is
    the v3 input power scaled by the V/f voltage over the line voltage.
    Between 0.5 Hz and 1 Hz the torques differ in form: v3 reports the
    linear start-up torque [RATED_TORQUE * 2.5 * slip * (1 + 5 * V_BOOST)],
    v4 the rational curve scaled by the frequency ratio and the boost. *)
Theorem v4_vfd_metrics_against_v3 (cfg : Config) (t omega_rad : R) :
  well_formed cfg ->
  (0.5 <= V3.freq_func cfg t ->
   V4.slip (V4.metrics_row cfg t omega_rad "vfd" (RAMP_TIME cfg))
     = V3.slip_pct (V3.metrics_row cfg t omega_rad) /\
   V4.load_torque_array (V4.metrics_row cfg t omega_rad "vfd" (RAMP_TIME cfg))
     = V3.load_torque (V3.metrics_row cfg t omega_rad) /\
   V4.power_out (V4.metrics_row cfg t omega_rad "vfd" (RAMP_TIME cfg))
     = V3.power_output (V3.metrics_row cfg t omega_rad) /\
   V4.torque (V4.metrics_row cfg t omega_rad "vfd" (RAMP_TIME cfg))
     = V3.normal_torque cfg (V3.freq_func cfg t)
         (V3.slip_pct (V3.metrics_row cfg t omega_rad) / 100)) /\
  (1 <= V3.freq_func cfg t ->
   V4.torque (V4.metrics_row cfg t omega_rad "vfd" (RAMP_TIME cfg))
     = V3.torque (V3.metrics_row cfg t omega_rad) /\
   V4.current (V4.metrics_row cfg t omega_rad "vfd" (RAMP_TIME cfg))
     = V3.current (V3.metrics_row cfg t omega_rad) /\
   V4.power_in (V4.metrics_row cfg t omega_rad "vfd" (RAMP_TIME cfg))
     = V3.power_input (V3.metrics_row cfg t omega_rad)
       * (V3.voltage_func cfg (V3.freq_func cfg t) / VOLTAGE cfg)) /\
  (0.5 <= V3.freq_func cfg t < 1 ->
   V3.torque (V3.metrics_row cfg t omega_rad)
     = V3.startup_torque cfg
         (V3.slip_pct (V3.metrics_row cfg t omega_rad) / 100)).
Proof.
  intros W. pose proof (wf_voltage cfg W) as HV.
  assert (Hslip : 0.5 <= V3.freq_func cfg t ->
            V4.slip (V4.metrics_row cfg t omega_rad "vfd" (RAMP_TIME cfg))
            = V3.slip_pct (V3.metrics_row cfg t omega_rad)).
  { intros Hf. rewrite V4_vfd_active_row by exact Hf.
    unfold V3.metrics_row. rewrite V4_vfd_freq_func_is_V3.
    rewrite (Rleb_true _ _ Hf). reflexivity. }
  split; [| split].
  - intros Hf. split; [now apply Hslip |].
    split; [| split].
    + rewrite V4_vfd_active_row by exact Hf.
      unfold V3.metrics_row. rewrite V4_vfd_freq_func_is_V3.
      rewrite (Rleb_true _ _ Hf). reflexivity.
    + rewrite V4_vfd_active_row by exact Hf.
      unfold V3.metrics_row. rewrite V4_vfd_freq_func_is_V3.
      rewrite (Rleb_true _ _ Hf). reflexivity.
    + rewrite V4_vfd_row_torque_curve by exact Hf.
      rewrite (Hslip Hf). reflexivity.
  - intros Hf.
    assert (Hact : 0.5 <= V4.vfd_freq_func cfg t (RAMP_TIME cfg))
      by (rewrite V4_vfd_freq_func_is_V3; lra).
    assert (Ht : V4.torque
                   (V4.metrics_row cfg t omega_rad "vfd" (RAMP_TIME cfg))
                 = V3.torque (V3.metrics_row cfg t omega_rad)).
    { rewrite V4_vfd_active_row by exact Hact.
      unfold V3.metrics_row, V4.active_row.
      rewrite V4_vfd_freq_func_is_V3.
      rewrite (Rleb_true 0.5 (V3.freq_func cfg t)) by lra.
      change (String.eqb "vfd" "vfd") with true. cbv iota.
      simpl V4.torque. simpl V3.torque.
      replace 1.0 with 1 by lra.
      rewrite (Rltb_false (V3.freq_func cfg t) 1 Hf). reflexivity. }
    assert (Hc : V4.current
                   (V4.metrics_row cfg t omega_rad "vfd" (RAMP_TIME cfg))
                 = V3.current (V3.metrics_row cfg t omega_rad)).
    { rewrite V4_vfd_row_current, Ht.
      rewrite V4_vfd_freq_func_is_V3.
      rewrite (Rltb_false (V3.freq_func cfg t) 0.5) by lra.
      unfold V3.metrics_row, uninflated_current.
      rewrite (Rleb_true 0.5 (V3.freq_func cfg t)) by lra. reflexivity. }
    split; [exact Ht |]. split; [exact Hc |].
    rewrite V4_row_power_in, Hc, V3_row_power_input.
    unfold line_voltage_power.
    rewrite V4_vfd_active_row by exact Hact. simpl V4.voltage_array.
    rewrite V4_vfd_freq_func_is_V3.
    change (V4.vfd_voltage_func cfg (V3.freq_func cfg t))
      with (V3.voltage_func cfg (V3.freq_func cfg t)).
    field. lra.
  - intros [Hf0 Hf1]. unfold V3.metrics_row.
    rewrite (Rleb_true _ _ Hf0). simpl V3.torque. simpl V3.slip_pct.
    replace 1.0 with 1 by lra.
    rewrite (Rltb_true _ _ Hf1).
    match goal with |- context [np_clip ?x 0 1 * 100 / 100] =>
      replace (np_clip x 0 1 * 100 / 100) with (np_clip x 0 1)
        by (field; lra) end.
    reflexivity.
Qed.

Lemma v4_vfd_metrics_against_v3_witness :
  V4.current (V4.metrics_row default_config 15 90 "vfd"
                (RAMP_TIME default_config))
  = V3.current (V3.metrics_row default_config 15 90).
Proof.
  refine (proj1 (proj2 (proj1 (proj2
            (v4_vfd_metrics_against_v3 default_config 15 90 _)) _))).
  - constructor; simpl; lra.
  - rewrite V3_freq_func_mid_ramp. lra.
Defined.

(** ** Start-up energies and cost analysis of v4 *)

Lemma V4_trapz_power_bounds (cfg : Config) (T : R) (n : nat)
    (omega_rad : list R) (method : string) (ramp_time M : R) :
  0 < T -> (2 <= n)%nat -> List.length omega_rad = n ->
  (forall t w, 0 <= t ->
     0 <= V4.power_in (V4.metrics_row cfg t w method ramp_time) <= M) ->
  0 <= trapz (map V4.power_in
                (V4.calculate_metrics cfg (linspace 0 T n) omega_rad method
                   ramp_time))
             (linspace 0 T n)
    <= M * T.
Proof.
  intros HT Hn Hlen Hrow.
  pose proof (linspace_length 0 T n) as Htl.
  assert (Hhd : hd_error (linspace 0 T n) = Some 0).
  { destruct n; [lia | apply linspace_head]. }
  pose proof (linspace_last 0 T n 0 Hn) as Hlast.
  pose proof (linspace_strictly_sorted 0 T n HT) as Hsorted.
  assert (Hin : forall t, In t (linspace 0 T n) -> 0 <= t <= T).
  { intros t Ht. apply (linspace_in_range T n t); [lra | exact Ht]. }
  set (time := linspace 0 T n) in *.
  set (pin := map V4.power_in _).
  assert (Hpl : List.length pin = List.length time).
  { unfold pin, V4.calculate_metrics.
    rewrite !length_map, length_combine, Htl, Hlen. apply Nat.min_id. }
  assert (Hall : Forall (fun v => 0 <= v <= M) pin).
  { apply Forall_forall. intros v Hv.
    unfold pin, V4.calculate_metrics in Hv.
    rewrite map_map in Hv. apply in_map_iff in Hv.
    destruct Hv as [[t w] [<- Hp]]. simpl.
    apply Hrow. apply in_combine_l in Hp. now apply Hin. }
  pose proof (trapz_bounds 0 M pin time Hpl (Sorted_Rlt_Rle _ Hsorted) Hall)
    as Hb.
  replace (hd 0 time) with 0 in Hb.
  2:{ destruct time; [discriminate | simpl in Hhd |- *; congruence]. }
  rewrite Hlast in Hb. lra.
Qed.

Lemma V4_vfd_energy_bounds (cfg : Config) (vfd_omega_rad : list R) :
  well_formed cfg -> V_BOOST cfg <= 1 ->
  (2 <= TIME_POINTS cfg)%nat ->
  List.length vfd_omega_rad = TIME_POINTS cfg ->
  0 <= V4_summary.vfd_energy_kj cfg vfd_omega_rad
    <= rated_input_power cfg * sqrt ((3.5 * (1 + V_BOOST cfg)) ^ 2 + 0.09)
       * RAMP_TIME cfg.
Proof.
  intros W Hb Hn Hlen. pose proof (wf_ramp_time cfg W) as Hr.
  unfold V4_summary.vfd_energy_kj, V4_summary.vfd_pin, V4_summary.vfd_time.
  apply V4_trapz_power_bounds; try assumption.
  intros t w _. now apply V4_vfd_row_power_in_bounds.
Qed.

Lemma V4_ss_energy_bounds (cfg : Config) (ss_omega_rad : list R) :
  well_formed cfg ->
  (2 <= TIME_POINTS cfg)%nat ->
  List.length ss_omega_rad = TIME_POINTS cfg ->
  0 <= V4_summary.ss_energy_kj cfg ss_omega_rad
    <= 1.2 * (rated_input_power cfg * sqrt (3.5 ^ 2 + 0.09))
       * SOFT_START_RAMP_TIME cfg.
Proof.
  intros W Hn Hlen. pose proof (wf_soft_start_ramp_time cfg W) as Hr.
  unfold V4_summary.ss_energy_kj, V4_summary.ss_pin, V4_summary.ss_time.
  apply V4_trapz_power_bounds; try assumption.
  intros t w Ht. now apply V4_soft_starter_power_in_bounds.
Qed.

(** Whatever the two trajectories, the v4 start-up energies
    [np.trapz(vfd_pin, vfd_time)] and [np.trapz(ss_pin, ss_time)] are not
    negative; with a boost fraction of at most 15 % the VFD energy is
    below 4.04 times, and the soft-starter energy below 4.23 times, the
    rated input power multiplied by the respective ramp time. *)
Theorem v4_startup_energies_bounded
    (cfg : Config) (vfd_omega_rad ss_omega_rad : list R) :
  well_formed cfg -> V_BOOST cfg <= 0.15 ->
  (2 <= TIME_POINTS cfg)%nat ->
  List.length vfd_omega_rad = TIME_POINTS cfg ->
  List.length ss_omega_rad = TIME_POINTS cfg ->
  0 <= V4_summary.vfd_energy_kj cfg vfd_omega_rad
    < 4.04 * rated_input_power cfg * RAMP_TIME cfg /\
  0 <= V4_summary.ss_energy_kj cfg ss_omega_rad
    < 4.23 * rated_input_power cfg * SOFT_START_RAMP_TIME cfg.
Proof.
  intros W Hb Hn Hlv Hls.
  pose proof (wf_boost cfg W) as Hb0.
  pose proof (wf_ramp_time cfg W) as Hr.
  pose proof (wf_soft_start_ramp_time cfg W) as Hsr.
  pose proof (rated_input_power_pos cfg W) as HP.
  pose proof (V4_vfd_energy_bounds cfg vfd_omega_rad W ltac:(lra) Hn Hlv)
    as [Hv0 Hv1].
  pose proof (V4_ss_energy_bounds cfg ss_omega_rad W Hn Hls) as [Hs0 Hs1].
  assert (Hk : sqrt ((3.5 * (1 + V_BOOST cfg)) ^ 2 + 0.09) < 4.04).
  { apply sqrt_lt_of_sqr; [lra |]. nra. }
  assert (Hk2 : sqrt (3.5 ^ 2 + 0.09) < 3.52) by (apply sqrt_lt_of_sqr; lra).
  assert (HPr : 0 < rated_input_power cfg * RAMP_TIME cfg)
    by now apply Rmult_lt_0_compat.
  assert (HPs : 0 < rated_input_power cfg * SOFT_START_RAMP_TIME cfg)
    by now apply Rmult_lt_0_compat.
  split; split; try assumption; nra.
Qed.

Lemma v4_startup_energies_bounded_witness :
  0 <= V4_summary.vfd_energy_kj three_point_config [0; 0; 100].
Proof.
  refine (proj1 (proj1 (v4_startup_energies_bounded three_point_config
                          [0; 0; 100] [0; 0; 100] _ _ _ _ _))).
  - constructor; simpl; lra.
  - simpl; lra.
  - apply (Nat.leb_le 2 3). reflexivity.
  - reflexivity.
  - reflexivity.
Defined.






(** ** The soft-starter torque over time *)

Lemma V4_soft_start_torque_em_form (cfg : Config) (omega_rad t ramp_time : R) :
  V4.soft_start_torque_em cfg omega_rad t ramp_time
  = RATED_TORQUE cfg
    * torque_ratio
        (np_clip ((SYNC_SPEED_RAD cfg - omega_rad) / SYNC_SPEED_RAD cfg) 0 1)
    * (V4.soft_start_voltage_func cfg t ramp_time / VOLTAGE cfg) ^ 2.
Proof.
  unfold V4.soft_start_torque_em. replace 1.0 with 1 by lra. reflexivity.
Qed.

(** At a fixed rotor speed the electromagnetic torque of
    [soft_start_motor_dynamics] does not fall as time goes on (the voltage
    ramp only rises), it stays between 0 and 3.5 times rated torque, and so
    the speed derivative does not fall with time either; the torque stored
    by [calculate_metrics] for a soft-starter sample is this same
    torque. *)
Theorem soft_start_torque_rises_with_time
    (cfg : Config) (omega_rad t1 t2 ramp_time base_load_torque : R)
    (load_type : string) :
  well_formed cfg -> 0 < ramp_time -> 0 <= t1 -> t1 <= t2 ->
  0 <= V4.soft_start_torque_em cfg omega_rad t1 ramp_time
    <= V4.soft_start_torque_em cfg omega_rad t2 ramp_time /\
  V4.soft_start_torque_em cfg omega_rad t2 ramp_time
    <= 3.5 * RATED_TORQUE cfg /\
  V4.soft_start_motor_dynamics cfg omega_rad t1 base_load_torque load_type
    ramp_time
    <= V4.soft_start_motor_dynamics cfg omega_rad t2 base_load_torque
         load_type ramp_time /\
  V4.torque (V4.metrics_row cfg t1 omega_rad "soft_starter" ramp_time)
    = V4.soft_start_torque_em cfg omega_rad t1 ramp_time.
Proof.
  intros W Hr Ht1 H12.
  pose proof (RATED_TORQUE_pos cfg W) as HR.
  pose proof (wf_inertia cfg W) as HJ.
  pose proof (SYNC_SPEED_RAD_pos cfg W) as HS.
  pose proof (V4_soft_starter_voltage_ratio cfg t1 ramp_time W Hr Ht1)
    as [Hq0 Hq1].
  pose proof (V4_soft_starter_voltage_ratio cfg t2 ramp_time W Hr
                ltac:(lra)) as [Hp0 Hp1].
  pose proof (soft_start_voltage_mono cfg t1 t2 ramp_time W Hr H12) as Hmono.
  pose proof (Rdiv_le_mono _ _ (VOLTAGE cfg) (wf_voltage cfg W) Hmono) as Hqp.
  assert (Hmain :
    0 <= V4.soft_start_torque_em cfg omega_rad t1 ramp_time
      <= V4.soft_start_torque_em cfg omega_rad t2 ramp_time /\
    V4.soft_start_torque_em cfg omega_rad t2 ramp_time
      <= 3.5 * RATED_TORQUE cfg).
  { rewrite !V4_soft_start_torque_em_form.
    set (q1 := V4.soft_start_voltage_func cfg t1 ramp_time / VOLTAGE cfg) in *.
    set (q2 := V4.soft_start_voltage_func cfg t2 ramp_time / VOLTAGE cfg) in *.
    set (s := np_clip _ 0 1).
    assert (Hs : 0 <= s <= 1) by apply np_clip_bounds.
    pose proof (torque_ratio_nonneg s (proj1 Hs)) as Hr0.
    pose proof (torque_ratio_below_cap s (proj1 Hs)) as Hr1.
    assert (Hbase : 0 <= RATED_TORQUE cfg * torque_ratio s
                    <= RATED_TORQUE cfg * 3.5) by nra.
    assert (Hsq : 0 <= q1 ^ 2 <= q2 ^ 2) by nra.
    assert (Hsq2 : q2 ^ 2 <= 1) by nra.
    split; [split |].
    - apply Rmult_le_pos; lra.
    - apply Rmult_le_compat_l; lra.
    - apply Rle_trans with (RATED_TORQUE cfg * 3.5 * 1); [| lra].
      apply Rmult_le_compat; lra. }
  destruct Hmain as [H1 H2].
  split; [exact H1 |]. split; [exact H2 |]. split.
  - unfold V4.soft_start_motor_dynamics.
    apply Rdiv_le_mono; [exact HJ | lra].
  - rewrite (proj2 (V4_soft_starter_row_basics cfg t1 omega_rad ramp_time)).
    rewrite V4_soft_start_torque_em_form.
    now rewrite (Rltb_true _ _ HS).
Qed.

Lemma soft_start_torque_rises_with_time_witness :
  V4.soft_start_torque_em default_config 50 5 20
  <= 3.5 * RATED_TORQUE default_config.
Proof.
  refine (proj1 (proj2 (soft_start_torque_rises_with_time default_config
                          50 0 5 20 0 "fan_pump" _ _ _ _))).
  - constructor; simpl; lra.
  - lra.
  - lra.
  - lra.
Defined.

(** ** The v2 equation of motion against the v3 one *)

Lemma constant_torque_load (r base : R) :
  get_load_torque r base "constant_torque"
  = base * (0.3 + 0.7 * Rmax 0 (Rmin r 1)).
Proof. unfold get_load_torque. simpl. replace 1.0 with 1 by lra. reflexivity. Qed.

(** v3 called with the constant-torque load differs from v2 only in the
    load term.  From 1 Hz on, v2 uses the unclamped speed ratio, so the two
    derivatives differ by [0.7 * load * (ratio - clamp ratio) / INERTIA]
    and agree for speeds between standstill and synchronous speed.  Below
    1 Hz v2 always takes 30 % of the load while v3 takes the
    speed-dependent load, so the v3 derivative is never above the v2 one
    (for a non-negative load) and equals it at or below standstill. *)
Theorem v3_dynamics_against_v2
    (cfg : Config) (omega_rad t : R) (freq_func : R -> R) (load : R) :
  well_formed cfg ->
  (1 <= freq_func t ->
   V3.motor_dynamics cfg omega_rad t freq_func load "constant_torque"
   = V2.motor_dynamics cfg omega_rad t freq_func load
     + 0.7 * load
       * (omega_rad / SYNC_SPEED_RAD cfg
          - Rmax 0 (Rmin (omega_rad / SYNC_SPEED_RAD cfg) 1))
       / INERTIA cfg) /\
  (1 <= freq_func t -> 0 <= omega_rad <= SYNC_SPEED_RAD cfg ->
   V3.motor_dynamics cfg omega_rad t freq_func load "constant_torque"
   = V2.motor_dynamics cfg omega_rad t freq_func load) /\
  (freq_func t < 1 -> 0 <= load ->
   V3.motor_dynamics cfg omega_rad t freq_func load "constant_torque"
   <= V2.motor_dynamics cfg omega_rad t freq_func load) /\
  (freq_func t < 1 -> omega_rad <= 0 ->
   V3.motor_dynamics cfg omega_rad t freq_func load "constant_torque"
   = V2.motor_dynamics cfg omega_rad t freq_func load).
Proof.
  intros W.
  pose proof (wf_inertia cfg W) as HJ.
  pose proof (SYNC_SPEED_RAD_pos cfg W) as HS.
  assert (Hnormal : 1 <= freq_func t ->
    V3.motor_dynamics cfg omega_rad t freq_func load "constant_torque"
    = V2.motor_dynamics cfg omega_rad t freq_func load
      + 0.7 * load
        * (omega_rad / SYNC_SPEED_RAD cfg
           - Rmax 0 (Rmin (omega_rad / SYNC_SPEED_RAD cfg) 1))
        / INERTIA cfg).
  { intros Hf. unfold V3.motor_dynamics, V2.motor_dynamics.
    replace 1.0 with 1 by lra.
    rewrite (Rltb_false _ _ Hf).
    rewrite constant_torque_load, (speed_ratio_of_eq cfg omega_rad W).
    unfold V3.normal_torque.
    set (r := omega_rad / SYNC_SPEED_RAD cfg).
    set (tq := if Rltb (freq_func t) (BASE_FREQ cfg * 0.15) then _ else _).
    decimals. field. lra. }
  assert (Hstart : freq_func t < 1 ->
    V3.motor_dynamics cfg omega_rad t freq_func load "constant_torque"
    = V2.motor_dynamics cfg omega_rad t freq_func load
      - (if Rltb (sync_speed_rad_at cfg (freq_func t)) 0.1 then 0
         else 0.7 * load * Rmax 0 (Rmin (omega_rad / SYNC_SPEED_RAD cfg) 1)
              / INERTIA cfg)).
  { intros Hf. unfold V3.motor_dynamics, V2.motor_dynamics.
    replace 1.0 with 1 by lra.
    rewrite (Rltb_true _ _ Hf).
    destruct (Rltb (sync_speed_rad_at cfg (freq_func t)) 0.1); [lra |].
    rewrite constant_torque_load, (speed_ratio_of_eq cfg omega_rad W).
    unfold V3.startup_torque.
    set (r := omega_rad / SYNC_SPEED_RAD cfg).
    decimals. field. lra. }
  split; [exact Hnormal |]. split; [| split].
  - intros Hf [Hw0 Hw1]. rewrite (Hnormal Hf).
    rewrite clamp01_id.
    + unfold Rdiv. ring.
    + split; [now apply Rdiv_nonneg | now apply Rdiv_le_1].
  - intros Hf Hl. rewrite (Hstart Hf).
    destruct (Rltb (sync_speed_rad_at cfg (freq_func t)) 0.1); [lra |].
    pose proof (clamp01_bounds (omega_rad / SYNC_SPEED_RAD cfg)) as [Hc0 _].
    assert (0 <= 0.7 * load
                 * Rmax 0 (Rmin (omega_rad / SYNC_SPEED_RAD cfg) 1)
                 / INERTIA cfg).
    { apply Rdiv_nonneg; [| exact HJ]. apply Rmult_le_pos; lra. }
    lra.
  - intros Hf Hw. rewrite (Hstart Hf).
    destruct (Rltb (sync_speed_rad_at cfg (freq_func t)) 0.1); [lra |].
    rewrite clamp01_low by (now apply Rdiv_nonpos).
    unfold Rdiv. ring.
Qed.

Lemma v3_dynamics_against_v2_witness :
  V3.motor_dynamics default_config 90 15 (V3.freq_func default_config) 100
    "constant_torque"
  = V2.motor_dynamics default_config 90 15 (V3.freq_func default_config) 100.
Proof.
  refine (proj1 (proj2 (v3_dynamics_against_v2 default_config 90 15
                          (V3.freq_func default_config) 100 _)) _ _).
  - constructor; simpl; lra.
  - rewrite V3_freq_func_mid_ramp. lra.
  - split; [lra |].
    unfold SYNC_SPEED_RAD, SYNC_SPEED_RPM. simpl.
    pose proof PI_RGT_0. pose proof PI_4. pose proof (PI2_3_2). 
    unfold PI2 in *. lra.
Defined.

(** ** The efficiency column and its average *)

Lemma sum_list_pos (l : list R) :
  l <> [] -> Forall (fun v => 0 < v) l -> 0 < sum_list l.
Proof.
  intros Hne Hall. destruct l as [| x l]; [contradiction |].
  inversion Hall as [| ? ? Hx Hl]; subst. clear Hall Hne.
  revert x Hx. induction Hl as [| y l Hy Hl IH]; intros x Hx.
  - simpl. lra.
  - specialize (IH y Hy). simpl in *. lra.
Qed.

Lemma np_mean_pos (l : list R) (e : R) :
  Forall (fun v => 0 < v) l -> np_mean l = Some e -> 0 < e.
Proof.
  intros Hall Hm. destruct l as [| x l]; [discriminate |].
  unfold np_mean in Hm. injection Hm as <-.
  apply Rdiv_lt_0_compat.
  - apply (sum_list_pos (x :: l)); [discriminate | exact Hall].
  - apply (lt_0_INR (S (List.length l))). lia.
Qed.

Lemma filter_none {A : Type} (p : A -> bool) (l : list A) :
  (forall x, In x l -> p x = false) -> filter p l = [].
Proof.
  induction l as [| x l IH]; intros H; [reflexivity |].
  simpl. rewrite (H x (or_introl eq_refl)).
  apply IH. intros y Hy. apply H. now right.
Qed.

Lemma V3_row_power_output_standstill (cfg : Config) (t omega_rad : R) :
  well_formed cfg -> omega_rad <= 0 ->
  V3.power_output (V3.metrics_row cfg t omega_rad) <= 0.
Proof.
  intros W Hw. unfold V3.metrics_row.
  destruct (Rleb 0.5 (V3.freq_func cfg t)); simpl; [| lra].
  pose proof (get_load_torque_nonneg (speed_ratio_of cfg omega_rad)
                (LOAD_TORQUE cfg) (LOAD_TYPE cfg) (LOAD_TORQUE_nonneg cfg W)).
  apply Rdiv_nonpos; [nra | lra].
Qed.

(** The average efficiency [np.mean(efficiency_array[efficiency_array >
    0])] is NaN (the mean of an empty selection) when no sample has a
    positive rotor speed, and whenever it is a number it is strictly
    positive. *)
Theorem avg_efficiency_nan_or_positive
    (cfg : Config) (time omega_rad : list R) :
  well_formed cfg ->
  (Forall (fun w => w <= 0) omega_rad ->
   V3.avg_efficiency cfg time omega_rad = None) /\
  (forall e, V3.avg_efficiency cfg time omega_rad = Some e -> 0 < e).
Proof.
  intros W. split.
  - intros Hall. unfold V3.avg_efficiency, V3.efficiency_array.
    rewrite filter_map_swap.
    replace (filter (fun x => Rltb 0 (V3.efficiency x))
               (V3.metrics cfg time omega_rad)) with (@nil V3.Row);
      [reflexivity |].
    symmetry. apply filter_none. intros row Hin.
    unfold V3.metrics in Hin. apply in_map_iff in Hin.
    destruct Hin as [[t w] [<- Hp]]. simpl.
    apply in_combine_r in Hp.
    rewrite Forall_forall in Hall. specialize (Hall w Hp).
    rewrite (V3_row_efficiency_selected cfg t w W).
    rewrite (Rltb_false 0 (V3.power_output _)).
    + now rewrite andb_false_r.
    + now apply V3_row_power_output_standstill.
  - intros e He. unfold V3.avg_efficiency in He.
    apply (np_mean_pos _ e) in He; [exact He |].
    apply Forall_forall. intros v Hv.
    apply filter_In in Hv. destruct Hv as [_ Hv].
    destruct (Rltb_spec 0 v) as [[H _] | [_ E]]; [exact H |].
    rewrite E in Hv. discriminate.
Qed.

Lemma avg_efficiency_nan_or_positive_witness :
  V3.avg_efficiency default_config [0; 15; 30] [0; 0; 0] = None.
Proof.
  refine (proj1 (avg_efficiency_nan_or_positive default_config
                   [0; 15; 30] [0; 0; 0] _) _).
  - constructor; simpl; lra.
  - repeat constructor; lra.
Defined.

Lemma V3_active_row_current (cfg : Config) (t omega_rad : R) :
  0.5 <= V3.freq_func cfg t ->
  V3.current (V3.metrics_row cfg t omega_rad)
  = uninflated_current cfg (V3.torque (V3.metrics_row cfg t omega_rad)).
Proof.
  intros Hf. unfold V3.metrics_row. rewrite (Rleb_true _ _ Hf). reflexivity.
Qed.

(** A sample taken at synchronous speed once the ramp has ended carries
    no torque, so only the magnetizing current (30 % of full load) is
    drawn while the load still asks for its full torque: the reported
    efficiency is [LOAD_TORQUE_FACTOR * EFFICIENCY / (0.3 * 0.97) * 100],
    which is above 100 % as soon as [LOAD_TORQUE_FACTOR * EFFICIENCY]
    exceeds 0.291. *)
Theorem efficiency_at_synchronous_speed (cfg : Config) (t : R) :
  well_formed cfg -> 1 <= BASE_FREQ cfg -> RAMP_TIME cfg <= t ->
  V3.torque (V3.metrics_row cfg t (SYNC_SPEED_RAD cfg)) = 0 /\
  V3.current (V3.metrics_row cfg t (SYNC_SPEED_RAD cfg)) = 0.3 * FLA cfg /\
  V3.efficiency (V3.metrics_row cfg t (SYNC_SPEED_RAD cfg))
  = LOAD_TORQUE_FACTOR cfg * EFFICIENCY cfg / (0.3 * (1 - 0.03)) * 100 /\
  (0.291 < LOAD_TORQUE_FACTOR cfg * EFFICIENCY cfg ->
   100 < V3.efficiency (V3.metrics_row cfg t (SYNC_SPEED_RAD cfg))).
Proof.
  intros W HB Ht.
  pose proof (SYNC_SPEED_RAD_pos cfg W) as HS.
  pose proof (FLA_pos cfg W) as HF.
  pose proof (RATED_TORQUE_pos cfg W) as HR.
  pose proof (wf_efficiency cfg W) as He.
  pose proof (wf_base_freq cfg W) as Hbf.
  pose proof (V3_freq_func_hold cfg t W Ht) as Hfreq.
  assert (Hact : 0.5 <= V3.freq_func cfg t) by lra.
  assert (Htq : V3.torque (V3.metrics_row cfg t (SYNC_SPEED_RAD cfg)) = 0).
  { unfold V3.metrics_row. rewrite (Rleb_true _ _ Hact). simpl V3.torque.
    rewrite Hfreq, sync_speed_rad_at_base.
    rewrite (Rltb_true _ _ HS).
    replace 1.0 with 1 by lra.
    rewrite (Rltb_false (BASE_FREQ cfg) 1) by lra.
    rewrite (Rltb_false (BASE_FREQ cfg) (BASE_FREQ cfg * 0.15)) by lra.
    replace ((SYNC_SPEED_RAD cfg - SYNC_SPEED_RAD cfg) / SYNC_SPEED_RAD cfg)
      with 0 by (field; lra).
    rewrite np_clip_low by lra. rewrite torque_ratio_zero. ring. }
  assert (Hcur : V3.current (V3.metrics_row cfg t (SYNC_SPEED_RAD cfg))
                 = 0.3 * FLA cfg).
  { rewrite (V3_active_row_current cfg t _ Hact), Htq.
    unfold uninflated_current.
    replace ((FLA cfg * (0 / RATED_TORQUE cfg)) ^ 2 + (FLA cfg * 0.3) ^ 2)
      with ((0.3 * FLA cfg) ^ 2) by (decimals; field; lra).
    apply sqrt_pow2. lra. }
  assert (Heff : V3.efficiency (V3.metrics_row cfg t (SYNC_SPEED_RAD cfg))
                 = LOAD_TORQUE_FACTOR cfg * EFFICIENCY cfg
                   / (0.3 * (1 - 0.03)) * 100).
  { rewrite (V3_active_row_efficiency cfg t _ W Hact).
    rewrite V3_row_power_input. unfold line_voltage_power. rewrite Hcur.
    replace (sqrt 3 * VOLTAGE cfg * (0.3 * FLA cfg) * POWER_FACTOR cfg / 1000)
      with (0.3 * (sqrt 3 * VOLTAGE cfg * FLA cfg * POWER_FACTOR cfg / 1000))
      by (decimals; field).
    rewrite (line_power_at_FLA cfg W).
    unfold V3.metrics_row. rewrite (Rleb_true _ _ Hact). simpl V3.power_output.
    rewrite (speed_ratio_of_eq cfg _ W).
    replace (SYNC_SPEED_RAD cfg / SYNC_SPEED_RAD cfg) with 1 by (field; lra).
    assert (Hload : get_load_torque 1 (LOAD_TORQUE cfg) (LOAD_TYPE cfg)
                    = LOAD_TORQUE cfg).
    { unfold get_load_torque. replace 1.0 with 1 by lra.
      rewrite (clamp01_high 1) by lra.
      destruct (String.eqb (LOAD_TYPE cfg) "constant_torque"); [lra |].
      destruct (String.eqb (LOAD_TYPE cfg) "fan_pump"); [lra |].
      destruct (String.eqb (LOAD_TYPE cfg) "constant_power"); [| lra].
      rewrite Rltb_false by lra. lra. }
    rewrite Hload. unfold LOAD_TORQUE, RATED_TORQUE.
    assert (HPK : 0 < POWER_KW cfg).
    { unfold POWER_KW. pose proof (wf_power cfg W). lra. }
    decimals. field. repeat split; lra. }
  split; [exact Htq |]. split; [exact Hcur |]. split; [exact Heff |].
  intros Hbig. rewrite Heff.
  apply (Rmult_lt_reg_r (0.3 * (1 - 0.03))); [lra |].
  replace (LOAD_TORQUE_FACTOR cfg * EFFICIENCY cfg / (0.3 * (1 - 0.03)) * 100
           * (0.3 * (1 - 0.03)))
    with (LOAD_TORQUE_FACTOR cfg * EFFICIENCY cfg * 100) by (decimals; field).
  lra.
Qed.

Lemma efficiency_at_synchronous_speed_witness :
  100 < V3.efficiency
          (V3.metrics_row default_config 30 (SYNC_SPEED_RAD default_config)).
Proof.
  refine (proj2 (proj2 (proj2
            (efficiency_at_synchronous_speed default_config 30 _ _ _))) _).
  - constructor; simpl; lra.
  - simpl; lra.
  - simpl; lra.
  - simpl; lra.
Defined.

(** ** Peak current of the VFD start *)

Lemma fold_left_Rmax_ge_init (xs : list R) (x : R) : x <= fold_left Rmax xs x.
Proof.
  revert x. induction xs as [| v xs IH]; intros x; simpl; [lra |].
  apply Rle_trans with (Rmax x v); [apply Rmax_l | apply IH].
Qed.

Lemma fold_left_Rmax_ge_elem (xs : list R) (x y : R) :
  In y xs -> y <= fold_left Rmax xs x.
Proof.
  revert x. induction xs as [| v xs IH]; intros x Hin; [contradiction |].
  simpl. destruct Hin as [-> | Hin].
  - apply Rle_trans with (Rmax x y); [apply Rmax_r | apply fold_left_Rmax_ge_init].
  - now apply IH.
Qed.

Lemma fold_left_Rmax_attained (xs : list R) (x : R) :
  In (fold_left Rmax xs x) (x :: xs).
Proof.
  revert x. induction xs as [| v xs IH]; intros x; simpl; [now left |].
  destruct (IH (Rmax x v)) as [E | Hin].
  - unfold Rmax in E at 1. destruct (Rle_dec x v).
    + right. left. exact E.
    + left. exact E.
  - right. right. exact Hin.
Qed.

Lemma np_max_spec (l : list R) :
  l <> [] ->
  exists p, np_max l = Some p /\ In p l /\ Forall (fun v => v <= p) l.
Proof.
  intros Hne. destruct l as [| x xs]; [contradiction |].
  exists (fold_left Rmax xs x). split; [reflexivity |].
  split; [apply fold_left_Rmax_attained |].
  constructor; [apply fold_left_Rmax_ge_init |].
  apply Forall_forall. intros y Hy. now apply fold_left_Rmax_ge_elem.
Qed.

Lemma In_last {A : Type} (l : list A) (d : A) : l <> [] -> In (last l d) l.
Proof.
  induction l as [| x l IH]; intros Hne; [contradiction |].
  destruct l as [| y l']; [now left |].
  right. apply IH. discriminate.
Qed.

(** ** The post-processing loop and the length of the trajectory *)

Lemma nth_error_skipn_cons {A : Type} (l : list A) (i : nat) :
  (i < List.length l)%nat ->
  exists w, nth_error l i = Some w /\ skipn i l = w :: skipn (S i) l.
Proof.
  revert i. induction l as [| x l IH]; intros i Hi; [simpl in Hi; lia |].
  destruct i as [| i].
  - exists x. split; reflexivity.
  - destruct (IH i ltac:(simpl in Hi; lia)) as [w [Hn Hs]].
    exists w. split; [exact Hn | exact Hs].
Qed.

Lemma V3_loop_row_in_range (cfg : Config) (omega_rad : list R) (i : nat)
    (t w : R) :
  nth_error omega_rad i = Some w ->
  V3.loop_row cfg omega_rad i t = Some (V3.metrics_row cfg t w).
Proof.
  intros Hn. unfold V3.loop_row, V3.metrics_row. rewrite Hn.
  destruct (Rleb 0.5 (V3.freq_func cfg t)); reflexivity.
Qed.

Lemma V3_metrics_from_in_range (cfg : Config) (time omega_rad : list R) :
  forall i,
  List.length omega_rad = (i + List.length time)%nat ->
  V3.metrics_from cfg i time omega_rad
  = Some (map (fun p => V3.metrics_row cfg (fst p) (snd p))
            (combine time (skipn i omega_rad))).
Proof.
  induction time as [| t rest IH]; intros i Hlen; [reflexivity |].
  simpl in Hlen.
  destruct (nth_error_skipn_cons omega_rad i ltac:(lia)) as [w [Hn Hs]].
  cbn [V3.metrics_from].
  rewrite (V3_loop_row_in_range cfg omega_rad i t w Hn).
  rewrite (IH (S i)) by lia.
  rewrite Hs. reflexivity.
Qed.

(** With one speed per time point the loop runs through and stores the
    rows of [V3.metrics]. *)
Lemma V3_metrics_loop_equal_length (cfg : Config) (time omega_rad : list R) :
  List.length omega_rad = List.length time ->
  V3.metrics_loop cfg time omega_rad = Some (V3.metrics cfg time omega_rad).
Proof.
  intros Hlen. unfold V3.metrics_loop.
  rewrite V3_metrics_from_in_range by (simpl; exact Hlen).
  reflexivity.
Qed.

(** Without a trajectory the loop raises at its first active sample. *)
Lemma V3_metrics_from_no_trajectory (cfg : Config) (time : list R) :
  forall i,
  Exists (fun t => 0.5 <= V3.freq_func cfg t) time ->
  V3.metrics_from cfg i time [] = None.
Proof.
  induction time as [| t rest IH]; intros i Hex; [inversion Hex |].
  cbn [V3.metrics_from]. unfold V3.loop_row.
  destruct (Rleb_spec 0.5 (V3.freq_func cfg t)) as [[Hact ->] | [Hin ->]].
  - now destruct i.
  - rewrite IH; [reflexivity |].
    inversion Hex as [? ? Hhd | ? ? Htl]; subst; [lra | exact Htl].
Qed.

Lemma V3_time_last_active (cfg : Config) :
  well_formed cfg -> 0.5 <= BASE_FREQ cfg -> (2 <= TIME_POINTS cfg)%nat ->
  Exists (fun t => 0.5 <= V3.freq_func cfg t) (V3.time cfg).
Proof.
  intros W Hb Hn. apply Exists_exists. exists (RAMP_TIME cfg). split.
  - rewrite <- (linspace_last 0 (RAMP_TIME cfg) (TIME_POINTS cfg) 0 Hn).
    apply In_last. unfold V3.time.
    intros E. pose proof (linspace_length 0 (RAMP_TIME cfg) (TIME_POINTS cfg))
      as Hl.
    unfold V3.time in E. rewrite E in Hl. simpl in Hl. lia.
  - rewrite V3_freq_func_hold by (try exact W; lra). exact Hb.
Qed.

(** On the v3 time grid with at least two samples and a base frequency of
    at least 0.5 Hz, the peak current [np.max(current_array)] exists, is
    one of the reported currents and dominates them all; it is at least
    the magnetizing current [0.3 * FLA] and, with a boost fraction of at
    most 15 %, below [4.4 * FLA]: always below the direct-on-line peak of
    [6.5 * FLA].  The loop that fills [current_array] runs through for
    such a trajectory (one speed per grid point); without a trajectory it
    raises at an active sample, before [np.max] is reached. *)
Theorem vfd_peak_current_range (cfg : Config) (omega_rad : list R) :
  well_formed cfg -> V_BOOST cfg <= 0.15 -> 0.5 <= BASE_FREQ cfg ->
  (2 <= TIME_POINTS cfg)%nat ->
  List.length omega_rad = TIME_POINTS cfg ->
  V3.metrics_loop cfg (V3.time cfg) omega_rad
    = Some (V3.metrics cfg (V3.time cfg) omega_rad) /\
  V3.metrics_loop cfg (V3.time cfg) [] = None /\
  exists p,
    V3_summary.vfd_peak_current cfg (V3.time cfg) omega_rad = Some p /\
    In p (V3_summary.current_array cfg (V3.time cfg) omega_rad) /\
    Forall (fun i_now => i_now <= p)
      (V3_summary.current_array cfg (V3.time cfg) omega_rad) /\
    0.3 * FLA cfg <= p < 4.4 * FLA cfg /\
    V3_summary.dol_peak_current cfg = Some (FLA cfg * 6.5) /\
    p < FLA cfg * 6.5.
Proof.
  intros W Hb Hbase Hn Hlen.
  pose proof (FLA_pos cfg W) as HF.
  pose proof (wf_ramp_time cfg W) as Hr.
  pose proof (linspace_length 0 (RAMP_TIME cfg) (TIME_POINTS cfg)) as Htl.
  split.
  { apply V3_metrics_loop_equal_length. unfold V3.time. now rewrite Htl. }
  split.
  { apply V3_metrics_from_no_trajectory. now apply V3_time_last_active. }
  pose proof (linspace_last 0 (RAMP_TIME cfg) (TIME_POINTS cfg) 0 Hn) as Hlast.
  fold (V3.time cfg) in Htl, Hlast.
  set (time := V3.time cfg) in *.
  assert (Hcomb : List.length (combine time omega_rad) = TIME_POINTS cfg).
  { rewrite length_combine, Htl, Hlen. apply Nat.min_id. }
  assert (Hne : combine time omega_rad <> []).
  { intros E. rewrite E in Hcomb. simpl in Hcomb. lia. }
  set (cur := V3_summary.current_array cfg time omega_rad).
  assert (Hcur : cur = map (fun p => V3.current
                                       (V3.metrics_row cfg (fst p) (snd p)))
                         (combine time omega_rad)).
  { unfold cur, V3_summary.current_array, V3.metrics. now rewrite map_map. }
  assert (Hcne : cur <> []).
  { rewrite Hcur. intros E. apply map_eq_nil in E. contradiction. }
  destruct (np_max_spec cur Hcne) as [p [Hp [Hin Hall]]].
  exists p. split; [exact Hp |]. split; [exact Hin |]. split; [exact Hall |].
  assert (Hrange : 0.3 * FLA cfg <= p < 4.4 * FLA cfg).
  { split.
    - (* the last sample, at base frequency, draws magnetizing current *)
      assert (Hl : In (last cur 0) cur) by now apply In_last.
      rewrite Forall_forall in Hall. specialize (Hall _ Hl).
      assert (Hfloor : 0.3 * FLA cfg <= last cur 0).
      { rewrite Hcur.
        rewrite (last_map_nonempty _ _ (0, 0) 0 Hne).
        rewrite last_combine.
        2:{ rewrite Htl, Hlen. reflexivity. }
        2:{ intros E. rewrite E in Htl. simpl in Htl. lia. }
        simpl fst. simpl snd. rewrite Hlast.
        apply V3_active_row_current_floor; [exact W |].
        rewrite V3_freq_func_hold by (try exact W; lra). exact Hbase. }
      lra.
    - rewrite Hcur in Hin. apply in_map_iff in Hin.
      destruct Hin as [[t w] [<- _]]. simpl.
      pose proof (V3_row_current_bounds cfg t w W) as [_ Hub].
      pose proof (default_like_cap cfg (conj (wf_boost cfg W) Hb)) as Hcap.
      nra. }
  split; [exact Hrange |]. split; [| lra].
  unfold V3_summary.dol_peak_current, V3_summary.dol_current,
    V3.simulate_dol_start.
  cbn [snd].
  destruct dol_time_head as [rest [-> Hrest]].
  cbn [map np_max]. rewrite dol_row_start. cbn [V3.dol_current].
  f_equal. apply fold_left_Rmax_dominated.
  apply Forall_forall. intros v Hv. rewrite map_map in Hv.
  apply in_map_iff in Hv. destruct Hv as [t [<- Ht]].
  rewrite Forall_forall in Hrest. specialize (Hrest t Ht).
  pose proof (dol_current_range cfg t W Hrest). lra.
Qed.

Lemma vfd_peak_current_range_witness :
  exists p,
    V3_summary.vfd_peak_current three_point_config
      (V3.time three_point_config) [0; 0; 100] = Some p /\
    0.3 * FLA three_point_config <= p < 4.4 * FLA three_point_config.
Proof.
  destruct (vfd_peak_current_range three_point_config [0; 0; 100])
    as [_ [_ [p [Hp [_ [_ [Hrange _]]]]]]].
  - constructor; simpl; lra.
  - simpl; lra.
  - simpl; lra.
  - apply (Nat.leb_le 2 3). reflexivity.
  - reflexivity.
  - exists p. split; [exact Hp | exact Hrange].
Defined.

(** ** The v2 metrics against the v3 metrics *)

(** v2 and v3 use the same ramp and report the same slip, torque and
    current for every sample: v3 only adds the load, power and efficiency
    columns. *)
Theorem v2_metrics_agree_with_v3 (cfg : Config) (t omega_rad : R) :
  V2.freq_func cfg t = V3.freq_func cfg t /\
  V2.slip_pct (V2.metrics_row cfg t omega_rad)
    = V3.slip_pct (V3.metrics_row cfg t omega_rad) /\
  V2.torque (V2.metrics_row cfg t omega_rad)
    = V3.torque (V3.metrics_row cfg t omega_rad) /\
  V2.current (V2.metrics_row cfg t omega_rad)
    = V3.current (V3.metrics_row cfg t omega_rad).
Proof.
  split; [reflexivity |].
  unfold V2.metrics_row, V3.metrics_row.
  change (V2.freq_func cfg t) with (V3.freq_func cfg t).
  destruct (Rleb 0.5 (V3.freq_func cfg t)); repeat split; reflexivity.
Qed.

(** ** The start-up energy is taken at line voltage *)

Lemma trapz_map_le {A : Type} (f g : A -> R) :
  forall (l : list A) (x : list R),
  List.length l = List.length x -> Sorted Rle x ->
  (forall p, In p l -> g p <= f p) ->
  trapz (map g l) x <= trapz (map f l) x.
Proof.
  induction l as [| p0 l IH]; intros x Hlen Hs Hle; [simpl; lra |].
  destruct x as [| x0 xs]; [discriminate |].
  destruct l as [| p1 l'].
  - destruct xs; [simpl; lra | discriminate].
  - destruct xs as [| x1 xs']; [discriminate |].
    inversion Hs as [| ? ? Hs' Hhd]; subst.
    inversion Hhd as [| ? ? Hx01]; subst.
    specialize (IH (x1 :: xs') ltac:(simpl in *; lia) Hs'
                   (fun p Hp => Hle p (or_intror Hp))).
    pose proof (Hle p0 (or_introl eq_refl)) as H0.
    pose proof (Hle p1 (or_intror (or_introl eq_refl))) as H1.
    change (trapz (map g (p0 :: p1 :: l')) (x0 :: x1 :: xs'))
      with ((x1 - x0) * (g p1 + g p0) / 2
            + trapz (map g (p1 :: l')) (x1 :: xs')).
    change (trapz (map f (p0 :: p1 :: l')) (x0 :: x1 :: xs'))
      with ((x1 - x0) * (f p1 + f p0) / 2
            + trapz (map f (p1 :: l')) (x1 :: xs')).
    assert ((x1 - x0) * (g p1 + g p0) / 2 <= (x1 - x0) * (f p1 + f p0) / 2)
      by nra.
    lra.
Qed.

(** On a strictly increasing grid of at least two points, a series that
    is nowhere below another and above it at some point has the larger
    trapezoidal integral. *)
Lemma trapz_map_lt {A : Type} (f g : A -> R) :
  forall (l : list A) (x : list R),
  List.length l = List.length x -> (2 <= List.length l)%nat ->
  Sorted Rlt x ->
  (forall p, In p l -> g p <= f p) ->
  (exists p, In p l /\ g p < f p) ->
  trapz (map g l) x < trapz (map f l) x.
Proof.
  induction l as [| p0 l IH]; intros x Hlen Hn Hs Hle Hex;
    [simpl in Hn; lia |].
  destruct x as [| x0 xs]; [discriminate |].
  destruct l as [| p1 l']; [simpl in Hn; lia |].
  destruct xs as [| x1 xs']; [discriminate |].
  inversion Hs as [| ? ? Hs' Hhd]; subst.
  inversion Hhd as [| ? ? Hx01]; subst.
  pose proof (Hle p0 (or_introl eq_refl)) as H0.
  pose proof (Hle p1 (or_intror (or_introl eq_refl))) as H1.
  change (trapz (map g (p0 :: p1 :: l')) (x0 :: x1 :: xs'))
    with ((x1 - x0) * (g p1 + g p0) / 2
          + trapz (map g (p1 :: l')) (x1 :: xs')).
  change (trapz (map f (p0 :: p1 :: l')) (x0 :: x1 :: xs'))
    with ((x1 - x0) * (f p1 + f p0) / 2
          + trapz (map f (p1 :: l')) (x1 :: xs')).
  assert (Hrest : trapz (map g (p1 :: l')) (x1 :: xs')
                  <= trapz (map f (p1 :: l')) (x1 :: xs')).
  { apply trapz_map_le; [simpl in *; lia | now apply Sorted_Rlt_Rle |].
    intros p Hp. apply Hle. now right. }
  destruct Hex as [p [Hin Hlt]].
  destruct Hin as [<- | [<- | Hin]].
  - assert ((x1 - x0) * (g p1 + g p0) / 2 < (x1 - x0) * (f p1 + f p0) / 2)
      by nra.
    lra.
  - assert ((x1 - x0) * (g p1 + g p0) / 2 < (x1 - x0) * (f p1 + f p0) / 2)
      by nra.
    lra.
  - assert (Hstrict : trapz (map g (p1 :: l')) (x1 :: xs')
                      < trapz (map f (p1 :: l')) (x1 :: xs')).
    { apply IH; [simpl in *; lia | | exact Hs' | |].
      - destruct l'; [contradiction | simpl; lia].
      - intros q Hq. apply Hle. now right.
      - exists p. split; [now right | exact Hlt]. }
    assert ((x1 - x0) * (g p1 + g p0) / 2 <= (x1 - x0) * (f p1 + f p0) / 2)
      by nra.
    lra.
Qed.

Lemma in_combine_partner {A B : Type} (l : list A) (l' : list B) (a : A) :
  List.length l = List.length l' -> In a l ->
  exists b, In (a, b) (combine l l').
Proof.
  revert l'. induction l as [| x l IH]; intros l' Hlen Hin; [contradiction |].
  destruct l' as [| y l']; [discriminate |].
  destruct Hin as [-> | Hin].
  - exists y. now left.
  - destruct (IH l' ltac:(simpl in Hlen; lia) Hin) as [b Hb].
    exists b. now right.
Qed.

Lemma V3_freq_func_nonneg (cfg : Config) (t : R) :
  well_formed cfg -> 0 <= t -> 0 <= V3.freq_func cfg t.
Proof.
  intros W Ht. pose proof (wf_ramp_time cfg W) as Hr.
  pose proof (wf_base_freq cfg W) as Hb.
  unfold V3.freq_func.
  destruct (Rleb t (RAMP_TIME cfg)); [| lra].
  pose proof (Rdiv_nonneg t (RAMP_TIME cfg) Ht Hr). nra.
Qed.

(** The power at the set-point voltage never exceeds the stored input
    power, and is strictly below it on an active sample below base
    frequency. *)
Lemma V3_setpoint_power_le (cfg : Config) (t omega_rad : R) :
  well_formed cfg -> V_BOOST cfg <= 1 -> 0 <= t ->
  sqrt 3 * V3.voltage_func cfg (V3.freq_func cfg t)
  * V3.current (V3.metrics_row cfg t omega_rad) * POWER_FACTOR cfg / 1000
  <= sqrt 3 * VOLTAGE cfg
     * V3.current (V3.metrics_row cfg t omega_rad) * POWER_FACTOR cfg / 1000.
Proof.
  intros W Hb Ht.
  pose proof (V3_voltage_func_within_line cfg (V3.freq_func cfg t) W Hb
                (conj (V3_freq_func_nonneg cfg t W Ht)
                      (V3_freq_func_le_base cfg t W))) as [_ Hv].
  pose proof (V3_row_current_bounds cfg t omega_rad W) as [Hi _].
  pose proof sqrt3_pos as H3. pose proof (wf_power_factor cfg W) as Hpf.
  set (i_now := V3.current (V3.metrics_row cfg t omega_rad)) in *.
  assert (Hk : 0 <= sqrt 3 * i_now * POWER_FACTOR cfg / 1000).
  { apply Rdiv_nonneg; [| lra].
    apply Rmult_le_pos; [apply Rmult_le_pos |]; lra. }
  nra.
Qed.

Lemma V3_setpoint_power_lt (cfg : Config) (t omega_rad : R) :
  well_formed cfg -> V_BOOST cfg <= 1 ->
  0.5 <= V3.freq_func cfg t -> V3.freq_func cfg t < BASE_FREQ cfg ->
  sqrt 3 * V3.voltage_func cfg (V3.freq_func cfg t)
  * V3.current (V3.metrics_row cfg t omega_rad) * POWER_FACTOR cfg / 1000
  < sqrt 3 * VOLTAGE cfg
    * V3.current (V3.metrics_row cfg t omega_rad) * POWER_FACTOR cfg / 1000.
Proof.
  intros W Hb Hf Hlt.
  pose proof (V3_voltage_func_below_line cfg (V3.freq_func cfg t) W Hb
                ltac:(split; lra)) as Hv.
  pose proof (V3_active_row_current_floor cfg t omega_rad W Hf) as Hi.
  pose proof (FLA_pos cfg W) as HF. pose proof sqrt3_pos as H3.
  pose proof (wf_power_factor cfg W) as Hpf.
  set (i_now := V3.current (V3.metrics_row cfg t omega_rad)) in *.
  assert (Hk : 0 < sqrt 3 * i_now * POWER_FACTOR cfg / 1000).
  { apply Rdiv_lt_0_compat; [| lra].
    repeat apply Rmult_lt_0_compat; lra. }
  nra.
Qed.

(** With at least three grid points and a base frequency of at least
    1 Hz, the last grid point but one is active and below base
    frequency. *)
Lemma V3_time_active_below_base (cfg : Config) :
  well_formed cfg -> 1 <= BASE_FREQ cfg -> (3 <= TIME_POINTS cfg)%nat ->
  exists t, In t (V3.time cfg) /\
    0.5 <= V3.freq_func cfg t /\ V3.freq_func cfg t < BASE_FREQ cfg.
Proof.
  intros W Hb Hn. pose proof (wf_ramp_time cfg W) as Hr.
  set (n := TIME_POINTS cfg) in *.
  assert (Hm : 1 <= INR (n - 2)).
  { replace 1 with (INR 1) by reflexivity. apply le_INR. lia. }
  assert (Hm1 : INR (n - 1) = INR (n - 2) + 1).
  { replace (n - 1)%nat with (S (n - 2)) by lia. apply S_INR. }
  set (m := INR (n - 2)) in *.
  exists (0 + m * ((RAMP_TIME cfg - 0) / INR (n - 1))). split.
  - unfold V3.time, linspace. fold n.
    apply (in_map (fun i => 0 + INR i * ((RAMP_TIME cfg - 0) / INR (n - 1)))
             (seq 0 n) (n - 2)%nat).
    apply in_seq. lia.
  - rewrite Hm1.
    assert (Ht : 0 + m * ((RAMP_TIME cfg - 0) / (m + 1))
                 = RAMP_TIME cfg * (m / (m + 1))) by (field; lra).
    rewrite Ht.
    assert (Hq : 0.5 <= m / (m + 1) < 1).
    { split.
      - apply (Rmult_le_reg_r (m + 1)); [lra |].
        replace (m / (m + 1) * (m + 1)) with m by (field; lra). lra.
      - apply (Rmult_lt_reg_r (m + 1)); [lra |].
        replace (m / (m + 1) * (m + 1)) with m by (field; lra). lra. }
    unfold V3.freq_func.
    rewrite Rleb_true by nra.
    replace (RAMP_TIME cfg * (m / (m + 1)) / RAMP_TIME cfg)
      with (m / (m + 1)) by (field; lra).
    split; nra.
Qed.

(** C10.  In the v3 metrics every sample with frequency at least 0.5 Hz
    has input power [sqrt(3)*VOLTAGE*current*POWER_FACTOR/1000] with the
    fixed line voltage [VOLTAGE]; [voltage_func] does not enter: while the
    set-point frequency is below base frequency the reported input power
    is strictly above the power at the set-point voltage.  For a
    trajectory with one speed per point of the time grid the loop runs
    through, [power_input_array] holds one such value per grid point, and
    the start-up energy is the trapezoidal integral of that full-voltage
    series over the grid from 0 to [RAMP_TIME]; it is strictly larger than
    the integral of the power at the set-point voltage. *)
Theorem C10_input_power_at_full_line_voltage
    (cfg : Config) (t omega_rad : R) :
  well_formed cfg ->
  0.5 <= V3.freq_func cfg t ->
  V3.power_input (V3.metrics_row cfg t omega_rad) =
    sqrt 3 * VOLTAGE cfg * V3.current (V3.metrics_row cfg t omega_rad)
    * POWER_FACTOR cfg / 1000 /\
  (V_BOOST cfg <= 1 -> V3.freq_func cfg t < BASE_FREQ cfg ->
     sqrt 3 * V3.voltage_func cfg (V3.freq_func cfg t)
     * V3.current (V3.metrics_row cfg t omega_rad) * POWER_FACTOR cfg / 1000
     < V3.power_input (V3.metrics_row cfg t omega_rad)) /\
  (forall omega_traj : list R,
     (2 <= TIME_POINTS cfg)%nat ->
     List.length omega_traj = TIME_POINTS cfg ->
     V3.metrics_loop cfg (V3.time cfg) omega_traj
       = Some (V3.metrics cfg (V3.time cfg) omega_traj) /\
     List.length (V3.power_input_array cfg (V3.time cfg) omega_traj)
       = TIME_POINTS cfg /\
     V3.power_input_array cfg (V3.time cfg) omega_traj
       = map (fun p => sqrt 3 * VOLTAGE cfg
                       * V3.current (V3.metrics_row cfg (fst p) (snd p))
                       * POWER_FACTOR cfg / 1000)
           (combine (V3.time cfg) omega_traj) /\
     V3.vfd_energy_kj cfg (V3.time cfg) omega_traj
       = trapz
           (map (fun p => sqrt 3 * VOLTAGE cfg
                          * V3.current (V3.metrics_row cfg (fst p) (snd p))
                          * POWER_FACTOR cfg / 1000)
              (combine (V3.time cfg) omega_traj))
           (V3.time cfg) /\
     (V_BOOST cfg <= 1 -> 1 <= BASE_FREQ cfg -> (3 <= TIME_POINTS cfg)%nat ->
        trapz
          (map (fun p => sqrt 3 * V3.voltage_func cfg (V3.freq_func cfg (fst p))
                         * V3.current (V3.metrics_row cfg (fst p) (snd p))
                         * POWER_FACTOR cfg / 1000)
             (combine (V3.time cfg) omega_traj))
          (V3.time cfg)
        < V3.vfd_energy_kj cfg (V3.time cfg) omega_traj)).
Proof.
  intros W Hf.
  pose proof (V3_active_row_power_input cfg t omega_rad Hf) as H.
  unfold line_voltage_power in H.
  split; [exact H |]. split.
  { intros Hb Hlt. rewrite H. now apply V3_setpoint_power_lt. }
  intros omega_traj Hn Hlen.
  pose proof (wf_ramp_time cfg W) as Hr.
  pose proof (linspace_length 0 (RAMP_TIME cfg) (TIME_POINTS cfg)) as Htl.
  pose proof (linspace_strictly_sorted 0 (RAMP_TIME cfg) (TIME_POINTS cfg) Hr)
    as Hsorted.
  assert (Hrange : forall s, In s (V3.time cfg) -> 0 <= s <= RAMP_TIME cfg).
  { intros s Hs.
    apply (linspace_in_range (RAMP_TIME cfg) (TIME_POINTS cfg) s);
      [lra | exact Hs]. }
  fold (V3.time cfg) in Htl, Hsorted.
  set (time := V3.time cfg) in *.
  assert (Hcomb : List.length (combine time omega_traj) = TIME_POINTS cfg).
  { rewrite length_combine, Htl, Hlen. apply Nat.min_id. }
  assert (Hseries :
    V3.power_input_array cfg time omega_traj
    = map (fun p => sqrt 3 * VOLTAGE cfg
                    * V3.current (V3.metrics_row cfg (fst p) (snd p))
                    * POWER_FACTOR cfg / 1000)
        (combine time omega_traj)).
  { unfold V3.power_input_array, V3.metrics. rewrite map_map.
    apply map_ext. intros [t' w']. simpl. apply V3_row_power_input. }
  split.
  { apply V3_metrics_loop_equal_length. now rewrite Htl. }
  split.
  { rewrite Hseries, length_map. exact Hcomb. }
  split; [exact Hseries |].
  split.
  { unfold V3.vfd_energy_kj. now rewrite Hseries. }
  intros Hb Hbase Hn3.
  unfold V3.vfd_energy_kj. rewrite Hseries.
  apply trapz_map_lt.
  - now rewrite Hcomb, Htl.
  - rewrite Hcomb. exact Hn.
  - exact Hsorted.
  - intros [t' w'] Hin. simpl.
    apply V3_setpoint_power_le; [exact W | exact Hb |].
    apply Hrange. exact (in_combine_l _ _ _ _ Hin).
  - destruct (V3_time_active_below_base cfg W Hbase Hn3)
      as [t' [Hin [Hact Hlow]]].
    destruct (in_combine_partner time omega_traj t' ltac:(lia) Hin)
      as [w' Hpair].
    exists (t', w'). split; [exact Hpair |]. simpl.
    now apply V3_setpoint_power_lt.
Qed.

Lemma C10_input_power_at_full_line_voltage_witness :
  V3.power_input (V3.metrics_row default_config 15 90) =
    sqrt 3 * VOLTAGE default_config
    * V3.current (V3.metrics_row default_config 15 90)
    * POWER_FACTOR default_config / 1000 /\
  trapz
    (map (fun p => sqrt 3
                   * V3.voltage_func three_point_config
                       (V3.freq_func three_point_config (fst p))
                   * V3.current
                       (V3.metrics_row three_point_config (fst p) (snd p))
                   * POWER_FACTOR three_point_config / 1000)
       (combine (V3.time three_point_config) [0; 0; 100]))
    (V3.time three_point_config)
  < V3.vfd_energy_kj three_point_config (V3.time three_point_config)
      [0; 0; 100].
Proof.
  split.
  - refine (proj1 (C10_input_power_at_full_line_voltage
                     default_config 15 90 _ _)).
    + constructor; simpl; lra.
    + rewrite V3_freq_func_mid_ramp; lra.
  - refine (proj2 (proj2 (proj2 (proj2
              (proj2 (proj2 (C10_input_power_at_full_line_voltage
                               three_point_config 30 0
                               three_point_config_well_formed _))
                 [0; 0; 100] _ _)))) _ _ _).
    + rewrite V3_freq_func_hold;
        [simpl; lra | exact three_point_config_well_formed | simpl; lra].
    + apply (Nat.leb_le 2 3). reflexivity.
    + reflexivity.
    + simpl; lra.
    + simpl; lra.
    + apply (Nat.leb_le 3 3). reflexivity.
Defined.
